(** * Task admission, queuing and webhook rendezvous of tg-ai-agent

    A shallow embedding of
      - [src/backend/services/task_manager.py]  (module [Backend]),
      - [src/bot/services/task_manager.py]      (module [Bot]),
      - the provider webhook of [src/backend/api/endpoints.py] together with
        the delivery endpoint of [src/bot/api/endpoints.py] (module [Webhook]),
    followed by the properties proved about them.

    Both task managers run on one asyncio event loop.  A coroutine runs
    without interruption between two suspension points, so every manager
    operation is modelled as a function on the manager state, and the event
    loop as the environment that picks the next atomic step. *)

From Stdlib Require Import ZArith Lia Ascii String.
From stdpp Require Import base tactics option gmap strings functions list.


(* ===================================================================== *)
(** * The Category-Concurrency Task Manager (backend)                      *)
(* ===================================================================== *)

Module Backend.

(** [class TaskStatus(Enum)] and [class TaskType(Enum)]. *)
Inductive TaskStatus :=
  QUEUED | PENDING | RUNNING | COMPLETED | FAILED | NOT_FOUND.

Inductive TaskType := TRANSCRIPTION | REPORT | DEFAULT.

#[global] Instance TaskStatus_eq_dec : EqDecision TaskStatus.
Proof. solve_decision. Defined.

#[global] Instance TaskType_eq_dec : EqDecision TaskType.
Proof. solve_decision. Defined.

(** Iteration order of [for task_type in TaskType]. *)
Definition TaskType_members : list TaskType := [TRANSCRIPTION; REPORT; DEFAULT].

(** The [asyncio.Task] wrapping [Task.run()].  It is [AioScheduled] between
    [asyncio.create_task] and its first step, [AioSuspended] while
    [run()] awaits the work function, and done afterwards, either normally
    ([AioFinished]: [run()] returned) or cancelled ([AioCancelled]: a
    [CancelledError] left [run()]).  [must_cancel] records that [cancel()]
    was called on it; [callback_fired] that the done-callback installed by
    [_start_task] has run [_handle_task_completion]. *)
Inductive AioState := AioScheduled | AioSuspended | AioFinished | AioCancelled.

#[global] Instance AioState_eq_dec : EqDecision AioState.
Proof. solve_decision. Defined.

Record AioTask := mkAio {
  aio_state : AioState;
  must_cancel : bool;
  callback_fired : bool
}.

(** [asyncio.Task.done()]. *)
Definition aio_done (a : AioTask) : bool :=
  match aio_state a with
  | AioFinished | AioCancelled => true
  | AioScheduled | AioSuspended => false
  end.

(** [class Task].  Times are microseconds since the epoch; [_coroutine] is
    the identity of the work function; [result = None] is Python's [None],
    [Some v] a value other than [None] (its JSON text). *)
Record Task := mkTask {
  task_id : string;
  status : TaskStatus;
  task_type : TaskType;
  result : option string;
  error : option string;
  created_at : Z;
  started_at : option Z;
  completed_at : option Z;
  task : option AioTask;
  _coroutine : nat;
  queue_position : option nat
}.

(** [Task.__init__]. *)
Definition Task_init (tid : string) (coroutine : nat) (ty : TaskType) (now : Z) : Task :=
  {| task_id := tid; status := QUEUED; task_type := ty;
     result := None; error := None;
     created_at := now; started_at := None; completed_at := None;
     task := None; _coroutine := coroutine; queue_position := None |}.

(** Attribute assignments [self.x = v]. *)
Definition set_status (s : TaskStatus) (t : Task) : Task :=
  {| task_id := task_id t; status := s; task_type := task_type t;
     result := result t; error := error t;
     created_at := created_at t; started_at := started_at t;
     completed_at := completed_at t;
     task := task t; _coroutine := _coroutine t;
     queue_position := queue_position t |}.

Definition set_result (v : option string) (t : Task) : Task :=
  {| task_id := task_id t; status := status t; task_type := task_type t;
     result := v; error := error t;
     created_at := created_at t; started_at := started_at t;
     completed_at := completed_at t;
     task := task t; _coroutine := _coroutine t;
     queue_position := queue_position t |}.

Definition set_error (e : option string) (t : Task) : Task :=
  {| task_id := task_id t; status := status t; task_type := task_type t;
     result := result t; error := e;
     created_at := created_at t; started_at := started_at t;
     completed_at := completed_at t;
     task := task t; _coroutine := _coroutine t;
     queue_position := queue_position t |}.

Definition set_started_at (z : option Z) (t : Task) : Task :=
  {| task_id := task_id t; status := status t; task_type := task_type t;
     result := result t; error := error t;
     created_at := created_at t; started_at := z;
     completed_at := completed_at t;
     task := task t; _coroutine := _coroutine t;
     queue_position := queue_position t |}.

Definition set_completed_at (z : option Z) (t : Task) : Task :=
  {| task_id := task_id t; status := status t; task_type := task_type t;
     result := result t; error := error t;
     created_at := created_at t; started_at := started_at t;
     completed_at := z;
     task := task t; _coroutine := _coroutine t;
     queue_position := queue_position t |}.

Definition set_task (a : option AioTask) (t : Task) : Task :=
  {| task_id := task_id t; status := status t; task_type := task_type t;
     result := result t; error := error t;
     created_at := created_at t; started_at := started_at t;
     completed_at := completed_at t;
     task := a; _coroutine := _coroutine t;
     queue_position := queue_position t |}.

Definition set_queue_position (p : option nat) (t : Task) : Task :=
  {| task_id := task_id t; status := status t; task_type := task_type t;
     result := result t; error := error t;
     created_at := created_at t; started_at := started_at t;
     completed_at := completed_at t;
     task := task t; _coroutine := _coroutine t;
     queue_position := p |}.

(** How the awaited work function leaves [await self._coroutine()]:
    it returns a value, raises an [Exception] whose [str] is [msg], or lets
    a [CancelledError] through. *)
Inductive Outcome :=
| Returned (v : option string)
| Raised (msg : string)
| Cancelled.

(** [Task.run], up to the suspension at [await self._coroutine()] ... *)
Definition run_begin (now : Z) (t : Task) : Task :=
  set_started_at (Some now) (set_status RUNNING t).

(** ... and from there to its end.  [CancelledError] is not an [Exception]:
    only the [finally] clause runs for it. *)
Definition run_finish (now : Z) (o : Outcome) (t : Task) : Task :=
  let t1 :=
    match o with
    | Returned v => set_status COMPLETED (set_result v t)
    | Raised msg => set_status FAILED (set_error (Some msg) t)
    | Cancelled => t
    end in
  set_completed_at (Some now) t1.

(** [Task.to_dict]. *)
Record Snapshot := mkSnapshot {
  snap_task_id : string;
  snap_status : TaskStatus;
  snap_task_type : TaskType;
  snap_result : option string;
  snap_error : option string;
  snap_queue_position : option nat;
  snap_created_at : Z;
  snap_started_at : option Z;
  snap_completed_at : option Z
}.

Definition to_dict (t : Task) : Snapshot :=
  {| snap_task_id := task_id t; snap_status := status t;
     snap_task_type := task_type t; snap_result := result t;
     snap_error := error t; snap_queue_position := queue_position t;
     snap_created_at := created_at t; snap_started_at := started_at t;
     snap_completed_at := completed_at t |}.

(** [class TaskManager].  [Task] objects live in [objects] and are referred
    to by their index there, in allocation order; [tasks] is the dictionary
    [self.tasks] from ids to objects.  [cancel_waiters] holds the
    [cancel_task] calls suspended at [await task.task], with their local
    variables [task_id] and [task]. *)
Record TaskManager := mkTaskManager {
  objects : list Task;
  tasks : gmap string nat;
  task_queues : TaskType -> list string;
  running_tasks : TaskType -> gset string;
  _cleanup_task : bool;
  _queue_processor_task : bool;
  _retention_minutes : Z;
  concurrency_limits : TaskType -> Z;
  cancel_waiters : list (string * nat)
}.

(** [TaskManager.__init__]. *)
Definition TaskManager_init (limits : TaskType -> Z) (retention : Z) : TaskManager :=
  {| objects := []; tasks := ∅;
     task_queues := fun _ => []; running_tasks := fun _ => ∅;
     _cleanup_task := false; _queue_processor_task := false;
     _retention_minutes := retention;
     concurrency_limits := limits;
     cancel_waiters := [] |}.

Definition set_objects (os : list Task) (m : TaskManager) : TaskManager :=
  {| objects := os; tasks := tasks m; task_queues := task_queues m;
     running_tasks := running_tasks m; _cleanup_task := _cleanup_task m;
     _queue_processor_task := _queue_processor_task m;
     _retention_minutes := _retention_minutes m;
     concurrency_limits := concurrency_limits m;
     cancel_waiters := cancel_waiters m |}.

Definition set_tasks (ts : gmap string nat) (m : TaskManager) : TaskManager :=
  {| objects := objects m; tasks := ts; task_queues := task_queues m;
     running_tasks := running_tasks m; _cleanup_task := _cleanup_task m;
     _queue_processor_task := _queue_processor_task m;
     _retention_minutes := _retention_minutes m;
     concurrency_limits := concurrency_limits m;
     cancel_waiters := cancel_waiters m |}.

Definition set_queue (ty : TaskType) (q : list string) (m : TaskManager) : TaskManager :=
  {| objects := objects m; tasks := tasks m;
     task_queues := <[ty := q]> (task_queues m);
     running_tasks := running_tasks m; _cleanup_task := _cleanup_task m;
     _queue_processor_task := _queue_processor_task m;
     _retention_minutes := _retention_minutes m;
     concurrency_limits := concurrency_limits m;
     cancel_waiters := cancel_waiters m |}.

Definition set_running (ty : TaskType) (r : gset string) (m : TaskManager) : TaskManager :=
  {| objects := objects m; tasks := tasks m; task_queues := task_queues m;
     running_tasks := <[ty := r]> (running_tasks m);
     _cleanup_task := _cleanup_task m;
     _queue_processor_task := _queue_processor_task m;
     _retention_minutes := _retention_minutes m;
     concurrency_limits := concurrency_limits m;
     cancel_waiters := cancel_waiters m |}.

Definition set_background (m : TaskManager) : TaskManager :=
  {| objects := objects m; tasks := tasks m; task_queues := task_queues m;
     running_tasks := running_tasks m; _cleanup_task := true;
     _queue_processor_task := true;
     _retention_minutes := _retention_minutes m;
     concurrency_limits := concurrency_limits m;
     cancel_waiters := cancel_waiters m |}.

Definition set_cancel_waiters (ws : list (string * nat)) (m : TaskManager) : TaskManager :=
  {| objects := objects m; tasks := tasks m; task_queues := task_queues m;
     running_tasks := running_tasks m; _cleanup_task := _cleanup_task m;
     _queue_processor_task := _queue_processor_task m;
     _retention_minutes := _retention_minutes m;
     concurrency_limits := concurrency_limits m;
     cancel_waiters := ws |}.

(** Mutation of the object behind reference [ref]. *)
Definition update_object (ref : nat) (f : Task -> Task) (m : TaskManager) : TaskManager :=
  set_objects (alter f ref (objects m)) m.

(** [self.tasks.get(task_id)]: the object and its reference. *)
Definition tasks_get (m : TaskManager) (tid : string) : option (nat * Task) :=
  match tasks m !! tid with
  | Some ref =>
      match objects m !! ref with
      | Some t => Some (ref, t)
      | None => None
      end
  | None => None
  end.

(** [TaskManager._start_task].  The done-callback it installs is the
    [callback_fired = false] of the new [asyncio.Task]. *)
Definition _start_task (ref : nat) (m : TaskManager) : TaskManager :=
  match objects m !! ref with
  | Some t =>
      let m1 := update_object ref (set_status PENDING) m in
      let m2 := set_running (task_type t)
                  ({[ task_id t ]} ∪ running_tasks m1 (task_type t)) m1 in
      update_object ref (set_task (Some (mkAio AioScheduled false false))) m2
  | None => m
  end.

(** The loop
    [for i, queued_id in enumerate(queue):
        if queued_task := self.tasks.get(queued_id): queued_task.queue_position = i + 1]
    from index [i] on. *)
Fixpoint renumber (i : nat) (queue : list string) (m : TaskManager) : TaskManager :=
  match queue with
  | [] => m
  | queued_id :: rest =>
      let m1 :=
        match tasks_get m queued_id with
        | Some (ref, _) => update_object ref (set_queue_position (Some (i + 1))) m
        | None => m
        end in
      renumber (S i) rest m1
  end.

(** [TaskManager._process_queue_for_type]. *)
Definition _process_queue_for_type (ty : TaskType) (m : TaskManager) : TaskManager :=
  match task_queues m ty with
  | [] => m
  | next_task_id :: rest =>
      let m1 := set_queue ty rest m in
      match tasks_get m1 next_task_id with
      | Some (ref, t) =>
          if decide (status t = QUEUED)
          then _start_task ref (renumber 0 (task_queues m1 ty) m1)
          else m1
      | None => m1
      end
  end.

(** [TaskManager._handle_task_completion]; [None] is the [KeyError] of
    [set.remove], raised before anything was changed. *)
Definition _handle_task_completion (ref : nat) (m : TaskManager) : option TaskManager :=
  match objects m !! ref with
  | Some t =>
      if decide (task_id t ∈ running_tasks m (task_type t))
      then Some (_process_queue_for_type (task_type t)
                   (set_running (task_type t)
                      (running_tasks m (task_type t) ∖ {[ task_id t ]}) m))
      else None
  | None => None
  end.

(** One iteration of the [while True] loop of [TaskManager._process_queues]. *)
Definition _process_queues (m : TaskManager) : TaskManager :=
  foldl (fun m ty =>
           if decide (Z.of_nat (size (running_tasks m ty)) < concurrency_limits m ty)%Z
           then _process_queue_for_type ty m
           else m)
        m TaskType_members.

(** [task_id or str(uuid.uuid4())]: [None] and the empty string are both
    replaced. *)
Definition task_id_or (tid : option string) (uuid : string) : string :=
  match tid with
  | Some s => if decide (s = "") then uuid else s
  | None => uuid
  end.

(** [TaskManager.add_task].  [uuid] is the value [str(uuid.uuid4())] would
    produce. *)
Definition add_task (now : Z) (uuid : string) (coroutine : nat)
    (ty : TaskType) (tid : option string) (m : TaskManager) : string * TaskManager :=
  let task_id := task_id_or tid uuid in
  let ref := length (objects m) in
  let m1 := set_tasks (<[task_id := ref]> (tasks m))
              (set_objects (objects m ++ [Task_init task_id coroutine ty now]) m) in
  let m2 :=
    if decide (Z.of_nat (size (running_tasks m1 ty)) < concurrency_limits m1 ty)%Z
    then _start_task ref m1
    else
      let m' := set_queue ty (task_queues m1 ty ++ [task_id]) m1 in
      update_object ref (set_queue_position (Some (length (task_queues m' ty)))) m' in
  (task_id, set_background m2).

(** [TaskManager.get_task_status]. *)
Definition get_task_status (tid : string) (m : TaskManager) : TaskStatus * option Snapshot :=
  match tasks_get m tid with
  | Some (_, t) => (status t, Some (to_dict t))
  | None => (NOT_FOUND, None)
  end.

(** [TaskManager.get_queue_status] for one task type: running, queued, limit. *)
Definition get_queue_status (ty : TaskType) (m : TaskManager) : nat * nat * Z :=
  (size (running_tasks m ty), length (task_queues m ty), concurrency_limits m ty).

(** ** The task endpoints of [api/endpoints.py] *)

(** What an endpoint does with a request: it returns a value, or raises an
    [HTTPException]. *)
Inductive Answer (A : Type) :=
| Returns (a : A)
| HTTPException (status_code : Z) (detail : string).
Arguments Returns {A} a.
Arguments HTTPException {A} status_code detail.

(** [get_api_key] and [verify_api_key] of [utils/security.py], the
    dependency of the task endpoints; [env] is
    [os.getenv("OUR_SECRET_TOKEN")] and [api_key_header] the [X-API-Key]
    header. *)
Definition verify_api_key (env : option string) (api_key_header : option string)
    : Answer unit :=
  match api_key_header with
  | None | Some EmptyString =>
      HTTPException 401 "Missing API key in X-API-Key header"
  | Some header =>
      match env with
      | None | Some EmptyString =>
          HTTPException 500 "Server configuration error: API key not set"
      | Some api_key =>
          if decide (header = api_key) then Returns tt
          else HTTPException 403 "Invalid API key"
      end
  end.

(** [transcribe_audio] ([POST /transcribe]):
    [add_task(transcribe, TaskType.TRANSCRIPTION, transcription_request.task_id)]
    and the snapshot of the new task; [coroutine] is the closure
    [transcribe] of the request. *)
Definition transcribe_audio (now : Z) (uuid : string) (coroutine : nat)
    (task_id : option string) (m : TaskManager) : option Snapshot * TaskManager :=
  let '(tid, m') := add_task now uuid coroutine TRANSCRIPTION task_id m in
  let '(_, result) := get_task_status tid m' in
  (result, m').

(** [get_task] ([GET /task/{task_id}]). *)
Definition get_task (task_id : string) (m : TaskManager) : Answer (option Snapshot) :=
  let '(status, result) := get_task_status task_id m in
  if decide (status = NOT_FOUND)
  then HTTPException 404 "Task not found"
  else Returns result.

(** [task.status = TaskStatus.FAILED; task.error = msg;
    task.completed_at = datetime.now(UTC)]. *)
Definition mark_failed (now : Z) (msg : string) (t : Task) : Task :=
  set_completed_at (Some now) (set_error (Some msg) (set_status FAILED t)).

(** [list.remove]: drops the first occurrence. *)
Fixpoint list_remove_first `{EqDecision A} (x : A) (l : list A) : list A :=
  match l with
  | [] => []
  | y :: l' => if decide (y = x) then l' else y :: list_remove_first x l'
  end.

(** What [cancel_task] does: it returns a boolean, or suspends at
    [await task.task] on the object [ref]. *)
Inductive CancelResult :=
| CancelReturned (b : bool)
| CancelAwaiting (ref : nat).

Definition request_cancel (a : AioTask) : AioTask :=
  mkAio (aio_state a) true (callback_fired a).

(** [TaskManager.cancel_task], up to its [return] or its [await]. *)
Definition cancel_task (now : Z) (tid : string) (m : TaskManager)
    : CancelResult * TaskManager :=
  match tasks_get m tid with
  | None => (CancelReturned false, m)
  | Some (ref, t) =>
      if decide (status t = QUEUED) then
        if decide (tid ∈ task_queues m (task_type t)) then
          let m1 := set_queue (task_type t)
                      (list_remove_first tid (task_queues m (task_type t))) m in
          let m2 := renumber 0 (task_queues m1 (task_type t)) m1 in
          let m3 := update_object ref
                      (mark_failed now "Task was cancelled while in queue") m2 in
          (CancelReturned true, m3)
        else (CancelReturned false, m)
      else
        match task t with
        | Some a =>
            if aio_done a then (CancelReturned false, m)
            else
              (CancelAwaiting ref,
               set_cancel_waiters (cancel_waiters m ++ [(tid, ref)])
                 (update_object ref (set_task (Some (request_cancel a))) m))
        | None => (CancelReturned false, m)
        end
  end.

(** [TaskManager.cancel_task] from the point where [await task.task] is
    over: with a [CancelledError] when the awaited task was cancelled,
    normally otherwise. *)
Definition cancel_task_resume (now : Z) (tid : string) (ref : nat)
    (m : TaskManager) : option (bool * TaskManager) :=
  match objects m !! ref with
  | Some t =>
      match task t with
      | Some a =>
          match aio_state a with
          | AioCancelled =>
              let m1 := update_object ref (mark_failed now "Task was cancelled") m in
              let m2 :=
                if decide (tid ∈ running_tasks m1 (task_type t))
                then set_running (task_type t)
                       (running_tasks m1 (task_type t) ∖ {[ tid ]}) m1
                else m1 in
              Some (true, m2)
          | AioFinished => Some (false, m)
          | AioScheduled | AioSuspended => None
          end
      | None => None
      end
  | None => None
  end.

(** [TaskManager.cancel_all_tasks] up to its first [await]: every queue is
    emptied, its tasks marked failed.  The calls [self.cancel_task(task_id)]
    that follow, one per running id, are calls of [cancel_task]. *)
Definition fail_queued (now : Z) (queue : list string) (m : TaskManager) : TaskManager :=
  foldl (fun m tid =>
           match tasks_get m tid with
           | Some (ref, _) =>
               update_object ref
                 (mark_failed now "Task was cancelled during shutdown") m
           | None => m
           end)
        m queue.

Definition cancel_all_tasks_begin (now : Z) (m : TaskManager) : TaskManager :=
  foldl (fun m ty => set_queue ty [] (fail_queued now (task_queues m ty) m))
        m TaskType_members.

Definition cancel_all_tasks_running (m : TaskManager) : list string :=
  flat_map (fun ty => elements (running_tasks m ty)) TaskType_members.

(** One iteration of [TaskManager._cleanup_old_tasks]:
    [minutes_old > self._retention_minutes], with
    [minutes_old = (current_time - completed_at).total_seconds() / 60]. *)
Definition expired (now : Z) (retention : Z) (t : Task) : bool :=
  match completed_at t with
  | Some c => bool_decide (retention * 60000000 < now - c)%Z
  | None => false
  end.

Definition retained (now : Z) (m : TaskManager) (ref : nat) : bool :=
  match objects m !! ref with
  | Some t => negb (expired now (_retention_minutes m) t)
  | None => true
  end.

Definition _cleanup_old_tasks (now : Z) (m : TaskManager) : TaskManager :=
  set_tasks
    (filter (fun kv : string * nat => retained now m kv.2 = true) (tasks m))
    m.

(** ** The event loop

    The atomic steps the event loop can take on a manager: a call of one of
    its coroutines up to its first suspension, a step of the [asyncio.Task]
    of a started [Task], a done-callback, an iteration of a background loop,
    or the resumption of a suspended [cancel_task]. *)
Inductive Event :=
| EvAddTask (now : Z) (uuid : string) (coroutine : nat) (ty : TaskType)
    (tid : option string)
| EvRunStart (now : Z) (ref : nat)
| EvRunEnd (now : Z) (ref : nat) (o : Outcome)
| EvDone (ref : nat)
| EvProcessQueues
| EvCleanup (now : Z)
| EvCancelTask (now : Z) (tid : string)
| EvCancelResume (now : Z) (tid : string) (ref : nat)
| EvCancelAll (now : Z).

Definition set_aio_state (s : AioState) (t : Task) : Task :=
  match task t with
  | Some a => set_task (Some (mkAio s (must_cancel a) (callback_fired a))) t
  | None => t
  end.

Definition set_callback_fired (t : Task) : Task :=
  match task t with
  | Some a => set_task (Some (mkAio (aio_state a) (must_cancel a) true)) t
  | None => t
  end.

(** [exec ev m] is the manager after the step [ev], or [None] when the event
    loop cannot take that step in [m].

    - [EvRunStart]: the first step of the [asyncio.Task] of [ref].  When
      [cancel()] was called before it, the [CancelledError] is thrown into the
      coroutine before any of [run()] has run, and the task ends cancelled.
    - [EvRunEnd]: the work function is over.  It lets a [CancelledError]
      through only when [cancel()] was called on the task.
    - [EvDone]: the done-callback of [_start_task].  The coroutines
      suspended at [await task.task] are woken by the callbacks that ran
      with it, one iteration of the loop before the task that the
      callback creates for [_handle_task_completion] takes its first step:
      the step waits for them.  A [KeyError] ends that task and
      changes nothing.
    - [EvProcessQueues], [EvCleanup]: the background loops, started by the
      first [add_task]. *)
Definition exec (ev : Event) (m : TaskManager) : option TaskManager :=
  match ev with
  | EvAddTask now uuid coroutine ty tid =>
      Some (add_task now uuid coroutine ty tid m).2
  | EvRunStart now ref =>
      match objects m !! ref with
      | Some t =>
          match task t with
          | Some a =>
              match aio_state a with
              | AioScheduled =>
                  if must_cancel a
                  then Some (update_object ref (set_aio_state AioCancelled) m)
                  else Some (update_object ref
                               (fun t => set_aio_state AioSuspended (run_begin now t)) m)
              | _ => None
              end
          | None => None
          end
      | None => None
      end
  | EvRunEnd now ref o =>
      match objects m !! ref with
      | Some t =>
          match task t with
          | Some a =>
              match aio_state a, o with
              | AioSuspended, Cancelled =>
                  if must_cancel a
                  then Some (update_object ref
                               (fun t => set_aio_state AioCancelled (run_finish now o t)) m)
                  else None
              | AioSuspended, _ =>
                  Some (update_object ref
                          (fun t => set_aio_state AioFinished (run_finish now o t)) m)
              | _, _ => None
              end
          | None => None
          end
      | None => None
      end
  | EvDone ref =>
      match objects m !! ref with
      | Some t =>
          match task t with
          | Some a =>
              if aio_done a && negb (callback_fired a)
                 && bool_decide (Forall (fun w : string * nat => w.2 ≠ ref)
                                   (cancel_waiters m))
              then
                let m1 := update_object ref set_callback_fired m in
                match _handle_task_completion ref m1 with
                | Some m2 => Some m2
                | None => Some m1
                end
              else None
          | None => None
          end
      | None => None
      end
  | EvProcessQueues =>
      if _queue_processor_task m then Some (_process_queues m) else None
  | EvCleanup now =>
      if _cleanup_task m then Some (_cleanup_old_tasks now m) else None
  | EvCancelTask now tid => Some (cancel_task now tid m).2
  | EvCancelResume now tid ref =>
      if decide ((tid, ref) ∈ cancel_waiters m) then
        match cancel_task_resume now tid ref m with
        | Some (_, m1) =>
            Some (set_cancel_waiters
                    (list_remove_first (tid, ref) (cancel_waiters m1)) m1)
        | None => None
        end
      else None
  | EvCancelAll now => Some (cancel_all_tasks_begin now m)
  end.

(** Task ids are meant to be unique: [fresh_event m ev] says that an
    admission uses an id no [Task] object was created with before. *)
Definition fresh_event (m : TaskManager) (ev : Event) : Prop :=
  match ev with
  | EvAddTask _ uuid _ _ tid => task_id_or tid uuid ∉ task_id <$> objects m
  | _ => True
  end.

#[global] Instance fresh_event_dec m ev : Decision (fresh_event m ev).
Proof. destruct ev; simpl; apply _. Defined.

(** Work functions that return a value other than [None]. *)
Definition returns_value (ev : Event) : Prop :=
  match ev with
  | EvRunEnd _ _ (Returned None) => False
  | _ => True
  end.

#[global] Instance returns_value_dec ev : Decision (returns_value ev).
Proof. destruct ev as [| | ? ? [[]| |] | | | | | |]; simpl; apply _. Defined.

(** Runs of the event loop from [m]; [ok] restricts the steps taken. *)
Fixpoint run (ok : TaskManager -> Event -> bool) (evs : list Event)
    (m : TaskManager) : option TaskManager :=
  match evs with
  | [] => Some m
  | ev :: evs' =>
      if ok m ev then
        match exec ev m with
        | Some m' => run ok evs' m'
        | None => None
        end
      else None
  end.

Definition any_step (m : TaskManager) (ev : Event) : bool := true.
Definition unique_ids (m : TaskManager) (ev : Event) : bool :=
  bool_decide (fresh_event m ev).
Definition unique_ids_values (m : TaskManager) (ev : Event) : bool :=
  bool_decide (fresh_event m ev) && bool_decide (returns_value ev).

(** The states of a manager created with the given limits. *)
Definition reachable (ok : TaskManager -> Event -> bool)
    (limits : TaskType -> Z) (retention : Z) (m : TaskManager) : Prop :=
  exists evs, run ok evs (TaskManager_init limits retention) = Some m.

(** The stored tasks of a category that are [pending] or [running]. *)
Definition is_active (t : Task) : bool :=
  bool_decide (status t = PENDING \/ status t = RUNNING).

Definition active_at (ty : TaskType) (m : TaskManager) (ref : nat) : bool :=
  match objects m !! ref with
  | Some t => is_active t && bool_decide (task_type t = ty)
  | None => false
  end.

Definition active_tasks (ty : TaskType) (m : TaskManager) : gset string :=
  dom (filter (fun kv : string * nat => active_at ty m kv.2 = true) (tasks m)).

(** ** Notions used to state the properties of the manager *)

(** The limits of [config.TASK_CONCURRENCY_LIMITS] and the retention of
    [config.TASK_RETENTION_MINUTES]. *)
Definition TASK_CONCURRENCY_LIMITS (ty : TaskType) : Z :=
  match ty with
  | TRANSCRIPTION => 2
  | REPORT => 3
  | DEFAULT => 5
  end.

Definition TASK_RETENTION_MINUTES : Z := 5.

(** The ids the [Task] objects were created with, by reference. *)
Definition ids (m : TaskManager) : list string := task_id <$> objects m.

(** What the fields of a [Task] hold in each status. *)
Definition lifecycle (t : Task) : Prop :=
  match status t with
  | QUEUED =>
      task t = None /\ result t = None /\ error t = None
      /\ completed_at t = None /\ is_Some (queue_position t)
  | PENDING =>
      result t = None /\ error t = None
      /\ exists a, task t = Some a
                   /\ (aio_state a = AioScheduled \/ aio_state a = AioCancelled)
  | RUNNING =>
      result t = None /\ error t = None
      /\ exists a, task t = Some a
                   /\ (aio_state a = AioSuspended \/ aio_state a = AioCancelled)
  | COMPLETED =>
      error t = None /\ is_Some (completed_at t)
      /\ exists a, task t = Some a /\ aio_state a = AioFinished
  | FAILED =>
      result t = None /\ is_Some (error t) /\ is_Some (completed_at t)
      /\ (task t = None \/ exists a, task t = Some a /\ aio_done a = true)
  | NOT_FOUND => False
  end.

(** [R] holds between any two elements of [l] in the order of [l]. *)
Definition ordered {A} (R : A -> A -> Prop) (l : list A) : Prop :=
  forall x y, [x; y] `sublist_of` l -> R x y.

(** The object with id [x] was created before the object with id [y]. *)
Definition created_before (m : TaskManager) (x y : string) : Prop :=
  forall r1 r2, ids m !! r1 = Some x -> ids m !! r2 = Some y -> r1 < r2.

(** Well-formed managers: the ids of the objects are distinct and [tasks]
    maps ids to objects with that id; every object is in a state of its
    life cycle; the ids of a wait queue are distinct, stored, and belong to
    queued tasks of the queue's type, whose position is their place in the
    queue; a queue lists its tasks in the order of their creation; and a
    task that waited in a queue and was started was created before all
    those still waiting in it. *)
Record wf (m : TaskManager) : Prop := mkWf {
  wf_unique : NoDup (ids m);
  wf_tasks : forall id ref, tasks m !! id = Some ref -> ids m !! ref = Some id;
  wf_lifecycle : Forall lifecycle (objects m);
  wf_queue : forall ty id, id ∈ task_queues m ty ->
    exists ref t, tasks m !! id = Some ref /\ objects m !! ref = Some t
                  /\ status t = QUEUED /\ task_type t = ty;
  wf_nodup : forall ty, NoDup (task_queues m ty);
  wf_positions : forall ty k id t,
    task_queues m ty !! k = Some id -> t ∈ objects m -> task_id t = id ->
    queue_position t = Some (k + 1);
  wf_sorted : forall ty, ordered (created_before m) (task_queues m ty);
  wf_fifo : forall a A b B,
    objects m !! a = Some A -> objects m !! b = Some B ->
    task_id A ∈ task_queues m (task_type A) -> task_type B = task_type A ->
    is_Some (queue_position B) -> is_Some (task B) -> b < a
}.

(** The single update [f] of the object with id [x]. *)
Definition by_id (x : string) (f : Task -> Task) (t : Task) : Task :=
  if decide (task_id t = x) then f t else t.

(** The place of [x] in [l]. *)
Fixpoint index_of (x : string) (l : list string) : option nat :=
  match l with
  | [] => None
  | y :: l' => if decide (y = x) then Some 0 else S <$> index_of x l'
  end.

(** What [renumber i queue] does to a task. *)
Definition renum (i : nat) (queue : list string) (t : Task) : Task :=
  match index_of (task_id t) queue with
  | Some k => set_queue_position (Some (i + k + 1)) t
  | None => t
  end.

(** What [_start_task] does to its task. *)
Definition started (t : Task) : Task :=
  set_task (Some (mkAio AioScheduled false false)) (set_status PENDING t).

(** The bookkeeping of the slots: the manager has the limits it was created
    with; a coroutine suspended in [cancel_task] waits for the object its id
    names; a task that holds a slot and whose [asyncio.Task] was asked to
    stop, or has stopped, has such a coroutine waiting for it; the id of
    every task that is [pending] or [running] is in the running set of its
    type; and no running set is larger than the limit of its type. *)
Record accounted (limits : TaskType -> Z) (m : TaskManager) : Prop := mkAccounted {
  acc_limits : concurrency_limits m = limits;
  acc_waiters : forall tid ref,
    (tid, ref) ∈ cancel_waiters m -> ids m !! ref = Some tid;
  acc_cancelled : forall ref t a,
    objects m !! ref = Some t -> is_active t = true -> task t = Some a ->
    must_cancel a = true \/ aio_state a = AioCancelled ->
    exists tid, (tid, ref) ∈ cancel_waiters m;
  acc_active : forall ref t,
    objects m !! ref = Some t -> is_active t = true ->
    task_id t ∈ running_tasks m (task_type t);
  acc_bound : forall ty,
    (Z.of_nat (size (running_tasks m ty)) <= Z.max 0 (limits ty))%Z
}.


(** A queued task has a position, and positions count from 1. *)
Definition position_defined (t : Task) : Prop :=
  (status t = QUEUED -> is_Some (queue_position t))
  /\ (forall n, queue_position t = Some n -> 1 <= n).


(** What [add_task] makes of the new task: started when the running set of
    its type is below the limit, queued behind the others otherwise. *)
Definition admitted (now : Z) (id : string) (co : nat) (ty : TaskType)
    (m : TaskManager) : Task :=
  if decide (Z.of_nat (size (running_tasks m ty)) < concurrency_limits m ty)%Z
  then started (Task_init id co ty now)
  else set_queue_position (Some (length (task_queues m ty) + 1))
         (Task_init id co ty now).

(** How far a status is in the life of a task. *)
Definition status_rank (s : TaskStatus) : nat :=
  match s with
  | QUEUED => 0
  | PENDING => 1
  | RUNNING => 2
  | COMPLETED | FAILED | NOT_FOUND => 3
  end.

(** [t'] is a later state of the object [t]: the same id and type, a
    status that is the same or further on, and, once the task is completed
    or failed, the same status, with the result of a completed task and no
    result for a failed one. *)
Definition evolves (t t' : Task) : Prop :=
  task_id t' = task_id t /\ task_type t' = task_type t
  /\ (status t' = status t \/ status_rank (status t) < status_rank (status t'))
  /\ (status t = COMPLETED ->
      status t' = COMPLETED /\ result t' = result t /\ error t' = error t)
  /\ (status t = FAILED -> status t' = FAILED /\ result t' = result t).

(** Every object of [m] is still there in [m'], in a later state. *)
Definition objects_evolve (m m' : TaskManager) : Prop :=
  forall ref t, objects m !! ref = Some t ->
    exists t', objects m' !! ref = Some t' /\ evolves t t'.

(** Every task that is [queued] waits in the queue of its type. *)
Definition queued_waits (m : TaskManager) : Prop :=
  forall ref t,
    objects m !! ref = Some t -> status t = QUEUED ->
    task_id t ∈ task_queues m (task_type t).

(** [P] holds of every [Task] object of the manager. *)
Definition all_objects (P : Task -> Prop) (m : TaskManager) : Prop :=
  Forall P (objects m).

(** The steps in which a work function ends as [ok] allows. *)
Definition ok_event (ok : Outcome -> Prop) (ev : Event) : Prop :=
  match ev with
  | EvRunEnd _ _ o => ok o
  | _ => True
  end.

(** ** Example runs

    Four transcription requests under the limits of [config.py]: two tasks
    start, two wait; then the first task runs ([busy]); it returns and its
    done-callback drains the queue ([drained]); or it is cancelled while
    running ([cancelling], [cancelled]). *)
Definition state_after (evs : list Event) : TaskManager :=
  default (TaskManager_init TASK_CONCURRENCY_LIMITS TASK_RETENTION_MINUTES)
    (run unique_ids_values evs
       (TaskManager_init TASK_CONCURRENCY_LIMITS TASK_RETENTION_MINUTES)).

Definition busy_trace : list Event :=
  [ EvAddTask 0 "u1" 1 TRANSCRIPTION (Some "t1");
    EvAddTask 1 "u2" 2 TRANSCRIPTION (Some "t2");
    EvAddTask 2 "u3" 3 TRANSCRIPTION (Some "t3");
    EvAddTask 3 "u4" 4 TRANSCRIPTION None;
    EvRunStart 4 0 ].

Definition drained_trace : list Event :=
  busy_trace ++ [ EvRunEnd 5 0 (Returned (Some "{}")); EvDone 0 ].

Definition cancelling_trace : list Event :=
  busy_trace ++ [ EvCancelTask 5 "t1"; EvRunEnd 6 0 Cancelled ].

Definition cancelled_trace : list Event :=
  cancelling_trace ++ [ EvCancelResume 7 "t1" 0; EvDone 0 ].

(** The object behind a reference of an example state. *)
Definition object_at (m : TaskManager) (ref : nat) : Task :=
  default (Task_init "" 0 DEFAULT 0) (objects m !! ref).

Definition busy : TaskManager := state_after busy_trace.
Definition drained : TaskManager := state_after drained_trace.
Definition cancelling : TaskManager := state_after cancelling_trace.
Definition cancelled : TaskManager := state_after cancelled_trace.

(** The same id admitted twice: the second [Task] object replaces the first
    in [tasks] while the first still runs. *)
Definition reused_id_trace : list Event :=
  [ EvAddTask 0 "u0" 0 TRANSCRIPTION (Some "a");
    EvAddTask 1 "u1" 1 TRANSCRIPTION (Some "a");
    EvAddTask 2 "u2" 2 TRANSCRIPTION (Some "b");
    EvRunStart 3 0;
    EvRunEnd 4 0 (Returned (Some "{}"));
    EvDone 0;
    EvAddTask 5 "u3" 3 TRANSCRIPTION (Some "c") ].

End Backend.

(* ===================================================================== *)
(** * The Per-User Single-Flight Task Manager (bot)                        *)
(* ===================================================================== *)

Module Bot.

(** The two closures called [wrapped_task]: the one built by
    [queue_task_with_queueing] and the one built by
    [queue_task_single_mode], with the [user_id] and [task_func] they
    capture ([w_func] is the identity of the work function). *)
Inductive Mode := QueueMode | SingleMode.

Record Wrapped := mkWrapped {
  w_mode : Mode;
  w_user : string;
  w_func : nat
}.

(** An [asyncio.Task] running a [wrapped_task]. *)
Inductive AioState := AioScheduled | AioSuspended | AioDone.

#[global] Instance AioState_eq_dec : EqDecision AioState.
Proof. solve_decision. Defined.

Record AioTask := mkAio {
  coro : Wrapped;
  aio_state : AioState;
  must_cancel : bool
}.

(** The module-level state: the three dictionaries, the [asyncio.Task]
    objects created so far (referred to by their index, in creation order)
    and the [cancel_user_task] calls suspended at
    [await user_running_tasks[user_id]]. *)
Record Manager := mkManager {
  aio_tasks : list AioTask;
  user_task_queues : gmap string (list Wrapped);
  user_running_tasks : gmap string nat;
  user_cancel_messages : gmap string (Z * Z);
  cancel_waiters : list (string * nat)
}.

Definition Manager_init : Manager :=
  {| aio_tasks := []; user_task_queues := ∅; user_running_tasks := ∅;
     user_cancel_messages := ∅; cancel_waiters := [] |}.

Definition set_aio_tasks (l : list AioTask) (m : Manager) : Manager :=
  {| aio_tasks := l; user_task_queues := user_task_queues m;
     user_running_tasks := user_running_tasks m;
     user_cancel_messages := user_cancel_messages m;
     cancel_waiters := cancel_waiters m |}.

Definition set_queues (q : gmap string (list Wrapped)) (m : Manager) : Manager :=
  {| aio_tasks := aio_tasks m; user_task_queues := q;
     user_running_tasks := user_running_tasks m;
     user_cancel_messages := user_cancel_messages m;
     cancel_waiters := cancel_waiters m |}.

Definition set_running (r : gmap string nat) (m : Manager) : Manager :=
  {| aio_tasks := aio_tasks m; user_task_queues := user_task_queues m;
     user_running_tasks := r;
     user_cancel_messages := user_cancel_messages m;
     cancel_waiters := cancel_waiters m |}.

Definition set_cancel_messages (c : gmap string (Z * Z)) (m : Manager) : Manager :=
  {| aio_tasks := aio_tasks m; user_task_queues := user_task_queues m;
     user_running_tasks := user_running_tasks m;
     user_cancel_messages := c;
     cancel_waiters := cancel_waiters m |}.

Definition set_cancel_waiters (w : list (string * nat)) (m : Manager) : Manager :=
  {| aio_tasks := aio_tasks m; user_task_queues := user_task_queues m;
     user_running_tasks := user_running_tasks m;
     user_cancel_messages := user_cancel_messages m;
     cancel_waiters := w |}.

(** [asyncio.Task.done()] of the task behind [ref]. *)
Definition done (m : Manager) (ref : nat) : bool :=
  match aio_tasks m !! ref with
  | Some a => bool_decide (aio_state a = AioDone)
  | None => false
  end.

(** [is_task_running]:
    [user_id in user_running_tasks and not user_running_tasks[user_id].done()]. *)
Definition is_task_running (user_id : string) (m : Manager) : bool :=
  match user_running_tasks m !! user_id with
  | Some ref => negb (done m ref)
  | None => false
  end.

(** [user_running_tasks[user_id] = asyncio.create_task(w())]. *)
Definition create_running_task (user_id : string) (w : Wrapped) (m : Manager) : Manager :=
  set_running (<[user_id := length (aio_tasks m)]> (user_running_tasks m))
    (set_aio_tasks (aio_tasks m ++ [mkAio w AioScheduled false]) m).

(** [user_task_queues[user_id]] on the [defaultdict]: a missing key is
    inserted with an empty deque. *)
Definition queue_of (user_id : string) (m : Manager) : list Wrapped :=
  default [] (user_task_queues m !! user_id).

(** [queue_task_with_queueing]. *)
Definition queue_task_with_queueing (user_id : string) (task_func : nat)
    (m : Manager) : Z * Manager :=
  let wrapped_task := mkWrapped QueueMode user_id task_func in
  if negb (is_task_running user_id m)
  then (0%Z, create_running_task user_id wrapped_task m)
  else
    let q := queue_of user_id m ++ [wrapped_task] in
    (Z.of_nat (length q), set_queues (<[user_id := q]> (user_task_queues m)) m).

(** [queue_task_single_mode]. *)
Definition queue_task_single_mode (user_id : string) (task_func : nat)
    (message_id : option Z) (m : Manager) : Z * Manager :=
  if is_task_running user_id m
  then ((-1)%Z, m)
  else
    let wrapped_task := mkWrapped SingleMode user_id task_func in
    (0%Z, create_running_task user_id wrapped_task m).

(** [queue_task]; [enable_task_queuing] is [config.ENABLE_TASK_QUEUING]. *)
Definition queue_task (enable_task_queuing : bool) (user_id : string)
    (task_func : nat) (message_id : option Z) (m : Manager) : Z * Manager :=
  if enable_task_queuing
  then queue_task_with_queueing user_id task_func m
  else queue_task_single_mode user_id task_func message_id m.

(** A [wrapped_task] up to [await task_func()]: the single-mode one drops
    the user's cancel message first. *)
Definition wrapped_begin (w : Wrapped) (m : Manager) : Manager :=
  match w_mode w with
  | QueueMode => m
  | SingleMode =>
      set_cancel_messages (delete (w_user w) (user_cancel_messages m)) m
  end.

(** The [finally] clause of a [wrapped_task], run however [task_func()]
    ended. *)
Definition wrapped_finally (w : Wrapped) (m : Manager) : Manager :=
  let user_id := w_user w in
  let m1 := set_running (delete user_id (user_running_tasks m)) m in
  match w_mode w with
  | SingleMode => m1
  | QueueMode =>
      match queue_of user_id m1 with
      | next_task :: rest =>
          create_running_task user_id next_task
            (set_queues (<[user_id := rest]> (user_task_queues m1)) m1)
      | [] => set_queues (delete user_id (user_task_queues m1)) m1
      end
  end.

Definition set_aio (ref : nat) (f : AioTask -> AioTask) (m : Manager) : Manager :=
  match aio_tasks m !! ref with
  | Some a => set_aio_tasks (<[ref := f a]> (aio_tasks m)) m
  | None => m
  end.

Definition with_state (s : AioState) (a : AioTask) : AioTask :=
  mkAio (coro a) s (must_cancel a).

Definition request_cancel (a : AioTask) : AioTask :=
  mkAio (coro a) (aio_state a) true.

(** What [cancel_user_task] does: it returns, or suspends at
    [await user_running_tasks[user_id]]. *)
Inductive CancelResult :=
| CancelReturned (b : bool)
| CancelAwaiting (ref : nat).

(** [cancel_user_task] up to its [await] ... *)
Definition cancel_user_task (user_id : string) (m : Manager) : CancelResult * Manager :=
  if is_task_running user_id m then
    match user_running_tasks m !! user_id with
    | Some ref =>
        (CancelAwaiting ref,
         set_cancel_waiters (cancel_waiters m ++ [(user_id, ref)])
           (set_aio ref request_cancel m))
    | None => (CancelReturned false, m)
    end
  else (CancelReturned false, m).

(** ... and from there on, whatever the awaited task ended with. *)
Definition cancel_user_task_resume (user_id : string) (m : Manager) : bool * Manager :=
  (true, set_running (delete user_id (user_running_tasks m)) m).

(** [cancel_all_tasks] up to its first [await]: the queues are cleared and
    every running task that is not done is cancelled. *)
Definition cancel_all_tasks_begin (m : Manager) : Manager :=
  foldr (fun (item : string * nat) m =>
           if done m item.2 then m else set_aio item.2 request_cancel m)
        (set_queues ∅ m)
        (map_to_list (user_running_tasks m)).

(** The steps of the event loop on the manager. *)
Inductive Event :=
| EvQueueTask (user_id : string) (task_func : nat) (message_id : option Z)
| EvStart (ref : nat)
| EvEnd (ref : nat)
| EvCancelUserTask (user_id : string)
| EvCancelResume (user_id : string) (ref : nat)
| EvCancelAll.

#[global] Instance Event_eq_dec : EqDecision Event.
Proof. solve_decision. Defined.

(** [exec q ev m]: the manager after the step [ev], under
    [config.ENABLE_TASK_QUEUING = q].  [EvStart] is the first step of an
    [asyncio.Task]: cancelled before it, the task ends without running any
    of its coroutine, [finally] clause included.  [EvEnd] is the end of
    [task_func()], by return or by any exception. *)
Definition exec (q : bool) (ev : Event) (m : Manager) : option Manager :=
  match ev with
  | EvQueueTask user_id task_func message_id =>
      Some (queue_task q user_id task_func message_id m).2
  | EvStart ref =>
      match aio_tasks m !! ref with
      | Some a =>
          match aio_state a with
          | AioScheduled =>
              if must_cancel a
              then Some (set_aio ref (with_state AioDone) m)
              else Some (wrapped_begin (coro a) (set_aio ref (with_state AioSuspended) m))
          | _ => None
          end
      | None => None
      end
  | EvEnd ref =>
      match aio_tasks m !! ref with
      | Some a =>
          match aio_state a with
          | AioSuspended =>
              Some (set_aio ref (with_state AioDone) (wrapped_finally (coro a) m))
          | _ => None
          end
      | None => None
      end
  | EvCancelUserTask user_id => Some (cancel_user_task user_id m).2
  | EvCancelResume user_id ref =>
      if decide ((user_id, ref) ∈ cancel_waiters m) then
        if done m ref then
          let m1 := (cancel_user_task_resume user_id m).2 in
          Some (set_cancel_waiters
                  (Backend.list_remove_first (user_id, ref) (cancel_waiters m1)) m1)
        else None
      else None
  | EvCancelAll => Some (cancel_all_tasks_begin m)
  end.

(** What a step shows to the outside: a work function placed in a user's
    wait queue ([queue_task] returned a position above 0), or a work function
    taken from a wait queue and started (a [wrapped_task] that ended created
    an [asyncio.Task]). *)
Inductive Obs :=
| ObsQueued (user_id : string) (task_func : nat)
| ObsDequeued (user_id : string) (task_func : nat).

Definition observe (q : bool) (ev : Event) (m m' : Manager) : list Obs :=
  match ev with
  | EvQueueTask user_id task_func message_id =>
      if (0 <? (queue_task q user_id task_func message_id m).1)%Z
      then [ObsQueued user_id task_func] else []
  | EvEnd _ =>
      (fun a => ObsDequeued (w_user (coro a)) (w_func (coro a)))
        <$> drop (length (aio_tasks m)) (aio_tasks m')
  | _ => []
  end.

(** A run of the event loop, with its observations. *)
Fixpoint run (q : bool) (evs : list Event) (m : Manager) : option (Manager * list Obs) :=
  match evs with
  | [] => Some (m, [])
  | ev :: evs' =>
      match exec q ev m with
      | Some m' =>
          match run q evs' m' with
          | Some (m'', obs) => Some (m'', observe q ev m m' ++ obs)
          | None => None
          end
      | None => None
      end
  end.






(** ** Example run

    Three requests of one user with queueing enabled: the first starts, the
    other two wait; the first runs and ends, which starts the second. *)
Definition three_requests : list Event :=
  [ EvQueueTask "alice" 1 None;
    EvQueueTask "alice" 2 None;
    EvQueueTask "alice" 3 None;
    EvStart 0;
    EvEnd 0 ].

Definition after_three_requests : Manager * list Obs :=
  default (Manager_init, []) (run true three_requests Manager_init).


(** A user whose first request runs while a second one waits, queueing
    enabled. *)
Definition two_requests_trace : list Event :=
  [ EvQueueTask "alice" 1 None; EvQueueTask "alice" 2 None; EvStart 0 ].

Definition two_requests : Manager :=
  default Manager_init (fst <$> run true two_requests_trace Manager_init).

End Bot.

(* ===================================================================== *)
(** * The webhook rendezvous                                               *)
(* ===================================================================== *)

(** [assemblyai_webhook] of [src/backend/api/endpoints.py], the
    [update_stt_record] and [check_stt_record_delivery] adapters it calls,
    and [send_message_to_user] of [src/bot/api/endpoints.py], which receives
    what the webhook posts.  The persisted table [stt_files] is shared by
    both services.  Strings are sequences of ASCII characters. *)
Module Webhook.

Inductive DocxKind := DocxBytesIO | DocxBytes | DocxOther.

(** Column and JSON values. *)
Inductive Value :=
| VNull
| VBool (b : bool)
| VInt (z : Z)
| VStr (s : string)
| VDocx (k : DocxKind).

#[global] Instance DocxKind_eq_dec : EqDecision DocxKind.
Proof. solve_decision. Defined.

#[global] Instance Value_eq_dec : EqDecision Value.
Proof. solve_decision. Defined.

(** Python truth value. *)
Definition truthy (v : Value) : bool :=
  match v with
  | VNull => false
  | VBool b => b
  | VInt z => negb (z =? 0)%Z
  | VStr s => negb (bool_decide (s = ""))
  | VDocx _ => true
  end.

Definition str_truthy (o : option string) : bool :=
  match o with
  | Some s => negb (bool_decide (s = ""))
  | None => false
  end.

Definition int_truthy (o : option Z) : bool :=
  match o with
  | Some z => negb (z =? 0)%Z
  | None => false
  end.

Definition opt_value (o : option string) : Value :=
  match o with
  | Some s => VStr s
  | None => VNull
  end.

(** The body the backend posts to [/send_message_to_user] ... *)
Record Payload := mkPayload {
  p_chat_id : Z;
  p_db_thread_id : option string;
  p_message_id : option string;
  p_temp_msg_id : option string;
  p_message : string;
  p_metadata : option (gmap string string);
  p_file_url : option string;
  p_file_type : option string;
  p_file_name : option string
}.

(** ... and [class SendMessage] of the bot, which it is validated into. *)
Record SendMessage := mkSendMessage {
  chat_id : Z;
  message_id : option Z;
  temp_msg_id : option Z;
  message : string;
  file_url : option string;
  file_type : option string;
  caption : option string;
  file_name : option string;
  metadata : option (gmap string string)
}.

(** Calls that leave the two services. *)
Inductive Call :=
| CheckDelivery (record_id : string)
| FetchTranscript (transcript_id : string)
| SelectRecord (record_id : string)
| UploadDocx (record_id : string)
| UpdateRecord (record_id : string) (update_data : gmap string Value)
| PostSendMessage (payload : Payload)
| PostProcessMessage (chat : Z) (thread : string) (text : string)
| TgSendFile (chat : Z) (url : string) (kind : string) (caption : string)
    (name : option string) (reply_to : option Z)
| TgSendReply (chat : Z) (text : string) (reply_to : Z)
| TgSendMessage (chat : Z) (text : string)
| TgDeleteMessage (chat : Z) (msg : Z).

(** The world outside the handlers: the table [stt_files], by record id,
    and the calls made so far. *)
Record World := mkWorld {
  stt_files : gmap string (gmap string Value);
  calls : list Call
}.

(** What the provider returns for a transcript. *)
Record Transcript := mkTranscript {
  text : string;
  summary : option string;
  model_used : Value;
  detected_language : Value;
  transcription_docx : option DocxKind
}.

(** Environment variables and configuration constants of both services. *)
Record Config := mkConfig {
  webhook_secret : option string;
  TAGENT_LOCAL_URL : option string;
  OUR_SECRET_TOKEN : option string;
  SUPABASE_URL : string;
  summary_title : string;
  bot_secret_token : option string;
  EMPTY_MESSAGE_DEFAULT : string
}.

(** What the world answers during one request: clock readings, and for
    each outside call whether it raises ([Some msg], [inl msg]) and what it
    returns. *)
Record Oracle := mkOracle {
  now : Z;
  file_stamp : string;
  check_error : option string;
  provider : string + Transcript;
  select_error : option string;
  upload : string + string;
  update_error : option string;
  send_transport_error : option string;
  send_rate_limited : bool;
  process_message : string + Z;
  tg_send_error : option string;
  tg_delete_error : option string;
  bot_update_error : option string
}.

(** The request received by the webhook: the [X-Webhook-Secret] header, the
    query parameters, and the JSON body ([None] when [request.json()]
    raises) with its [transcript_id] and [status]. *)
Record Body := mkBody {
  transcript_id : option string;
  status : option string
}.

Record Request := mkRequest {
  x_webhook_secret : option string;
  q_t_id : option string;
  q_chat_id : option string;
  q_db_thread_id : option string;
  q_message_id : option string;
  q_temp_msg_id : option string;
  body : option Body
}.

(** The webhook's answers. *)
Inductive Response :=
| JSONResponse (status_code : Z) (error : string)
| AlreadyDelivered
| Processed (processed_at : Z)
| ReturnedNone.

(** HTTP status of a response: the dictionaries and the bare [return] are
    sent with 200. *)
Definition status_code_of (r : Response) : Z :=
  match r with
  | JSONResponse c _ => c
  | AlreadyDelivered | Processed _ | ReturnedNone => 200
  end.

(** ** Computations that call the world and may raise *)

Definition M (A : Type) : Type := World -> (A + string) * World.

Definition ret {A} (a : A) : M A := fun w => (inl a, w).

Definition raise {A} (msg : string) : M A := fun w => (inr msg, w).

Definition bind {A B} (c : M A) (k : A -> M B) : M B :=
  fun w =>
    match c w with
    | (inl a, w') => k a w'
    | (inr e, w') => (inr e, w')
    end.

(** [try: c  except Exception as e: h(e)]. *)
Definition try_except {A} (c : M A) (h : string -> M A) : M A :=
  fun w =>
    match c w with
    | (inl a, w') => (inl a, w')
    | (inr e, w') => h e w'
    end.

Notation "x <~ c ;; k" := (bind c (fun x => k))
  (at level 100, c at next level, right associativity).
Notation "c ;;; k" := (bind c (fun _ => k))
  (at level 100, right associativity).

Definition call (c : Call) : M unit :=
  fun w => (inl tt, mkWorld (stt_files w) (calls w ++ [c])).

Definition fail_if (e : option string) : M unit :=
  match e with
  | Some msg => raise msg
  | None => ret tt
  end.

Definition read_table : M (gmap string (gmap string Value)) :=
  fun w => (inl (stt_files w), w).

Definition write_table (t : gmap string (gmap string Value)) : M unit :=
  fun w => (inl tt, mkWorld t (calls w)).

(** [table("stt_files").update(update_data).eq("id", record_id).execute()]:
    the updated rows. *)
Definition table_update (record_id : string) (update_data : gmap string Value)
    : M (list (gmap string Value)) :=
  t <~ read_table ;;
  match t !! record_id with
  | Some row =>
      let row' := update_data ∪ row in
      write_table (<[record_id := row']> t) ;;;
      ret [row']
  | None => ret []
  end.

Section Handlers.

(** [int(chat_id)] of the webhook, and the conversion of a JSON string to
    an [Optional[int]] field by the bot's request validation; [None] when
    they raise. *)
Variable py_int : string -> option Z.
Variable coerce_int : string -> option Z.

Variable cfg : Config.

(** ** Persistence adapter of the backend *)

(** [SupabaseClient.check_stt_record_delivery]. *)
Definition check_stt_record_delivery (o : Oracle) (record_id : string) : M Value :=
  try_except
    (call (CheckDelivery record_id) ;;;
     fail_if (check_error o) ;;;
     t <~ read_table ;;
     match t !! record_id with
     | Some row => ret (default (VBool false) (row !! "delivered_to_user"))
     | None => ret (VBool false)
     end)
    (fun e => raise ("Failed to check STT record delivery status: " +:+ e)).

(** [SupabaseClient.update_stt_record] of the backend.  Binary data left in
    [update_data] cannot be serialised for the table. *)
Definition update_stt_record (o : Oracle) (record_id : string)
    (update_data : gmap string Value) : M (list (gmap string Value)) :=
  try_except
    (let update_data :=
       match update_data !! "status" with
       | Some (VStr s) =>
           if bool_decide (s = "completed") || bool_decide (s = "error")
           then match update_data !! "processed_at" with
                | Some _ => update_data
                | None => <["processed_at" := VStr "now()"]> update_data
                end
           else update_data
       | _ => update_data
       end in
     update_data <~
       match update_data !! "transcription_docx" with
       | Some docx_data =>
           call (SelectRecord record_id) ;;;
           fail_if (select_error o) ;;;
           t <~ read_table ;;
           match t !! record_id with
           | Some row =>
               if truthy (default VNull (row !! "chat_id"))
                  && truthy (default VNull (row !! "transcript_id"))
               then
                 match docx_data with
                 | VDocx DocxBytes | VDocx DocxBytesIO =>
                     try_except
                       (call (UploadDocx record_id) ;;;
                        match upload o with
                        | inr storage_path =>
                            ret (<["transcript_docx_path" := VStr storage_path]>
                                   (delete "transcription_docx" update_data))
                        | inl e => raise e
                        end)
                       (fun _ => ret (delete "transcription_docx" update_data))
                 | _ => ret (delete "transcription_docx" update_data)
                 end
               else ret update_data
           | None => ret update_data
           end
       | None => ret update_data
       end ;;
     call (UpdateRecord record_id update_data) ;;;
     fail_if (update_error o) ;;;
     match update_data !! "transcription_docx" with
     | Some _ => raise "Object of type bytes is not JSON serializable"
     | None => table_update record_id update_data
     end)
    (fun e => raise ("Failed to update STT record: " +:+ e)).

(** ** The delivery endpoint of the bot *)

(** [is_essentially_empty]. *)
Definition is_markdown (c : ascii) : bool :=
  bool_decide (c ∈ ["*"; "_"; "`"; "~"]%char).

Definition is_space (c : ascii) : bool :=
  let n := Ascii.nat_of_ascii c in
  bool_decide (n = 32 \/ (9 <= n /\ n <= 13) \/ (28 <= n /\ n <= 31)).

(** After a ["<"]: the rest of the text behind the tag it opens, if it opens
    one ([[^>]+>]). *)
Fixpoint tag_end (seen : bool) (l : list ascii) : option (list ascii) :=
  match l with
  | [] => None
  | c :: l' =>
      if bool_decide (c = ">"%char)
      then (if seen then Some l' else None)
      else tag_end true l'
  end.

Fixpoint remove_tags (fuel : nat) (l : list ascii) : list ascii :=
  match fuel, l with
  | S fuel', c :: l' =>
      if bool_decide (c = "<"%char) then
        match tag_end false l' with
        | Some rest => remove_tags fuel' rest
        | None => c :: remove_tags fuel' l'
        end
      else c :: remove_tags fuel' l'
  | _, _ => []
  end.

Definition is_essentially_empty (text : string) : bool :=
  if bool_decide (text = "") then true
  else
    let l := filter (fun c => is_markdown c = false) (list_ascii_of_string text) in
    let l := remove_tags (length l) l in
    forallb is_space l.

(** The bot's [update_stt_record]. *)
Definition bot_update_stt_record (o : Oracle) (record_id : string)
    (update_data : gmap string Value) : M (list (gmap string Value)) :=
  try_except
    (call (UpdateRecord record_id update_data) ;;;
     fail_if (bot_update_error o) ;;;
     table_update record_id update_data)
    (fun e => raise ("Failed to update STT record: " +:+ e)).

(** [send_message_to_user]; [true] is [{"success": True, ...}], [false]
    is [{"success": False, ...}]. *)
Definition send_message_to_user (o : Oracle) (data : SendMessage) : M bool :=
  try_except
    ((if (chat_id data =? 0)%Z then raise "chat_id is required" else ret tt) ;;;
     (if bool_decide (message data = "") then raise "message is required" else ret tt) ;;;
     let message :=
       if is_essentially_empty (message data)
       then EMPTY_MESSAGE_DEFAULT cfg else message data in
     (if str_truthy (file_url data) && str_truthy (file_type data) then
        let caption :=
          if str_truthy (caption data) then default "" (caption data) else message in
        call (TgSendFile (chat_id data) (default "" (file_url data))
                (default "" (file_type data)) caption (file_name data)
                (if int_truthy (message_id data) then message_id data else None)) ;;;
        fail_if (tg_send_error o)
      else if int_truthy (message_id data) then
        call (TgSendReply (chat_id data) message (default 0%Z (message_id data))) ;;;
        fail_if (tg_send_error o)
      else
        call (TgSendMessage (chat_id data) message) ;;;
        fail_if (tg_send_error o)) ;;;
     (if int_truthy (temp_msg_id data) then
        try_except
          (call (TgDeleteMessage (chat_id data) (default 0%Z (temp_msg_id data))) ;;;
           fail_if (tg_delete_error o))
          (fun _ => ret tt)
      else ret tt) ;;;
     (match metadata data with
      | Some md =>
          if negb (bool_decide (md = ∅)) && bool_decide (is_Some (md !! "stt_record_id"))
          then
            try_except
              (bot_update_stt_record o (default "" (md !! "stt_record_id"))
                 {[ "delivered_to_user" := VBool true ]} ;;;
               ret tt)
              (fun _ => ret tt)
          else ret tt
      | None => ret tt
      end) ;;;
     ret true)
    (fun _ => ret false).

(** The bot's validation of the posted JSON into [SendMessage]; [None] is
    a 422 answer. *)
Definition coerce_opt (o : option string) : option (option Z) :=
  match o with
  | Some s => match coerce_int s with Some z => Some (Some z) | None => None end
  | None => Some None
  end.

Definition validate (p : Payload) : option SendMessage :=
  match coerce_opt (p_message_id p), coerce_opt (p_temp_msg_id p) with
  | Some mid, Some tmid =>
      if match p_file_type p with
         | Some k => bool_decide (k ∈ ["document"; "photo"; "audio"; "video"; "voice"])
         | None => true
         end
      then Some (mkSendMessage (p_chat_id p) mid tmid (p_message p)
                   (p_file_url p) (p_file_type p) None (p_file_name p)
                   (p_metadata p))
      else None
  | _, _ => None
  end.

(** [session.post(TAGENT_LOCAL_URL + "/send_message_to_user", ...)]: the
    HTTP status of the answer.  The request carries the backend's
    [OUR_SECRET_TOKEN], checked by the bot's [verify_secret_token]; the
    endpoint itself always answers with 200. *)
Definition post_send_message_to_user (o : Oracle) (p : Payload) : M Z :=
  call (PostSendMessage p) ;;;
  fail_if (send_transport_error o) ;;;
  if negb (str_truthy (bot_secret_token cfg)) then ret 500%Z
  else if negb (bool_decide (OUR_SECRET_TOKEN cfg = bot_secret_token cfg)) then ret 401%Z
  else if send_rate_limited o then ret 429%Z
  else
    match validate p with
    | Some data => send_message_to_user o data ;;; ret 200%Z
    | None => ret 422%Z
    end.

(** [session.post(TAGENT_LOCAL_URL + "/process_message", ...)]. *)
Definition post_process_message (o : Oracle) (chat : Z) (thread : string)
    (text : string) : M Z :=
  call (PostProcessMessage chat thread text) ;;;
  match process_message o with
  | inr code => ret code
  | inl e => raise e
  end.

(** ** The webhook handler *)

Definition failure_notice (chat : Z) : Payload :=
  mkPayload chat None None None
    "Sorry, there was an error processing your audio transcription."
    None None None None.

(** The [completed] branch; [None] is the bare [return]. *)
Definition webhook_completed (o : Oracle) (req : Request) (t_id : string)
    (chat : Z) (db_thread_id : string) (transcript_id : string) : M (option unit) :=
  call (FetchTranscript transcript_id) ;;;
  result <~ match provider o with
            | inr r => ret r
            | inl e => raise e
            end ;;
  let processed_at := now o in
  let transcript_text := text result in
  let update_data : gmap string Value :=
    {[ "status" := VStr "completed";
       "transcript" := VStr transcript_text;
       "model_used" := model_used result;
       "detected_language" := detected_language result;
       "processed_at" := VInt processed_at ]} in
  let update_data :=
    match transcription_docx result with
    | Some DocxBytesIO => <["transcription_docx" := VDocx DocxBytesIO]> update_data
    | Some DocxBytes => <["transcription_docx" := VDocx DocxBytes]> update_data
    | Some DocxOther | None => update_data
    end in
  response <~ update_stt_record o t_id update_data ;;
  let docx_path :=
    match response with
    | record :: _ =>
        match record !! "transcript_docx_path" with
        | Some (VStr path) => Some path
        | _ => None
        end
    | [] => None
    end in
  let text := if str_truthy (summary result)
              then default "" (summary result) else transcript_text in
  let truncated :=
    if (String.length text <=? 1000)%nat then text
    else String.substring 0 1000 text +:+ "..." in
  let user_message :=
    if str_truthy (summary result)
    then "**" +:+ summary_title cfg +:+ "**" +:+ String (Ascii.ascii_of_nat 10) "_" +:+ truncated +:+ "_"
    else "_" +:+ truncated +:+ "_" in
  if negb (str_truthy (TAGENT_LOCAL_URL cfg)) || negb (str_truthy (OUR_SECRET_TOKEN cfg))
  then ret None
  else
    let payload :=
      mkPayload chat (Some db_thread_id) (q_message_id req) (q_temp_msg_id req)
        user_message
        (Some {[ "stt_record_id" := t_id; "stt_transcript_id" := transcript_id ]})
        None None None in
    let payload :=
      if str_truthy docx_path then
        mkPayload (p_chat_id payload) (p_db_thread_id payload)
          (p_message_id payload) (p_temp_msg_id payload) (p_message payload)
          (p_metadata payload)
          (Some (SUPABASE_URL cfg +:+ "/storage/v1/object/public/" +:+ default "" docx_path))
          (Some "document")
          (Some ("stt_" +:+ file_stamp o +:+ ".docx"))
      else payload in
    message_sent <~
      try_except
        (code <~ post_send_message_to_user o payload ;;
         ret (code =? 200)%Z)
        (fun _ => ret false) ;;
    (if message_sent : bool then
       try_except
         (post_process_message o chat db_thread_id transcript_text ;;; ret tt)
         (fun _ => ret tt)
     else ret tt) ;;;
    ret (Some tt).

(** The [error] branch. *)
Definition webhook_error (o : Oracle) (t_id : string) (chat : Z) : M unit :=
  let processed_at := now o in
  let update_data : gmap string Value :=
    {[ "status" := VStr "error";
       "error" := VStr "Transcription failed at AssemblyAI";
       "processed_at" := VInt processed_at ]} in
  update_stt_record o t_id update_data ;;;
  if negb (str_truthy (TAGENT_LOCAL_URL cfg)) || negb (str_truthy (OUR_SECRET_TOKEN cfg))
  then ret tt
  else
    try_except
      (post_send_message_to_user o (failure_notice chat) ;;; ret tt)
      (fun _ => ret tt).

(** [assemblyai_webhook] from the delivery check on, for a request whose
    identifiers were accepted. *)
Definition webhook_accepted (o : Oracle) (req : Request) (chat : Z) : M Response :=
  let t_id := default "" (q_t_id req) in
  let db_thread_id := default "" (q_db_thread_id req) in
  delivered <~ check_stt_record_delivery o t_id ;;
  if truthy delivered then ret AlreadyDelivered
  else
    payload <~ match body req with
               | Some b => ret b
               | None => raise "Expecting value"
               end ;;
    if negb (str_truthy (transcript_id payload))
       || negb (str_truthy (status payload))
    then ret (JSONResponse 400 "Bad request: Missing required fields")
    else
      let transcript_id := default "" (transcript_id payload) in
      if bool_decide (status payload = Some "completed") then
        r <~ webhook_completed o req t_id chat db_thread_id transcript_id ;;
        match r with
        | Some _ => ret (Processed (now o))
        | None => ret ReturnedNone
        end
      else if bool_decide (status payload = Some "error") then
        webhook_error o t_id chat ;;;
        ret (Processed (now o))
      else ret (Processed (now o)).

(** [assemblyai_webhook]. *)
Definition assemblyai_webhook (o : Oracle) (req : Request) : M Response :=
  try_except
    (if str_truthy (webhook_secret cfg)
        && (negb (str_truthy (x_webhook_secret req))
            || negb (bool_decide (x_webhook_secret req = webhook_secret cfg)))
     then ret (JSONResponse 401 "Unauthorized: Invalid webhook secret")
     else if negb (str_truthy (q_t_id req))
     then ret (JSONResponse 400 "Bad request: Missing t_id parameter")
     else if negb (str_truthy (q_chat_id req))
     then ret (JSONResponse 400 "Bad request: Missing chat_id parameter")
     else if negb (str_truthy (q_db_thread_id req))
     then ret (JSONResponse 400 "Bad request: Missing db_thread_id parameter")
     else
       match py_int (default "" (q_chat_id req)) with
       | None => ret (JSONResponse 400 "Bad request: Invalid chat_id format")
       | Some chat => webhook_accepted o req chat
       end)
    (fun e => ret (JSONResponse 500 ("Internal server error: " +:+ e))).

End Handlers.

(** A reading of decimal integers, for running the handler on examples. *)
Definition digit_of (c : ascii) : option Z :=
  let n := Ascii.nat_of_ascii c in
  if bool_decide (48 <= n /\ n <= 57) then Some (Z.of_nat (n - 48)) else None.

Fixpoint digits_value (acc : Z) (l : list ascii) : option Z :=
  match l with
  | [] => Some acc
  | c :: l' =>
      match digit_of c with
      | Some d => digits_value (10 * acc + d)%Z l'
      | None => None
      end
  end.

Definition decimal_int (s : string) : option Z :=
  match list_ascii_of_string s with
  | [] => None
  | "-"%char :: (_ :: _) as l => Z.opp <$> digits_value 0 (tail l)
  | l => digits_value 0 l
  end.

(** ** Notions used to state the properties of the handlers *)

(** The [delivered_to_user] column of a record, if the record and the
    column exist, and its truth value as the webhook reads it. *)
Definition delivered_to_user (w : World) (record_id : string) : option Value :=
  stt_files w !! record_id ≫= fun row => row !! "delivered_to_user".

Definition is_delivered (w : World) (record_id : string) : bool :=
  truthy (default (VBool false) (delivered_to_user w record_id)).

(** The request carries the configured secret. *)
Definition secret_matches (cfg : Config) (req : Request) : bool :=
  str_truthy (x_webhook_secret req)
  && bool_decide (x_webhook_secret req = webhook_secret cfg).

(** Record id, chat id and thread id are present, and the chat id reads as
    an integer. *)
Definition identifiers_valid (py_int : string -> option Z) (req : Request) : bool :=
  str_truthy (q_t_id req) && str_truthy (q_chat_id req)
  && str_truthy (q_db_thread_id req)
  && bool_decide (is_Some (py_int (default "" (q_chat_id req)))).

(** [extends w w']: from [w] to [w'] calls were only added.
    [keeps w w']: moreover no [delivered_to_user] column changed.
    [Rel R c]: the computation [c] takes every world to an [R]-related one. *)
Definition extends (w w' : World) : Prop :=
  exists l, calls w' = calls w ++ l.

Definition keeps (w w' : World) : Prop :=
  (forall r, delivered_to_user w' r = delivered_to_user w r) /\ extends w w'.

Definition Rel {A} (R : World -> World -> Prop) (c : M A) : Prop :=
  forall w, R w (c w).2.

(** [rows_kept w w']: every record of [stt_files] in [w] is still there in
    [w']. *)
Definition rows_kept (w w' : World) : Prop :=
  forall r, is_Some (stt_files w !! r) -> is_Some (stt_files w' !! r).


Definition cfg_secret : Config :=
  mkConfig (Some "token") (Some "http://bot:8000") (Some "token") "https://db"
    "Summary" (Some "token") "No text".

Definition quiet : Oracle :=
  mkOracle 1700000000000000 "01012025_120000" None
    (inr (mkTranscript "hello" None VNull VNull None))
    None (inr "docs/a.docx") None None false (inr 200%Z) None None None.

(** The same answers, but Telegram refuses the message. *)
Definition telegram_down : Oracle :=
  mkOracle 1700000000000000 "01012025_120000" None
    (inr (mkTranscript "hello" None VNull VNull None))
    None (inr "docs/a.docx") None None false (inr 200%Z)
    (Some "Bad Gateway") None None.

Definition request (secret : option string) (chat : option string)
    (state : string) : Request :=
  mkRequest secret (Some "rec-1") chat (Some "thread-1") None None
    (Some (mkBody (Some "tr-1") (Some state))).

Definition world (delivered : bool) : World :=
  mkWorld {[ "rec-1" := {[ "delivered_to_user" := VBool delivered;
                           "status" := VStr "processing" ]} ]} [].

End Webhook.


(* ===================================================================== *)
(** * Properties of the Category-Concurrency Task Manager                 *)
(* ===================================================================== *)

Module BackendFacts.
Import Backend.

(** ** Objects, ids and references *)

Lemma set_objects_same m : set_objects (objects m) m = m.
Proof. by destruct m. Qed.

Lemma ids_fmap m g :
  (forall t, t ∈ objects m -> task_id (g t) = task_id t) ->
  task_id <$> (g <$> objects m) = ids m.
Proof.
  intros Hg. unfold ids. rewrite <- list_fmap_compose.
  apply list_fmap_ext. intros i t Ht. apply Hg. by eapply list_elem_of_lookup_2.
Qed.

Lemma ids_set_objects m g :
  (forall t, t ∈ objects m -> task_id (g t) = task_id t) ->
  ids (set_objects (g <$> objects m) m) = ids m.
Proof. intros Hg. unfold ids at 1. simpl. by apply ids_fmap. Qed.

Lemma ids_lookup m ref id :
  ids m !! ref = Some id <->
  exists t, objects m !! ref = Some t /\ task_id t = id.
Proof.
  unfold ids. rewrite list_lookup_fmap. destruct (objects m !! ref); simpl.
  - split; [intros [= <-]; eauto | intros (? & [= <-] & <-); done].
  - split; [done | intros (? & ? & _); done].
Qed.

Lemma object_ref_unique m r1 r2 t1 t2 :
  NoDup (ids m) -> objects m !! r1 = Some t1 -> objects m !! r2 = Some t2 ->
  task_id t1 = task_id t2 -> r1 = r2.
Proof.
  intros Hnd H1 H2 Heq.
  eapply NoDup_lookup; [exact Hnd| |]; apply ids_lookup; eauto.
Qed.

(** With distinct ids, the update of one object is the update of the
    objects with its id. *)
Lemma alter_by_id (l : list Task) ref t f :
  NoDup (task_id <$> l) -> l !! ref = Some t ->
  alter f ref l = by_id (task_id t) f <$> l.
Proof.
  intros Hnd Ht. apply list_eq. intros i. rewrite list_lookup_fmap.
  destruct (decide (i = ref)) as [->|Hne].
  - rewrite list_lookup_alter_eq, Ht. simpl. unfold by_id. by rewrite decide_True.
  - rewrite list_lookup_alter_ne by done.
    destruct (l !! i) as [t'|] eqn:E; simpl; [|done].
    unfold by_id. rewrite decide_False; [done|].
    intros Heq. apply Hne.
    eapply NoDup_lookup; [exact Hnd| |]; rewrite list_lookup_fmap.
    + by rewrite E.
    + rewrite Ht. simpl. by f_equal.
Qed.

Lemma update_object_by_id m ref t f :
  NoDup (ids m) -> objects m !! ref = Some t ->
  update_object ref f m = set_objects (by_id (task_id t) f <$> objects m) m.
Proof.
  intros Hnd Ht. unfold update_object. by rewrite (alter_by_id _ ref t).
Qed.

Lemma tasks_get_Some m id ref t :
  tasks_get m id = Some (ref, t) <->
  tasks m !! id = Some ref /\ objects m !! ref = Some t.
Proof.
  unfold tasks_get. destruct (tasks m !! id) as [r|]; [|by split; [|intros []]].
  destruct (objects m !! r) as [t'|] eqn:E.
  - split; [intros [= <- <-]; done | intros [[= <-] H]; congruence].
  - split; [done | intros [[= <-] H]; congruence].
Qed.

Lemma tasks_get_wf m id :
  wf m -> is_Some (tasks m !! id) ->
  exists ref t, tasks_get m id = Some (ref, t) /\ task_id t = id.
Proof.
  intros Hwf [ref Href].
  pose proof (wf_tasks m Hwf _ _ Href) as Hid.
  apply ids_lookup in Hid as (t & Ht & Hid).
  exists ref, t. split; [|done]. by apply tasks_get_Some.
Qed.

Lemma by_id_id x f t : task_id (f t) = task_id t -> task_id (by_id x f t) = task_id t.
Proof. unfold by_id. by case_decide. Qed.

Lemma by_id_type x f t :
  task_type (f t) = task_type t -> task_type (by_id x f t) = task_type t.
Proof. unfold by_id. by case_decide. Qed.

(** ** Places in a queue *)

Lemma index_of_None x l : x ∉ l -> index_of x l = None.
Proof.
  induction l as [|y l IH]; simpl; [done|].
  rewrite not_elem_of_cons. intros [Hne Hl].
  rewrite decide_False by done. by rewrite IH.
Qed.

Lemma index_of_lookup x l k : NoDup l -> l !! k = Some x -> index_of x l = Some k.
Proof.
  revert k. induction l as [|y l IH]; intros k Hnd Hk; [done|].
  apply NoDup_cons in Hnd as [Hy Hnd]. destruct k as [|k]; simpl in *.
  - injection Hk as ->. by rewrite decide_True.
  - rewrite decide_False.
    + by rewrite (IH k).
    + intros ->. apply Hy. by eapply list_elem_of_lookup_2.
Qed.

Lemma index_of_Some x l k : index_of x l = Some k -> l !! k = Some x.
Proof.
  revert k. induction l as [|y l IH]; intros k; simpl; [done|].
  case_decide as Hxy.
  - intros [= <-]. simpl. by f_equal.
  - destruct (index_of x l) as [k'|]; simpl; [|done].
    intros [= <-]. simpl. by apply IH.
Qed.

Lemma renum_id i q t : task_id (renum i q t) = task_id t.
Proof. unfold renum. by destruct (index_of _ _). Qed.

Lemma renum_type i q t : task_type (renum i q t) = task_type t.
Proof. unfold renum. by destruct (index_of _ _). Qed.

Lemma renum_status i q t : status (renum i q t) = status t.
Proof. unfold renum. by destruct (index_of _ _). Qed.

Lemma renum_task i q t : task (renum i q t) = task t.
Proof. unfold renum. by destruct (index_of _ _). Qed.

Lemma renum_outside i q t : task_id t ∉ q -> renum i q t = t.
Proof. intros H. unfold renum. by rewrite index_of_None. Qed.

Lemma renum_position i q k t :
  NoDup q -> q !! k = Some (task_id t) ->
  queue_position (renum i q t) = Some (i + k + 1).
Proof. intros Hnd Hk. unfold renum. by rewrite (index_of_lookup _ _ k). Qed.

Lemma renum_lifecycle i q t : lifecycle t -> lifecycle (renum i q t).
Proof.
  unfold renum. destruct (index_of _ _); [|done].
  unfold lifecycle. simpl. destruct (status t); try done.
  intros (? & ? & ? & ? & ?). eauto 10.
Qed.

(** [renumber] in one step. *)
Lemma renumber_spec i q m :
  NoDup (ids m) ->
  (forall id ref, tasks m !! id = Some ref -> ids m !! ref = Some id) ->
  (forall id, id ∈ q -> is_Some (tasks m !! id)) ->
  NoDup q ->
  renumber i q m = set_objects (renum i q <$> objects m) m.
Proof.
  revert i m. induction q as [|id q IH]; intros i m Hnd Htasks Hq Hndq.
  - simpl. rewrite <- (set_objects_same m) at 1. f_equal.
    symmetry. etrans; [|apply list_fmap_id]. by apply list_fmap_ext.
  - apply NoDup_cons in Hndq as [Hid Hndq].
    destruct (Hq id) as [ref Href]; [by left|].
    pose proof (Htasks _ _ Href) as Hi. apply ids_lookup in Hi as (t & Ht & Hidt).
    cbn [renumber]. unfold tasks_get. rewrite Href, Ht.
    rewrite (update_object_by_id m ref t) by done.
    rewrite IH.
    + unfold set_objects. simpl. f_equal.
      rewrite <- list_fmap_compose. apply list_fmap_ext. intros j t' _. simpl.
      unfold by_id, renum. rewrite Hidt. case_decide as Heq; simpl.
      * subst id. rewrite Heq, index_of_None by done.
        rewrite decide_True by done. f_equal. f_equal. lia.
      * rewrite decide_False by done.
        destruct (index_of (task_id t') q); simpl; [|done].
        f_equal. f_equal. lia.
    + rewrite ids_set_objects; [done|]. intros. by apply by_id_id.
    + intros id' ref'. rewrite ids_set_objects; [apply Htasks|].
      intros. by apply by_id_id.
    + intros id' Hin. apply Hq. by right.
    + done.
Qed.

Lemma alter_twice {A} (f g : A -> A) (l : list A) i :
  alter f i (alter g i l) = alter (fun x => f (g x)) i l.
Proof.
  apply list_eq. intros j. destruct (decide (j = i)) as [->|Hne].
  - rewrite !list_lookup_alter_eq. by destruct (l !! i).
  - by rewrite !list_lookup_alter_ne.
Qed.

(** [_start_task] in one step. *)
Lemma _start_task_eq m ref t :
  objects m !! ref = Some t ->
  _start_task ref m =
    set_running (task_type t) ({[ task_id t ]} ∪ running_tasks m (task_type t))
      (update_object ref started m).
Proof.
  intros Ht. unfold _start_task. rewrite Ht.
  unfold update_object, set_running, set_objects. simpl.
  by rewrite alter_twice.
Qed.

(** Well-formedness only looks at the objects, [tasks] and the queues. *)
Lemma wf_ext m m' :
  objects m' = objects m -> tasks m' = tasks m ->
  task_queues m' = task_queues m -> wf m -> wf m'.
Proof.
  intros Ho Ht Hq [].
  split; unfold created_before, ids in *; rewrite ?Ho, ?Ht, ?Hq; done.
Qed.

Lemma ordered_sublist {A} (R : A -> A -> Prop) l k :
  l `sublist_of` k -> ordered R k -> ordered R l.
Proof. intros Hl Hk x y Hxy. apply Hk. by etrans. Qed.

Lemma ordered_mono {A} (R R' : A -> A -> Prop) l :
  (forall x y, x ∈ l -> y ∈ l -> R x y -> R' x y) -> ordered R l -> ordered R' l.
Proof.
  intros Himp Hl x y Hxy. apply Himp; [..|by apply Hl].
  - eapply elem_of_sublist; [|exact Hxy]. by left.
  - eapply elem_of_sublist; [|exact Hxy]. right. by left.
Qed.

Lemma ordered_snoc {A} (R : A -> A -> Prop) l z :
  ordered R l -> (forall x, x ∈ l -> R x z) -> ordered R (l ++ [z]).
Proof.
  intros Hl Hz x y Hxy.
  apply sublist_app_r in Hxy as (l1 & l2 & E & H1 & H2).
  apply sublist_cons_r in H2 as [H2|(l2' & -> & H2)].
  - apply sublist_nil_r in H2. subst l2. rewrite app_nil_r in E. subst l1.
    by apply Hl.
  - apply sublist_nil_r in H2. subst l2'.
    destruct l1 as [|x' [|? l1]]; simplify_eq/=.
    + apply Hz. by apply singleton_sublist_l.
    + by destruct l1.
Qed.

Lemma sublist_pair_elem {A} (x y : A) l : y ∈ l -> [x; y] `sublist_of` x :: l.
Proof.
  intros Hy. by apply sublist_skip, singleton_sublist_l.
Qed.

(** A step that changes the objects in place, takes ids from [tasks] and
    from the queues, and leaves the rest as they are. *)
Lemma wf_transform m m' g :
  wf m ->
  objects m' = g <$> objects m ->
  (forall t, t ∈ objects m -> task_id (g t) = task_id t) ->
  (forall t, t ∈ objects m -> task_type (g t) = task_type t) ->
  (forall id ref, tasks m' !! id = Some ref -> tasks m !! id = Some ref) ->
  (forall t, t ∈ objects m -> lifecycle t -> lifecycle (g t)) ->
  (forall ty, task_queues m' ty `sublist_of` task_queues m ty) ->
  (forall ty id ref t,
     id ∈ task_queues m' ty -> tasks m !! id = Some ref ->
     objects m !! ref = Some t ->
     status (g t) = QUEUED /\ tasks m' !! id = Some ref) ->
  (forall ty k id t,
     task_queues m' ty !! k = Some id -> t ∈ objects m -> task_id t = id ->
     queue_position (g t) = Some (k + 1)) ->
  (forall b B,
     objects m !! b = Some B ->
     is_Some (queue_position (g B)) -> is_Some (task (g B)) ->
     (is_Some (queue_position B) /\ is_Some (task B))
     \/ (forall a A, objects m !! a = Some A ->
                     task_id A ∈ task_queues m' (task_type B) ->
                     task_type A = task_type B -> b < a)) ->
  wf m'.
Proof.
  intros Hwf Ho Hid Hty Htasks Hlife Hsub Hqueued Hpos Hfifo.
  assert (Hids : ids m' = ids m).
  { unfold ids at 1. rewrite Ho. by apply ids_fmap. }
  split.
  - rewrite Hids. apply (wf_unique m Hwf).
  - intros id ref H. rewrite Hids. by apply (wf_tasks m Hwf), Htasks.
  - rewrite Ho. apply Forall_fmap, Forall_forall. intros t Ht. simpl.
    apply Hlife; [done|]. by eapply Forall_forall; [apply (wf_lifecycle m Hwf)|].
  - intros ty id Hin.
    destruct (wf_queue m Hwf ty id) as (ref & t & Href & Ht & Hs & Hty');
      [by eapply elem_of_sublist; [|apply Hsub]|].
    destruct (Hqueued ty id ref t Hin Href Ht) as [Hs' Href'].
    exists ref, (g t). rewrite Ho, list_lookup_fmap, Ht.
    rewrite Hty by by eapply list_elem_of_lookup_2. done.
  - intros ty. eapply sublist_NoDup; [apply (wf_nodup m Hwf) | apply Hsub].
  - intros ty k id t' Hk Ht' Hidt'. rewrite Ho in Ht'.
    apply list_elem_of_fmap in Ht' as (t & -> & Ht).
    apply (Hpos ty k id t); [done..|]. by rewrite <- Hid.
  - intros ty. eapply ordered_sublist; [apply Hsub|].
    intros x y Hxy. unfold created_before. rewrite Hids.
    by apply (wf_sorted m Hwf ty).
  - intros a A' b B' Ha Hb Hin Htyeq Hp Hta.
    rewrite Ho, list_lookup_fmap in Ha, Hb.
    destruct (objects m !! a) as [A|] eqn:EA; [|done].
    destruct (objects m !! b) as [B|] eqn:EB; [|done].
    simpl in *. injection Ha as <-. injection Hb as <-.
    assert (HA : A ∈ objects m) by by eapply list_elem_of_lookup_2.
    assert (HB : B ∈ objects m) by by eapply list_elem_of_lookup_2.
    rewrite Hid, !Hty in * by done.
    destruct (Hfifo b B EB Hp Hta) as [[Hp' Hta']|Hnew].
    + apply (wf_fifo m Hwf a A b B); try done.
      eapply elem_of_sublist; [done|apply Hsub].
    + apply (Hnew a A); try done. by rewrite Htyeq.
Qed.

(** ** Facts about well-formed managers *)

Lemma elem_of_objects m t : t ∈ objects m <-> exists ref, objects m !! ref = Some t.
Proof. apply list_elem_of_lookup. Qed.

(** The object with a given id. *)
Lemma wf_same_object m t1 t2 :
  wf m -> t1 ∈ objects m -> t2 ∈ objects m -> task_id t1 = task_id t2 -> t1 = t2.
Proof.
  intros Hwf [r1 H1]%elem_of_objects [r2 H2]%elem_of_objects Heq.
  assert (r1 = r2) as -> by (eapply object_ref_unique; eauto using wf_unique).
  congruence.
Qed.

(** The object behind an id of a wait queue. *)
Lemma wf_queued m ty id t :
  wf m -> id ∈ task_queues m ty -> t ∈ objects m -> task_id t = id ->
  status t = QUEUED /\ task_type t = ty /\ is_Some (tasks m !! id).
Proof.
  intros Hwf Hin Ht Hid.
  destruct (wf_queue m Hwf ty id Hin) as (ref & t' & Href & Ht' & Hs & Hty).
  assert (t' = t) as ->.
  { apply (wf_same_object m); [done| |done|].
    - apply elem_of_objects. eauto.
    - pose proof (wf_tasks m Hwf _ _ Href) as Hi.
      apply ids_lookup in Hi as (t'' & Ht'' & Hi). congruence. }
  eauto.
Qed.

Lemma wf_queue_type m ty ty' id :
  wf m -> id ∈ task_queues m ty -> id ∈ task_queues m ty' -> ty = ty'.
Proof.
  intros Hwf H1 H2.
  destruct (wf_queue m Hwf ty id H1) as (ref & t & Href & Ht & _ & Hty).
  destruct (wf_queue m Hwf ty' id H2) as (ref' & t' & Href' & Ht' & _ & Hty').
  congruence.
Qed.

Lemma wf_queued_get m ty id :
  wf m -> id ∈ task_queues m ty ->
  exists ref t, tasks_get m id = Some (ref, t) /\ task_id t = id
                /\ status t = QUEUED /\ task_type t = ty.
Proof.
  intros Hwf Hin.
  destruct (wf_queue m Hwf ty id Hin) as (ref & t & Href & Ht & Hs & Hty).
  exists ref, t. split; [by apply tasks_get_Some|]. split; [|done].
  pose proof (wf_tasks m Hwf _ _ Href) as Hi.
  apply ids_lookup in Hi as (t' & Ht' & Hi). congruence.
Qed.

Lemma fn_insert_lookup {A} (f : TaskType -> A) ty x ty' :
  <[ty := x]> f ty' = if decide (ty = ty') then x else f ty'.
Proof. reflexivity. Qed.

Lemma queue_set_queue ty q m ty' :
  task_queues (set_queue ty q m) ty' = if decide (ty = ty') then q else task_queues m ty'.
Proof. reflexivity. Qed.

(** ** Steps that keep a manager well-formed *)

(** An update of a task that has left the wait queue. *)
Lemma wf_runtime m m' ref t f :
  wf m -> objects m !! ref = Some t ->
  objects m' = objects (update_object ref f m) ->
  tasks m' = tasks m -> task_queues m' = task_queues m ->
  status t <> QUEUED ->
  task_id (f t) = task_id t -> task_type (f t) = task_type t ->
  queue_position (f t) = queue_position t ->
  (is_Some (task (f t)) -> is_Some (task t)) ->
  lifecycle (f t) ->
  wf m'.
Proof.
  intros Hwf Ht Ho Hta Hq Hs Hid Hty Hpos Htask Hlife.
  assert (Hsame : forall t', t' ∈ objects m -> task_id t' = task_id t -> t' = t).
  { intros t' Ht' Heq. apply (wf_same_object m); [done..| |done].
    apply elem_of_objects. eauto. }
  assert (Hin : t ∈ objects m) by (apply elem_of_objects; eauto).
  rewrite (update_object_by_id m ref t) in Ho by eauto using wf_unique.
  assert (Hg : forall t', t' ∈ objects m ->
             by_id (task_id t) f t' = t' /\ t' <> t \/ by_id (task_id t) f t' = f t /\ t' = t).
  { intros t' Ht'. unfold by_id. case_decide as E.
    - right. by rewrite (Hsame t').
    - left. split; [done|]. by intros ->. }
  apply (wf_transform m m' (by_id (task_id t) f)); try done.
  - intros t' Ht'. by destruct (Hg t' Ht') as [[-> _]|[-> ->]].
  - intros t' Ht'. by destruct (Hg t' Ht') as [[-> _]|[-> ->]].
  - intros id r. by rewrite Hta.
  - intros t' Ht' Hl. by destruct (Hg t' Ht') as [[-> _]|[-> ->]].
  - intros ty. by rewrite Hq.
  - intros ty id r t' Hid' Hr Ht'. rewrite Hq in Hid'. rewrite Hta. split; [|done].
    assert (Ht'in : t' ∈ objects m) by (apply elem_of_objects; eauto).
    pose proof (wf_tasks m Hwf _ _ Hr) as Hi.
    apply ids_lookup in Hi as (t'' & Ht'' & Hi).
    assert (t'' = t') as -> by congruence.
    destruct (wf_queued m ty id t' Hwf Hid' Ht'in Hi) as (Hs' & _).
    destruct (Hg t' Ht'in) as [[-> _]|[_ ->]]; done.
  - intros ty k id t' Hk Ht' Hid'. rewrite Hq in Hk.
    pose proof (wf_positions m Hwf ty k id t' Hk Ht' Hid') as Hp.
    destruct (Hg t' Ht') as [[-> _]|[-> ->]]; [done|]. by rewrite Hpos.
  - intros b B HB Hp Htk. left.
    assert (HBin : B ∈ objects m) by (apply elem_of_objects; eauto).
    destruct (Hg B HBin) as [[E _]|[E ->]]; rewrite E in Hp, Htk; [done|].
    rewrite Hpos in Hp. auto.
Qed.

Lemma started_lifecycle t : lifecycle t -> status t = QUEUED -> lifecycle (started t).
Proof.
  unfold lifecycle. intros H Hs. rewrite Hs in H. simpl.
  destruct H as (_ & Hr & He & _). eauto 10.
Qed.

Lemma mark_failed_lifecycle now msg t :
  lifecycle t ->
  status t = QUEUED
  \/ (exists a, task t = Some a /\ aio_state a = AioCancelled) ->
  lifecycle (mark_failed now msg t).
Proof.
  unfold lifecycle. simpl. intros H [Hs|(a & Ha & Hc)].
  - rewrite Hs in H. destruct H as (Ht & Hr & _). eauto 10.
  - assert (Hd : aio_done a = true) by (unfold aio_done; by rewrite Hc).
    destruct (status t).
    + destruct H as (Ht & _). congruence.
    + destruct H as (Hr & _). eauto 10.
    + destruct H as (Hr & _). eauto 10.
    + destruct H as (_ & _ & a' & Ha' & Hf). congruence.
    + destruct H as (Hr & _). eauto 10.
    + done.
Qed.

(** The drain path on a non-empty queue of a well-formed manager: it takes
    the head, renumbers the rest and starts the head. *)
Lemma _process_queue_for_type_spec m ty h rest :
  wf m -> task_queues m ty = h :: rest ->
  exists ref t,
    tasks_get m h = Some (ref, t) /\ task_id t = h /\ status t = QUEUED
    /\ task_type t = ty
    /\ _process_queue_for_type ty m =
         set_running ty ({[ h ]} ∪ running_tasks m ty)
           (set_objects ((fun t => by_id h started (renum 0 rest t)) <$> objects m)
              (set_queue ty rest m)).
Proof.
  intros Hwf Hq.
  assert (Hnd : NoDup (h :: rest)) by (rewrite <- Hq; apply (wf_nodup m Hwf)).
  apply NoDup_cons in Hnd as [Hh Hnd].
  destruct (wf_queued_get m ty h Hwf) as (ref & t & Hget & Hid & Hs & Hty);
    [rewrite Hq; by left|].
  exists ref, t. do 4 (split; [done|]).
  unfold _process_queue_for_type. rewrite Hq. cbv zeta.
  assert (Hget1 : tasks_get (set_queue ty rest m) h = Some (ref, t)) by done.
  rewrite Hget1. rewrite decide_True by done.
  rewrite (queue_set_queue ty rest m ty). rewrite decide_True by done.
  rewrite renumber_spec; try done.
  - apply tasks_get_Some in Hget as [Href Ht].
    rewrite (_start_task_eq _ ref (renum 0 rest t)).
    2:{ simpl. rewrite list_lookup_fmap, Ht. done. }
    rewrite renum_type, renum_id, Hty, Hid.
    rewrite (update_object_by_id _ ref (renum 0 rest t)).
    2:{ rewrite ids_set_objects; [apply (wf_unique m Hwf)|]. intros. apply renum_id. }
    2:{ simpl. by rewrite list_lookup_fmap, Ht. }
    rewrite renum_id, Hid. simpl.
    unfold set_running, set_objects, set_queue. simpl. f_equal.
    by rewrite <- list_fmap_compose.
  - apply (wf_unique m Hwf).
  - apply (wf_tasks m Hwf).
  - intros id Hin.
    destruct (wf_queue m Hwf ty id) as (r & t' & Hr & _); [rewrite Hq; by right|].
    simpl. eauto.
Qed.

(** Taking [x] out of its queue, renumbering the queue, and changing the
    task of [x] by [f]. *)
Lemma wf_dequeue m m' ty x q' t f :
  wf m -> t ∈ objects m -> task_id t = x -> x ∈ task_queues m ty ->
  q' `sublist_of` task_queues m ty -> x ∉ q' ->
  objects m' = (fun t' => by_id x f (renum 0 q' t')) <$> objects m ->
  tasks m' = tasks m ->
  task_queues m' = <[ty := q']> (task_queues m) ->
  task_id (f t) = x -> task_type (f t) = task_type t -> lifecycle (f t) ->
  (is_Some (task (f t)) -> forall y, y ∈ q' -> created_before m x y) ->
  wf m'.
Proof.
  intros Hwf Htin Hid Hx Hsub Hxq Ho Hta Hqs Hfid Hfty Hflife Hfifo.
  destruct (wf_queued m ty x t Hwf Hx Htin Hid) as (Hs & Hty & _).
  assert (Hnd : NoDup q') by (eapply sublist_NoDup; [apply (wf_nodup m Hwf ty)|done]).
  assert (Hrest : forall id, id ∈ q' -> id ∈ task_queues m ty).
  { intros id Hin. by eapply elem_of_sublist. }
  assert (Hg : forall t', t' ∈ objects m ->
             (t' = t /\ by_id x f (renum 0 q' t') = f t)
             \/ (task_id t' <> x /\ by_id x f (renum 0 q' t') = renum 0 q' t')).
  { intros t' Ht'. unfold by_id. rewrite renum_id. case_decide as E.
    - left. assert (t' = t) as ->.
      { apply (wf_same_object m); try done. congruence. }
      split; [done|]. rewrite renum_outside; [done|]. by rewrite Hid.
    - by right. }
  apply (wf_transform m m' (fun t => by_id x f (renum 0 q' t))); try done.
  - intros t' Ht'. destruct (Hg t' Ht') as [[-> ->]|[_ ->]]; [congruence|apply renum_id].
  - intros t' Ht'. destruct (Hg t' Ht') as [[-> ->]|[_ ->]]; [done|apply renum_type].
  - intros id r. by rewrite Hta.
  - intros t' Ht' Hl. destruct (Hg t' Ht') as [[-> ->]|[_ ->]];
      [done|by apply renum_lifecycle].
  - intros ty'. rewrite Hqs, fn_insert_lookup. case_decide as E; [|done].
    by subst ty'.
  - intros ty' id r t' Hin Hr Ht'. rewrite Hta. split; [|done].
    rewrite Hqs, fn_insert_lookup in Hin.
    assert (Ht'in : t' ∈ objects m) by (apply elem_of_objects; eauto).
    assert (Hidt' : task_id t' = id).
    { pose proof (wf_tasks m Hwf _ _ Hr) as Hi.
      apply ids_lookup in Hi as (t'' & Ht'' & Hi). congruence. }
    assert (Hin' : id ∈ task_queues m ty').
    { case_decide; [subst ty'; by apply Hrest|done]. }
    destruct (wf_queued m ty' id t' Hwf Hin' Ht'in Hidt') as (Hs' & Hty' & _).
    destruct (Hg t' Ht'in) as [[-> _]|[Hne ->]]; [|by rewrite renum_status].
    exfalso. case_decide as E; [|congruence].
    apply Hxq. by rewrite <- Hid, Hidt'.
  - intros ty' k id t' Hk Ht' Hidt'. rewrite Hqs, fn_insert_lookup in Hk.
    destruct (Hg t' Ht') as [[-> _]|[Hne ->]].
    + exfalso. case_decide as E.
      * apply Hxq. rewrite <- Hid, Hidt'. by eapply list_elem_of_lookup_2.
      * apply list_elem_of_lookup_2 in Hk.
        destruct (wf_queued m ty' id t Hwf Hk Htin Hidt') as (_ & Hty' & _).
        congruence.
    + case_decide as E.
      * subst ty'. rewrite (renum_position 0 q' k); [done..|by rewrite Hidt'].
      * rewrite renum_outside; [by apply (wf_positions m Hwf ty' k id)|].
        intros Hin. apply list_elem_of_lookup_2 in Hk. rewrite Hidt' in Hin.
        apply E. by eapply (wf_queue_type m); [|apply Hrest|].
  - intros b B HB Hp Htk.
    assert (HBin : B ∈ objects m) by (apply elem_of_objects; eauto).
    destruct (Hg B HBin) as [[-> E]|[Hne E]]; rewrite E in Hp, Htk.
    + right. intros a A HA Hin Htyeq.
      rewrite Hqs, fn_insert_lookup, Hty, decide_True in Hin by done.
      apply (Hfifo Htk (task_id A) Hin); apply ids_lookup; eauto.
    + left. rewrite renum_task in Htk. split; [|done].
      destruct (decide (task_id B ∈ q')) as [Hin|Hnin].
      * exfalso.
        destruct (wf_queued m ty (task_id B) B Hwf (Hrest _ Hin) HBin eq_refl)
          as (HsB & _).
        pose proof (Forall_lookup_1 _ _ _ _ (wf_lifecycle m Hwf) HB) as Hl.
        unfold lifecycle in Hl. rewrite HsB in Hl. destruct Hl as (Hn & _).
        rewrite Hn in Htk. by destruct Htk.
      * by rewrite renum_outside in Hp.
Qed.

Lemma wf_process_queue_for_type m ty : wf m -> wf (_process_queue_for_type ty m).
Proof.
  intros Hwf. destruct (task_queues m ty) as [|h rest] eqn:Hq.
  { unfold _process_queue_for_type. by rewrite Hq. }
  destruct (_process_queue_for_type_spec m ty h rest Hwf Hq)
    as (ref & t & Hget & Hid & Hs & Hty & ->).
  apply tasks_get_Some in Hget as [Href Ht].
  assert (Hnd : NoDup (h :: rest)) by (rewrite <- Hq; apply (wf_nodup m Hwf)).
  apply NoDup_cons in Hnd as [Hh Hnd].
  assert (Htin : t ∈ objects m) by (apply elem_of_objects; eauto).
  apply (wf_dequeue m _ ty h rest t started); try done.
  - rewrite Hq. by left.
  - rewrite Hq. by apply sublist_cons.
  - apply started_lifecycle; [|done].
    by eapply Forall_forall; [apply (wf_lifecycle m Hwf)|].
  - intros _ y Hy. apply (wf_sorted m Hwf ty). rewrite Hq.
    by apply sublist_pair_elem.
Qed.

(** ** Cancellation *)

Lemma list_remove_first_sublist `{EqDecision A} (x : A) l :
  list_remove_first x l `sublist_of` l.
Proof.
  induction l as [|y l IH]; simpl; [done|].
  case_decide; [by apply sublist_cons | by apply sublist_skip].
Qed.

Lemma list_remove_first_other `{EqDecision A} (x y : A) l :
  y ∈ l -> y <> x -> y ∈ list_remove_first x l.
Proof.
  intros Hy Hne. induction l as [|z l IH]; simpl; [done|].
  apply elem_of_cons in Hy as [->|Hy].
  - rewrite decide_False by done. by left.
  - case_decide; [done|]. right. by apply IH.
Qed.

Lemma list_remove_first_notin `{EqDecision A} (x : A) l :
  NoDup l -> x ∉ list_remove_first x l.
Proof.
  induction l as [|y l IH]; simpl; [by intros _ ?%elem_of_nil|].
  rewrite NoDup_cons. intros [Hy Hnd]. case_decide as E.
  - by subst.
  - rewrite not_elem_of_cons. split; [done|by apply IH].
Qed.

Lemma cancel_task_queued_spec m now tid ref t :
  wf m -> tasks_get m tid = Some (ref, t) -> status t = QUEUED ->
  tid ∈ task_queues m (task_type t) ->
  cancel_task now tid m =
    (CancelReturned true,
     set_objects
       ((fun t' => by_id tid (mark_failed now "Task was cancelled while in queue")
                     (renum 0 (list_remove_first tid (task_queues m (task_type t))) t'))
          <$> objects m)
       (set_queue (task_type t)
          (list_remove_first tid (task_queues m (task_type t))) m)).
Proof.
  intros Hwf Hget Hs Hin. unfold cancel_task. rewrite Hget.
  rewrite !decide_True by done. cbv zeta. f_equal.
  apply tasks_get_Some in Hget as [Href Ht].
  assert (Hid : task_id t = tid).
  { pose proof (wf_tasks m Hwf _ _ Href) as Hi.
    apply ids_lookup in Hi as (t'' & Ht'' & Hi). congruence. }
  set (q' := list_remove_first tid (task_queues m (task_type t))).
  rewrite (queue_set_queue (task_type t) q' m (task_type t)), decide_True by done.
  rewrite renumber_spec.
  - rewrite (update_object_by_id _ ref (renum 0 q' t)).
    + rewrite renum_id, Hid. unfold set_objects, set_queue. simpl. f_equal.
      by rewrite <- list_fmap_compose.
    + rewrite ids_set_objects; [apply (wf_unique m Hwf)|]. intros. apply renum_id.
    + simpl. by rewrite list_lookup_fmap, Ht.
  - apply (wf_unique m Hwf).
  - apply (wf_tasks m Hwf).
  - intros id Hid'.
    destruct (wf_queue m Hwf (task_type t) id) as (r & t' & Hr & _).
    + eapply elem_of_sublist; [exact Hid'|apply list_remove_first_sublist].
    + simpl. eauto.
  - eapply sublist_NoDup; [apply (wf_nodup m Hwf)|apply list_remove_first_sublist].
Qed.

Lemma wf_cancel_task m now tid : wf m -> wf (cancel_task now tid m).2.
Proof.
  intros Hwf. destruct (tasks_get m tid) as [[ref t]|] eqn:Hget.
  2:{ unfold cancel_task. by rewrite Hget. }
  pose proof Hget as Hget'. apply tasks_get_Some in Hget' as [Href Ht].
  assert (Hid : task_id t = tid).
  { pose proof (wf_tasks m Hwf _ _ Href) as Hi.
    apply ids_lookup in Hi as (t'' & Ht'' & Hi). congruence. }
  assert (Htin : t ∈ objects m) by (apply elem_of_objects; eauto).
  pose proof (Forall_lookup_1 _ _ _ _ (wf_lifecycle m Hwf) Ht) as Hl.
  destruct (decide (status t = QUEUED)) as [Hs|Hs].
  - destruct (decide (tid ∈ task_queues m (task_type t))) as [Hin|Hnin].
    + rewrite (cancel_task_queued_spec m now tid ref t) by done. simpl.
      assert (Hsub : list_remove_first tid (task_queues m (task_type t))
                       `sublist_of` task_queues m (task_type t))
        by apply list_remove_first_sublist.
      assert (Hnotin : tid ∉ list_remove_first tid (task_queues m (task_type t)))
        by apply list_remove_first_notin, (wf_nodup m Hwf).
      apply (wf_dequeue m _ (task_type t) tid _ t
               (mark_failed now "Task was cancelled while in queue")
               Hwf Htin Hid Hin Hsub Hnotin); try done.
      * apply mark_failed_lifecycle; auto.
      * simpl. unfold lifecycle in Hl. rewrite Hs in Hl.
        destruct Hl as (-> & _). by intros [].
    + unfold cancel_task. rewrite Hget. rewrite decide_True by done.
      by rewrite decide_False.
  - unfold cancel_task. rewrite Hget. rewrite decide_False by done.
    destruct (task t) as [a|] eqn:Ha; [|done].
    destruct (aio_done a) eqn:Hd; [done|]. simpl.
    eapply (wf_runtime m _ ref t (set_task (Some (request_cancel a)))); try done.
    revert Hl. unfold lifecycle. simpl. rewrite Ha.
    destruct (status t); try done.
    + intros (? & ? & a' & [= <-] & ?). eauto 10.
    + intros (? & ? & a' & [= <-] & ?). eauto 10.
    + intros (? & ? & a' & [= <-] & ?). eauto 10.
    + intros (? & ? & ? & [?|(a' & [= <-] & ?)]); [done|].
      do 3 (split; [done|]). right. eexists. split; [done|]. done.
Qed.

Lemma wf_cancel_task_resume m now tid ref b m' :
  wf m -> cancel_task_resume now tid ref m = Some (b, m') -> wf m'.
Proof.
  intros Hwf. unfold cancel_task_resume.
  destruct (objects m !! ref) as [t|] eqn:Ht; [|done].
  destruct (task t) as [a|] eqn:Ha; [|done].
  pose proof (Forall_lookup_1 _ _ _ _ (wf_lifecycle m Hwf) Ht) as Hl.
  destruct (aio_state a) eqn:Hst; try done.
  - by intros [= <- <-].
  - intros [= <- <-].
    eapply (wf_runtime m _ ref t (mark_failed now "Task was cancelled")); try done.
    + by case_decide.
    + by case_decide.
    + by case_decide.
    + intros Hs. unfold lifecycle in Hl. rewrite Hs in Hl.
      destruct Hl as (Hn & _). congruence.
    + apply mark_failed_lifecycle; eauto.
Qed.

(** ** The other steps *)

Lemma wf_process_queues m : wf m -> wf (_process_queues m).
Proof.
  unfold _process_queues. generalize TaskType_members.
  intros l. revert m. induction l as [|ty l IH]; intros m Hwf; simpl; [done|].
  apply IH. case_decide; [by apply wf_process_queue_for_type|done].
Qed.

Lemma wf_handle_task_completion m ref m' :
  wf m -> _handle_task_completion ref m = Some m' -> wf m'.
Proof.
  intros Hwf. unfold _handle_task_completion.
  destruct (objects m !! ref) as [t|]; [|done].
  case_decide; [|done]. intros [= <-].
  apply wf_process_queue_for_type. by eapply wf_ext; [..|exact Hwf].
Qed.

Lemma wf_cleanup_old_tasks now m : wf m -> wf (_cleanup_old_tasks now m).
Proof.
  intros Hwf.
  apply (wf_transform m _ id); try done.
  - simpl. by rewrite list_fmap_id.
  - intros id' ref. simpl. by intros [? _]%map_lookup_filter_Some.
  - intros ty id' ref t Hin Href Ht.
    assert (Htin : t ∈ objects m) by (apply elem_of_objects; eauto).
    assert (Hid : task_id t = id').
    { pose proof (wf_tasks m Hwf _ _ Href) as Hi.
      apply ids_lookup in Hi as (t'' & Ht'' & Hi). congruence. }
    destruct (wf_queued m ty id' t Hwf Hin Htin Hid) as (Hs & _).
    split; [done|].
    simpl. apply map_lookup_filter_Some. split; [done|]. simpl.
    unfold retained. rewrite Ht.
    pose proof (Forall_lookup_1 _ _ _ _ (wf_lifecycle m Hwf) Ht) as Hl.
    unfold lifecycle in Hl. rewrite Hs in Hl. destruct Hl as (_ & _ & _ & Hc & _).
    unfold expired. by rewrite Hc.
  - intros ty k id' t Hk Ht Hid. by apply (wf_positions m Hwf ty k id').
  - intros b B HB Hp Htk. by left.
Qed.

(** Shutdown: the tasks of one queue are failed and the queue emptied. *)
Lemma fail_queued_spec now q m :
  NoDup (ids m) ->
  (forall id ref, tasks m !! id = Some ref -> ids m !! ref = Some id) ->
  (forall id, id ∈ q -> is_Some (tasks m !! id)) ->
  fail_queued now q m =
    set_objects
      ((fun t => if decide (task_id t ∈ q)
                 then mark_failed now "Task was cancelled during shutdown" t
                 else t) <$> objects m) m.
Proof.
  revert m. induction q as [|id q IH]; intros m Hnd Htasks Hq.
  - simpl. rewrite <- (set_objects_same m) at 1. f_equal.
    by rewrite list_fmap_id.
  - destruct (Hq id) as [ref Href]; [by left|].
    pose proof (Htasks _ _ Href) as Hi. apply ids_lookup in Hi as (t & Ht & Hidt).
    assert (Hg : tasks_get m id = Some (ref, t)) by by apply tasks_get_Some.
    change (fail_queued now (id :: q) m)
      with (fail_queued now q
              match tasks_get m id with
              | Some (ref, _) =>
                  update_object ref
                    (mark_failed now "Task was cancelled during shutdown") m
              | None => m
              end).
    rewrite Hg.
    rewrite (update_object_by_id m ref t) by done.
    rewrite IH.
    + unfold set_objects. simpl. f_equal.
      rewrite <- list_fmap_compose. apply list_fmap_ext. intros j t' _. simpl.
      unfold by_id. rewrite Hidt.
      destruct (decide (task_id t' = id)) as [E|E]; simpl.
      * rewrite (decide_True (P := task_id t' ∈ id :: q)) by (rewrite E; by left).
        by case_decide.
      * destruct (decide (task_id t' ∈ q)) as [Hin|Hnin].
        -- rewrite decide_True by by right. done.
        -- rewrite decide_False; [done|].
           rewrite not_elem_of_cons. done.
    + rewrite ids_set_objects; [done|]. intros. by apply by_id_id.
    + intros id' ref'. rewrite ids_set_objects; [apply Htasks|].
      intros. by apply by_id_id.
    + intros id' Hin. apply Hq. by right.
Qed.

Lemma wf_cancel_queue now ty m :
  wf m -> wf (set_queue ty [] (fail_queued now (task_queues m ty) m)).
Proof.
  intros Hwf.
  rewrite fail_queued_spec.
  2: apply (wf_unique m Hwf).
  2: apply (wf_tasks m Hwf).
  2:{ intros id Hin. destruct (wf_queue m Hwf ty id Hin) as (r & t & Hr & _). eauto. }
  set (g := fun t => if decide (task_id t ∈ task_queues m ty) then _ else t).
  assert (Hg : forall t, t ∈ objects m ->
            (task_id t ∈ task_queues m ty /\ status t = QUEUED /\ task_type t = ty
             /\ g t = mark_failed now "Task was cancelled during shutdown" t)
            \/ ((task_id t ∉ task_queues m ty) /\ g t = t)).
  { intros t Ht. subst g. simpl. case_decide as E; [left|by right].
    destruct (wf_queued m ty (task_id t) t Hwf E Ht eq_refl) as (Hs & Hty & _).
    done. }
  apply (wf_transform m _ g); try done.
  - intros t Ht. by destruct (Hg t Ht) as [(_ & _ & _ & ->)|[_ ->]].
  - intros t Ht. by destruct (Hg t Ht) as [(_ & _ & _ & ->)|[_ ->]].
  - intros t Ht Hl. destruct (Hg t Ht) as [(_ & Hs & _ & ->)|[_ ->]]; [|done].
    apply mark_failed_lifecycle; auto.
  - intros ty'. simpl. rewrite fn_insert_lookup. case_decide; [|done].
    apply sublist_nil_l.
  - intros ty' id r t Hin Hr Ht. simpl in *. split; [|done].
    rewrite fn_insert_lookup in Hin. case_decide as E; [by apply elem_of_nil in Hin|].
    assert (Htin : t ∈ objects m) by (apply elem_of_objects; eauto).
    assert (Hid : task_id t = id).
    { pose proof (wf_tasks m Hwf _ _ Hr) as Hi.
      apply ids_lookup in Hi as (t'' & Ht'' & Hi). congruence. }
    destruct (wf_queued m ty' id t Hwf Hin Htin Hid) as (Hs & Hty' & _).
    destruct (Hg t Htin) as [(_ & _ & Hty & _)|[_ ->]]; [congruence|done].
  - intros ty' k id t Hk Ht Hid. simpl in Hk. rewrite fn_insert_lookup in Hk.
    case_decide as E; [done|].
    pose proof (list_elem_of_lookup_2 _ _ _ Hk) as Hin.
    destruct (wf_queued m ty' id t Hwf Hin Ht Hid) as (Hs & Hty' & _).
    destruct (Hg t Ht) as [(_ & _ & Hty & _)|[_ ->]]; [congruence|].
    by apply (wf_positions m Hwf ty' k id).
  - intros b B HB Hp Htk. left.
    assert (HBin : B ∈ objects m) by (apply elem_of_objects; eauto).
    destruct (Hg B HBin) as [(_ & _ & _ & E)|[_ E]]; rewrite E in Hp, Htk; done.
Qed.

Lemma wf_cancel_all_tasks_begin now m : wf m -> wf (cancel_all_tasks_begin now m).
Proof.
  unfold cancel_all_tasks_begin. generalize TaskType_members.
  intros l. revert m. induction l as [|ty l IH]; intros m Hwf; simpl; [done|].
  apply IH. by apply wf_cancel_queue.
Qed.

(** Admission. *)
Lemma ids_app m t :
  ids (set_objects (objects m ++ [t]) m) = ids m ++ [task_id t].
Proof. unfold ids. simpl. by rewrite fmap_app. Qed.

Lemma wf_alloc m tnew ref (q : TaskType -> list string) m' :
  wf m ->
  task_id tnew ∉ ids m ->
  ref = length (objects m) ->
  objects m' = objects m ++ [tnew] ->
  tasks m' = <[task_id tnew := ref]> (tasks m) ->
  lifecycle tnew ->
  (task_queues m' = task_queues m /\ status tnew <> QUEUED
   /\ queue_position tnew = None)
  \/ (task_queues m'
      = <[task_type tnew := task_queues m (task_type tnew) ++ [task_id tnew]]>
          (task_queues m)
      /\ status tnew = QUEUED /\ task tnew = None
      /\ queue_position tnew
         = Some (length (task_queues m (task_type tnew)) + 1)) ->
  wf m'.
Proof.
  intros Hwf Hfresh -> Ho Hta Hl Hcase.
  assert (Hids : ids m' = ids m ++ [task_id tnew]).
  { unfold ids. by rewrite Ho, fmap_app. }
  assert (Hlen : length (ids m) = length (objects m)).
  { unfold ids. by rewrite length_fmap. }
  assert (Hold : forall id r, ids m !! r = Some id -> ids m' !! r = Some id).
  { intros id r H. rewrite Hids. by apply lookup_app_l_Some. }
  assert (Hnotq : forall ty, task_id tnew ∉ task_queues m ty).
  { intros ty Hin. apply Hfresh.
    destruct (wf_queue m Hwf ty _ Hin) as (r & t & Hr & Ht & _).
    pose proof (wf_tasks m Hwf _ _ Hr) as Hi.
    by eapply list_elem_of_lookup_2. }
  assert (Hlook : forall r id, ids m' !! r = Some id ->
            (r < length (objects m) /\ ids m !! r = Some id)
            \/ (r = length (objects m) /\ id = task_id tnew)).
  { intros r id. rewrite Hids. intros H.
    apply lookup_app_Some in H as [H|[Hge H]].
    - left. split; [|done]. rewrite <- Hlen. by eapply lookup_lt_Some.
    - right. rewrite Hlen in *. destruct (r - length (objects m)) eqn:E; [|done].
      simpl in H. injection H as <-. split; [lia|done]. }
  assert (Hqsub : forall ty id, id ∈ task_queues m' ty ->
            id ∈ task_queues m ty \/ (id = task_id tnew /\ ty = task_type tnew
                                      /\ status tnew = QUEUED)).
  { intros ty id Hin.
    destruct Hcase as [(Hq & _)|(Hq & Hs & _)]; [rewrite Hq in Hin; by left|].
    rewrite Hq, fn_insert_lookup in Hin. case_decide as E; [|by left].
    subst ty. apply elem_of_app in Hin as [?|Hin]; [by left|].
    apply list_elem_of_singleton in Hin. by right. }
  split.
  - rewrite Hids. apply NoDup_app. split; [apply (wf_unique m Hwf)|].
    split; [|apply NoDup_singleton].
    intros x Hx ->%list_elem_of_singleton. done.
  - intros id r. rewrite Hta, Hids. intros H.
    apply lookup_insert_Some in H as [[<- <-]|[Hne H]].
    + rewrite lookup_app_r by lia. by rewrite Hlen, Nat.sub_diag.
    + apply lookup_app_l_Some. by apply (wf_tasks m Hwf).
  - rewrite Ho. apply Forall_app. split; [apply (wf_lifecycle m Hwf)|].
    by apply Forall_singleton.
  - intros ty id Hin. destruct (Hqsub ty id Hin) as [Hin'|(-> & -> & Hs)].
    + destruct (wf_queue m Hwf ty id Hin') as (r & t & Hr & Ht & Hst & Hty).
      exists r, t. rewrite Hta, Ho. split; [|split; [|done]].
      * rewrite lookup_insert_ne; [done|]. intros <-. by apply (Hnotq ty).
      * by apply lookup_app_l_Some.
    + exists (length (objects m)), tnew. rewrite Hta, Ho.
      rewrite lookup_insert_eq. split; [done|]. split; [|done].
      rewrite lookup_app_r by lia. by rewrite Nat.sub_diag.
  - intros ty. destruct Hcase as [(-> & _)|(Hq & _)]; [apply (wf_nodup m Hwf)|].
    rewrite Hq, fn_insert_lookup. case_decide as E; [|apply (wf_nodup m Hwf)].
    apply NoDup_app. split; [apply (wf_nodup m Hwf)|].
    split; [|apply NoDup_singleton].
    intros x Hx ->%list_elem_of_singleton. by apply (Hnotq (task_type tnew)).
  - intros ty k id t Hk Ht Hid. rewrite Ho in Ht.
    apply elem_of_app in Ht as [Ht|Ht%list_elem_of_singleton].
    + assert (Hne : id <> task_id tnew).
      { intros ->. apply Hfresh. rewrite <- Hid.
        apply list_elem_of_fmap. eauto. }
      apply (wf_positions m Hwf ty k id); [|done..].
      destruct Hcase as [(Hq & _)|(Hq & _)]; rewrite Hq in Hk; [done|].
      rewrite fn_insert_lookup in Hk. case_decide as E; [|done]. subst ty.
      apply lookup_app_Some in Hk as [?|[_ Hk]]; [done|].
      destruct (k - _); simpl in Hk; [congruence|done].
    + subst t. destruct Hcase as [(Hq & _)|(Hq & Hs & _ & Hp)].
      * exfalso. rewrite Hq in Hk. apply (Hnotq ty). rewrite Hid.
        by eapply list_elem_of_lookup_2.
      * rewrite Hq, fn_insert_lookup in Hk. case_decide as E.
        -- apply lookup_app_Some in Hk as [Hk|[Hge Hk]].
           ++ exfalso. apply (Hnotq (task_type tnew)). rewrite Hid.
              by eapply list_elem_of_lookup_2.
           ++ destruct (k - _) eqn:Ek; simpl in Hk; [|done].
              rewrite Hp. f_equal. lia.
        -- exfalso. apply (Hnotq ty). rewrite Hid.
           by eapply list_elem_of_lookup_2.
  - intros ty.
    assert (Hmono : ordered (created_before m') (task_queues m ty)).
    { eapply ordered_mono; [|apply (wf_sorted m Hwf ty)].
      intros x y Hx Hy HR r1 r2 H1 H2.
      destruct (Hlook _ _ H1) as [[_ H1']|[_ ->]]; [|by destruct (Hnotq ty)].
      destruct (Hlook _ _ H2) as [[_ H2']|[_ ->]]; [|by destruct (Hnotq ty)].
      by apply HR. }
    destruct Hcase as [(Hq & _)|(Hq & _)]; [by rewrite Hq|].
    rewrite Hq, fn_insert_lookup. case_decide as E; [|done]. subst ty.
    apply ordered_snoc; [done|].
    intros x Hx r1 r2 H1 H2.
    destruct (Hlook _ _ H1) as [[Hlt _]|[_ ->]];
      [|by destruct (Hnotq (task_type tnew))].
    destruct (Hlook _ _ H2) as [[_ H2']|[-> _]]; [|done].
    exfalso. apply Hfresh. by eapply list_elem_of_lookup_2.
  - intros a A b B HA HB Hin Hty Hp Htk. rewrite Ho in HA, HB.
    apply lookup_app_Some in HB as [HB|[Hge HB]].
    2:{ exfalso. destruct (b - _); simpl in HB; [|done]. injection HB as <-.
        destruct Hcase as [(_ & _ & Hn)|(_ & _ & Hn & _)].
        - rewrite Hn in Hp. by destruct Hp.
        - rewrite Hn in Htk. by destruct Htk. }
    apply lookup_app_Some in HA as [HA|[Hge HA]].
    2:{ apply lookup_lt_Some in HB. lia. }
    apply (wf_fifo m Hwf a A b B); try done.
    destruct (Hqsub _ _ Hin) as [?|(Hid & _)]; [done|].
    exfalso. apply Hfresh. rewrite <- Hid. apply list_elem_of_fmap.
    exists A. split; [done|]. by eapply list_elem_of_lookup_2.
Qed.

Lemma Task_init_started_lifecycle tid co ty now :
  lifecycle (started (Task_init tid co ty now)).
Proof. unfold lifecycle. simpl. eauto 10. Qed.

Lemma wf_add_task now uuid co ty tid m :
  wf m -> fresh_event m (EvAddTask now uuid co ty tid) ->
  wf (add_task now uuid co ty tid m).2.
Proof.
  intros Hwf Hfresh. simpl in Hfresh. unfold add_task. cbv zeta.
  set (id := task_id_or tid uuid) in *.
  set (m1 := set_tasks _ _).
  assert (Hlook : objects m1 !! length (objects m) = Some (Task_init id co ty now)).
  { subst m1. simpl. rewrite lookup_app_r by lia. by rewrite Nat.sub_diag. }
  case_decide as Hslot.
  - rewrite (_start_task_eq m1 _ _ Hlook).
    apply (wf_alloc m (started (Task_init id co ty now)) (length (objects m))
             (task_queues m)); try done.
    + simpl. rewrite alter_app_r_alt by lia. by rewrite Nat.sub_diag.
    + apply Task_init_started_lifecycle.
    + left. done.
  - apply (wf_alloc m (set_queue_position
                         (Some (length (task_queues m ty ++ [id])))
                         (Task_init id co ty now))
             (length (objects m)) (task_queues m)); try done.
    + simpl. rewrite alter_app_r_alt by lia. rewrite Nat.sub_diag. simpl.
      by rewrite fn_insert_lookup, decide_True.
    + right. simpl. do 3 (split; [done|]). by rewrite length_app.
Qed.

(** The steps of the [asyncio.Task] of a started task. *)
Lemma started_status m ref t a :
  wf m -> objects m !! ref = Some t -> task t = Some a ->
  match aio_state a with
  | AioScheduled => status t = PENDING
  | AioSuspended => status t = RUNNING
  | _ => True
  end
  /\ status t <> QUEUED.
Proof.
  intros Hwf Ht Ha.
  pose proof (Forall_lookup_1 _ _ _ _ (wf_lifecycle m Hwf) Ht) as Hl.
  unfold lifecycle in Hl. rewrite Ha in Hl.
  destruct (status t), (aio_state a) eqn:Hst; split; try done;
    try (by destruct Hl as (? & _));
    try (by destruct Hl as (_ & _ & a' & [= <-] & [?|?]); congruence);
    try (by destruct Hl as (_ & _ & a' & [= <-] & ?); congruence);
    try (by destruct Hl as (_ & _ & _ & [?|(a' & [= <-] & Hd)]);
         [done|unfold aio_done in Hd; by rewrite Hst in Hd]).
Qed.

Ltac runtime_side Ha Hs :=
  unfold set_aio_state, run_begin, run_finish; simpl; rewrite ?Ha; simpl;
  first [ done | by eauto
        | unfold lifecycle; simpl; rewrite ?Hs; by eauto 10 ].

Lemma wf_run_start now ref m m' :
  wf m -> exec (EvRunStart now ref) m = Some m' -> wf m'.
Proof.
  intros Hwf. simpl.
  destruct (objects m !! ref) as [t|] eqn:Ht; [|done].
  destruct (task t) as [a|] eqn:Ha; [|done].
  pose proof (Forall_lookup_1 _ _ _ _ (wf_lifecycle m Hwf) Ht) as Hl.
  destruct (started_status m ref t a Hwf Ht Ha) as [Hs Hnq].
  destruct (aio_state a) eqn:Hst; try done.
  unfold lifecycle in Hl. rewrite Hs in Hl. destruct Hl as (Hr & He & _).
  destruct (must_cancel a) eqn:Hmc; intros [= <-].
  - eapply (wf_runtime m _ ref t (set_aio_state AioCancelled));
      try done; runtime_side Ha Hs.
  - eapply (wf_runtime m _ ref t
              (fun t => set_aio_state AioSuspended (run_begin now t)));
      try done; runtime_side Ha Hs.
Qed.

Lemma wf_run_end now ref o m m' :
  wf m -> exec (EvRunEnd now ref o) m = Some m' -> wf m'.
Proof.
  intros Hwf. simpl.
  destruct (objects m !! ref) as [t|] eqn:Ht; [|done].
  destruct (task t) as [a|] eqn:Ha; [|done].
  pose proof (Forall_lookup_1 _ _ _ _ (wf_lifecycle m Hwf) Ht) as Hl.
  destruct (started_status m ref t a Hwf Ht Ha) as [Hs Hnq].
  destruct (aio_state a) eqn:Hst; try by destruct o.
  unfold lifecycle in Hl. rewrite Hs in Hl. destruct Hl as (Hr & He & _).
  destruct o as [v|msg|].
  - intros [= <-].
    eapply (wf_runtime m _ ref t
              (fun t => set_aio_state AioFinished (run_finish now (Returned v) t)));
      try done; runtime_side Ha Hs.
  - intros [= <-].
    eapply (wf_runtime m _ ref t
              (fun t => set_aio_state AioFinished (run_finish now (Raised msg) t)));
      try done; runtime_side Ha Hs.
  - destruct (must_cancel a); [|done]. intros [= <-].
    eapply (wf_runtime m _ ref t
              (fun t => set_aio_state AioCancelled (run_finish now Cancelled t)));
      try done; runtime_side Ha Hs.
Qed.

Lemma wf_callback_fired ref m t a :
  wf m -> objects m !! ref = Some t -> task t = Some a ->
  wf (update_object ref set_callback_fired m).
Proof.
  intros Hwf Ht Ha.
  pose proof (Forall_lookup_1 _ _ _ _ (wf_lifecycle m Hwf) Ht) as Hl.
  destruct (started_status m ref t a Hwf Ht Ha) as [_ Hnq].
  eapply (wf_runtime m _ ref t set_callback_fired); try done;
    unfold set_callback_fired; rewrite ?Ha; simpl; try done; try (by eauto).
  revert Hl. unfold lifecycle. simpl. rewrite Ha.
  destruct (status t); try done.
  - intros (? & ? & a' & [= <-] & ?). eauto 10.
  - intros (? & ? & a' & [= <-] & ?). eauto 10.
  - intros (? & ? & a' & [= <-] & ?). eauto 10.
  - intros (? & ? & ? & [?|(a' & [= <-] & ?)]); [done|].
    do 3 (split; [done|]). right. eexists. split; [done|]. done.
Qed.

Lemma wf_done ref m m' : wf m -> exec (EvDone ref) m = Some m' -> wf m'.
Proof.
  intros Hwf. simpl.
  destruct (objects m !! ref) as [t|] eqn:Ht; [|done].
  destruct (task t) as [a|] eqn:Ha; [|done].
  destruct (_ && _) eqn:Hc; [|done].
  pose proof (wf_callback_fired ref m t a Hwf Ht Ha) as Hwf1.
  destruct (_handle_task_completion ref _) as [m2|] eqn:Hh; intros [= <-];
    [|done].
  by eapply wf_handle_task_completion.
Qed.

Lemma wf_init limits retention : wf (TaskManager_init limits retention).
Proof.
  split; simpl; try done.
  - apply NoDup_nil_2.
  - intros ty id Hin. by apply elem_of_nil in Hin.
  - intros ty. apply NoDup_nil_2.
Qed.

(** Every step of the event loop that admits a new id keeps the manager
    well-formed. *)
Lemma exec_wf ev m m' : wf m -> fresh_event m ev -> exec ev m = Some m' -> wf m'.
Proof.
  intros Hwf Hfresh Hex. destruct ev.
  - injection Hex as <-. by apply wf_add_task.
  - by eapply wf_run_start.
  - by eapply wf_run_end.
  - by eapply wf_done.
  - simpl in Hex. destruct (_queue_processor_task m); [|done].
    injection Hex as <-. by apply wf_process_queues.
  - simpl in Hex. destruct (_cleanup_task m); [|done].
    injection Hex as <-. by apply wf_cleanup_old_tasks.
  - injection Hex as <-. by apply wf_cancel_task.
  - simpl in Hex. case_decide; [|done].
    destruct (cancel_task_resume now tid ref m) as [[b m1]|] eqn:Hr; [|done].
    injection Hex as <-.
    eapply wf_ext; [..|by eapply wf_cancel_task_resume]; done.
  - injection Hex as <-. by apply wf_cancel_all_tasks_begin.
Qed.

Lemma run_wf ok evs m m' :
  (forall m ev, ok m ev = true -> fresh_event m ev) ->
  wf m -> run ok evs m = Some m' -> wf m'.
Proof.
  intros Hok. revert m. induction evs as [|ev evs IH]; intros m Hwf; simpl.
  - by intros [= <-].
  - destruct (ok m ev) eqn:Hev; [|done].
    destruct (exec ev m) as [m1|] eqn:Hex; [|done].
    apply IH. eapply exec_wf; eauto.
Qed.

Lemma unique_ids_fresh m ev : unique_ids m ev = true -> fresh_event m ev.
Proof. unfold unique_ids. apply bool_decide_eq_true. Qed.

Lemma unique_ids_values_fresh m ev :
  unique_ids_values m ev = true -> fresh_event m ev.
Proof.
  unfold unique_ids_values. intros [H _]%andb_prop. by apply bool_decide_eq_true in H.
Qed.

Lemma reachable_wf limits retention m :
  reachable unique_ids limits retention m -> wf m.
Proof.
  intros [evs Hrun].
  eapply run_wf; [apply unique_ids_fresh|apply wf_init|exact Hrun].
Qed.

(** ** Properties of single objects

    A property of [Task] objects that every assignment of the manager
    keeps holds of all objects in all states: no well-formedness is
    needed for it. *)
Section Local.
Variable P : Task -> Prop.
Variable ok : Outcome -> Prop.
Hypothesis P_status : forall t, P t -> P (set_status PENDING t).
Hypothesis P_task : forall t a, P t -> P (set_task a t).
Hypothesis P_position : forall t n, P t -> P (set_queue_position (Some (n + 1)) t).
Hypothesis P_failed : forall t now msg, P t -> P (mark_failed now msg t).
Hypothesis P_begin : forall t now, P t -> P (run_begin now t).
Hypothesis P_finish : forall t now o, ok o -> P t -> P (run_finish now o t).
Hypothesis P_started : forall tid co ty now, P (started (Task_init tid co ty now)).
Hypothesis P_queued : forall tid co ty now n,
  P (set_queue_position (Some (n + 1)) (Task_init tid co ty now)).

Lemma local_update_object ref f m :
  (forall t, P t -> P (f t)) -> all_objects P m -> all_objects P (update_object ref f m).
Proof.
  intros Hf Hm. unfold all_objects, update_object. simpl.
  apply Forall_alter; [done|]. intros t _. apply Hf.
Qed.

Lemma local_start_task ref m : all_objects P m -> all_objects P (_start_task ref m).
Proof.
  intros Hm. unfold _start_task. destruct (objects m !! ref); [|done].
  apply local_update_object; [by auto|].
  change (all_objects P (update_object ref (set_status PENDING) m)).
  apply local_update_object; auto.
Qed.

Lemma local_renumber i queue m : all_objects P m -> all_objects P (renumber i queue m).
Proof.
  revert i m. induction queue as [|x queue IH]; intros i m Hm; simpl; [done|].
  apply IH. destruct (tasks_get m x) as [[ref ?]|]; [|done].
  apply local_update_object; auto.
Qed.

Lemma local_process_queue_for_type ty m :
  all_objects P m -> all_objects P (_process_queue_for_type ty m).
Proof.
  intros Hm. unfold _process_queue_for_type.
  destruct (task_queues m ty) as [|h rest]; [done|]. cbv zeta.
  destruct (tasks_get _ h) as [[ref t]|]; [|done].
  case_decide; [|done].
  apply local_start_task, local_renumber. done.
Qed.

Lemma local_process_queues m : all_objects P m -> all_objects P (_process_queues m).
Proof.
  unfold _process_queues. generalize TaskType_members.
  intros l. revert m. induction l as [|ty l IH]; intros m Hm; simpl; [done|].
  apply IH. case_decide; [by apply local_process_queue_for_type|done].
Qed.

Lemma local_add_task now uuid co ty tid m :
  all_objects P m -> all_objects P (add_task now uuid co ty tid m).2.
Proof.
  intros Hm. unfold add_task. cbv zeta.
  set (id := task_id_or tid uuid).
  set (m1 := set_tasks _ _).
  assert (Hlook : objects m1 !! length (objects m) = Some (Task_init id co ty now)).
  { subst m1. simpl. rewrite lookup_app_r by lia. by rewrite Nat.sub_diag. }
  unfold all_objects.
  case_decide as Hslot.
  - rewrite (_start_task_eq m1 _ _ Hlook). simpl.
    rewrite alter_app_r_alt by lia. rewrite Nat.sub_diag. simpl.
    apply Forall_app. split; [done|]. apply Forall_singleton, P_started.
  - simpl. rewrite alter_app_r_alt by lia. rewrite Nat.sub_diag. simpl.
    apply Forall_app. split; [done|]. apply Forall_singleton.
    rewrite fn_insert_lookup, decide_True by done. rewrite length_app. simpl.
    apply P_queued.
Qed.

Lemma local_cancel_task now tid m :
  all_objects P m -> all_objects P (cancel_task now tid m).2.
Proof.
  intros Hm. unfold cancel_task.
  destruct (tasks_get m tid) as [[ref t]|]; [|done].
  case_decide.
  - case_decide; [|done]. cbv zeta. simpl.
    apply local_update_object; [by auto|]. by apply local_renumber.
  - destruct (task t) as [a|]; [|done]. destruct (aio_done a); [done|].
    simpl. apply (local_update_object ref _ m); auto.
Qed.

Lemma local_cancel_task_resume now tid ref m b m' :
  all_objects P m -> cancel_task_resume now tid ref m = Some (b, m') ->
  all_objects P m'.
Proof.
  intros Hm. unfold cancel_task_resume.
  destruct (objects m !! ref) as [t|]; [|done].
  destruct (task t) as [a|]; [|done].
  destruct (aio_state a); try done.
  - by intros [= <- <-].
  - cbv zeta. intros [= <- <-].
    assert (all_objects P (update_object ref (mark_failed now "Task was cancelled") m))
      by (apply local_update_object; auto).
    by case_decide.
Qed.

Lemma local_fail_queued now queue m :
  all_objects P m -> all_objects P (fail_queued now queue m).
Proof.
  unfold fail_queued. revert m.
  induction queue as [|x queue IH]; intros m Hm; simpl; [done|].
  apply IH. destruct (tasks_get m x) as [[ref ?]|]; [|done].
  apply local_update_object; auto.
Qed.

Lemma local_cancel_all_tasks_begin now m :
  all_objects P m -> all_objects P (cancel_all_tasks_begin now m).
Proof.
  unfold cancel_all_tasks_begin. generalize TaskType_members.
  intros l. revert m. induction l as [|ty l IH]; intros m Hm; simpl; [done|].
  apply IH. by apply (local_fail_queued now (task_queues m ty) m).
Qed.

Lemma P_aio_state s t : P t -> P (set_aio_state s t).
Proof. intros Ht. unfold set_aio_state. destruct (task t); auto. Qed.

Lemma P_callback_fired t : P t -> P (set_callback_fired t).
Proof. intros Ht. unfold set_callback_fired. destruct (task t); auto. Qed.

Lemma exec_local ev m m' :
  all_objects P m -> ok_event ok ev -> exec ev m = Some m' -> all_objects P m'.
Proof.
  intros Hm Hok Hex. destruct ev; simpl in Hex.
  - injection Hex as <-. by apply local_add_task.
  - destruct (objects m !! ref) as [t|]; [|done].
    destruct (task t) as [a|]; [|done].
    destruct (aio_state a); try done.
    destruct (must_cancel a); injection Hex as <-;
      apply local_update_object; auto using P_aio_state.
  - destruct (objects m !! ref) as [t|]; [|done].
    destruct (task t) as [a|]; [|done].
    destruct (aio_state a); try by destruct o.
    destruct o; [..|destruct (must_cancel a); [|done]]; injection Hex as <-;
      apply local_update_object; auto using P_aio_state.
  - destruct (objects m !! ref) as [t|]; [|done].
    destruct (task t) as [a|]; [|done].
    destruct (_ && _); [|done].
    assert (H1 : all_objects P (update_object ref set_callback_fired m))
      by (apply local_update_object; auto using P_callback_fired).
    unfold _handle_task_completion in Hex.
    destruct (objects (update_object ref set_callback_fired m) !! ref) as [t1|];
      [|by injection Hex as <-].
    case_decide; injection Hex as <-; [|done].
    by apply local_process_queue_for_type.
  - destruct (_queue_processor_task m); [|done]. injection Hex as <-.
    by apply local_process_queues.
  - destruct (_cleanup_task m); [|done]. by injection Hex as <-.
  - injection Hex as <-. by apply local_cancel_task.
  - case_decide; [|done].
    destruct (cancel_task_resume now tid ref m) as [[b m1]|] eqn:Hr; [|done].
    injection Hex as <-.
    change (all_objects P m1). by eapply local_cancel_task_resume.
  - injection Hex as <-. by apply local_cancel_all_tasks_begin.
Qed.

Lemma run_local step evs m m' :
  (forall m ev, step m ev = true -> ok_event ok ev) ->
  all_objects P m -> run step evs m = Some m' -> all_objects P m'.
Proof.
  intros Hstep. revert m. induction evs as [|ev evs IH]; intros m Hm; simpl.
  - by intros [= <-].
  - destruct (step m ev) eqn:Hev; [|done].
    destruct (exec ev m) as [m1|] eqn:Hex; [|done].
    apply IH. eapply exec_local; eauto.
Qed.
End Local.

(** ** The accounting of the slots *)

Lemma is_active_spec t :
  is_active t = true <-> status t = PENDING \/ status t = RUNNING.
Proof. unfold is_active. apply bool_decide_eq_true. Qed.

Lemma update_object_lookup ref f m r t' :
  objects (update_object ref f m) !! r = Some t' ->
  (r = ref /\ exists t, objects m !! ref = Some t /\ t' = f t)
  \/ (r <> ref /\ objects m !! r = Some t').
Proof.
  simpl. destruct (decide (r = ref)) as [->|Hne].
  - rewrite list_lookup_alter_eq. intros H. left. split; [done|].
    destruct (objects m !! ref) as [t|]; simplify_eq/=. eauto.
  - rewrite list_lookup_alter_ne by done. auto.
Qed.

Lemma ids_update_object ref f m t :
  objects m !! ref = Some t -> task_id (f t) = task_id t ->
  ids (update_object ref f m) = ids m.
Proof.
  intros Ht Hid. unfold ids, update_object. simpl.
  apply list_eq. intros i. rewrite !list_lookup_fmap.
  destruct (decide (i = ref)) as [->|Hne].
  - rewrite list_lookup_alter_eq, Ht. simpl. by rewrite Hid.
  - by rewrite list_lookup_alter_ne.
Qed.

Lemma size_add_le (x : string) (X : gset string) : size ({[ x ]} ∪ X) <= S (size X).
Proof.
  destruct (decide (x ∈ X)) as [Hin|Hnin].
  - assert ({[ x ]} ∪ X = X) as ->; [|lia].
    apply subseteq_union_1_L. by apply singleton_subseteq_l.
  - rewrite size_union by by apply disjoint_singleton_l.
    rewrite size_singleton. lia.
Qed.

Lemma size_remove (x : string) (X : gset string) :
  x ∈ X -> size X = S (size (X ∖ {[ x ]})).
Proof.
  intros Hin. rewrite size_difference by by apply singleton_subseteq_l.
  rewrite size_singleton.
  assert (size X <> 0); [|lia].
  intros H0. apply size_empty_inv, leibniz_equiv in H0. subst X.
  by apply not_elem_of_empty in Hin.
Qed.

(** A step of one object that keeps it where it is in the accounting. *)
Lemma acc_runtime limits m m' ref t f :
  accounted limits m -> objects m !! ref = Some t ->
  objects m' = objects (update_object ref f m) ->
  running_tasks m' = running_tasks m ->
  concurrency_limits m' = concurrency_limits m ->
  (forall w, w ∈ cancel_waiters m -> w ∈ cancel_waiters m') ->
  (forall tid r, (tid, r) ∈ cancel_waiters m' ->
     (tid, r) ∈ cancel_waiters m \/ ids m !! r = Some tid) ->
  task_id (f t) = task_id t -> task_type (f t) = task_type t ->
  (is_active (f t) = true -> is_active t = true) ->
  (forall a', is_active (f t) = true -> task (f t) = Some a' ->
     must_cancel a' = true \/ aio_state a' = AioCancelled ->
     exists tid, (tid, ref) ∈ cancel_waiters m') ->
  accounted limits m'.
Proof.
  intros Hacc Ht Ho Hrun Hlim Hw1 Hw2 Hid Hty Hact Hc.
  assert (Hids : ids m' = ids m).
  { unfold ids at 1. rewrite Ho. by apply (ids_update_object ref f m t). }
  split.
  - rewrite Hlim. apply (acc_limits _ _ Hacc).
  - intros tid r Hin. rewrite Hids.
    destruct (Hw2 tid r Hin) as [H|H]; [by apply (acc_waiters _ _ Hacc)|done].
  - intros r t' a Hr Ha' Hta Hm. rewrite Ho in Hr.
    apply update_object_lookup in Hr as [(-> & t0 & Ht0 & ->)|(Hne & Hr)].
    + assert (t0 = t) as -> by congruence. by eapply Hc.
    + destruct (acc_cancelled _ _ Hacc r t' a Hr Ha' Hta Hm) as [tid Hin].
      exists tid. by apply Hw1.
  - intros r t' Hr Ha'. rewrite Ho in Hr. rewrite Hrun.
    apply update_object_lookup in Hr as [(-> & t0 & Ht0 & ->)|(Hne & Hr)].
    + assert (t0 = t) as -> by congruence. rewrite Hid, Hty.
      apply (acc_active _ _ Hacc ref t Ht). by apply Hact.
    + by apply (acc_active _ _ Hacc r t' Hr).
  - intros ty. rewrite Hrun. apply (acc_bound _ _ Hacc).
Qed.

(** A step after which the object [ref] holds no slot: its id may leave
    the running set, and the coroutines waiting for it may go on. *)
Lemma acc_settle limits m m' ref t f :
  wf m -> accounted limits m -> objects m !! ref = Some t ->
  objects m' = objects (update_object ref f m) ->
  concurrency_limits m' = concurrency_limits m ->
  task_id (f t) = task_id t ->
  is_active (f t) = false ->
  (forall ty, running_tasks m' ty ⊆ running_tasks m ty) ->
  (forall ty x, x ∈ running_tasks m ty -> x <> task_id t ->
     x ∈ running_tasks m' ty) ->
  (forall w, w ∈ cancel_waiters m' -> w ∈ cancel_waiters m) ->
  (forall w, w ∈ cancel_waiters m -> w.2 <> ref -> w ∈ cancel_waiters m') ->
  accounted limits m'.
Proof.
  intros Hwf Hacc Ht Ho Hlim Hid Hina Hsub Hkeep Hw1 Hw2.
  assert (Hids : ids m' = ids m).
  { unfold ids at 1. rewrite Ho. by apply (ids_update_object ref f m t). }
  split.
  - rewrite Hlim. apply (acc_limits _ _ Hacc).
  - intros tid r Hin. rewrite Hids. by apply (acc_waiters _ _ Hacc), Hw1.
  - intros r t' a Hr Ha' Hta Hm. rewrite Ho in Hr.
    apply update_object_lookup in Hr as [(-> & t0 & Ht0 & ->)|(Hne & Hr)].
    + assert (t0 = t) as -> by congruence. congruence.
    + destruct (acc_cancelled _ _ Hacc r t' a Hr Ha' Hta Hm) as [tid Hin].
      exists tid. by apply (Hw2 (tid, r)).
  - intros r t' Hr Ha'. rewrite Ho in Hr.
    apply update_object_lookup in Hr as [(-> & t0 & Ht0 & ->)|(Hne & Hr)].
    + assert (t0 = t) as -> by congruence. congruence.
    + apply Hkeep; [by apply (acc_active _ _ Hacc r t' Hr)|].
      intros Heq. apply Hne.
      eapply (NoDup_lookup (ids m)); [apply (wf_unique m Hwf)|..].
      * apply ids_lookup. eauto.
      * apply ids_lookup. eauto.
  - intros ty. pose proof (acc_bound _ _ Hacc ty) as Hb.
    pose proof (subseteq_size _ _ (Hsub ty)). lia.
Qed.

(** A step on the queues: every object keeps its slot or, entering the
    running set, gets a new [asyncio.Task]. *)
Lemma acc_map limits m m' g :
  accounted limits m -> objects m' = g <$> objects m ->
  cancel_waiters m' = cancel_waiters m ->
  concurrency_limits m' = concurrency_limits m ->
  (forall t, t ∈ objects m -> task_id (g t) = task_id t) ->
  (forall t, t ∈ objects m -> task_type (g t) = task_type t) ->
  (forall t, t ∈ objects m -> is_active (g t) = true ->
     (is_active t = true /\ task (g t) = task t)
     \/ (task_id t ∈ running_tasks m' (task_type t)
         /\ task (g t) = Some (mkAio AioScheduled false false))) ->
  (forall ty, running_tasks m ty ⊆ running_tasks m' ty) ->
  (forall ty, (Z.of_nat (size (running_tasks m' ty)) <= Z.max 0 (limits ty))%Z) ->
  accounted limits m'.
Proof.
  intros Hacc Ho Hw Hlim Hid Hty Hg Hsub Hb.
  assert (Hids : ids m' = ids m).
  { unfold ids at 1. rewrite Ho. by apply ids_fmap. }
  split; [|rewrite Hw, Hids; apply (acc_waiters _ _ Hacc)| | |done].
  - rewrite Hlim. apply (acc_limits _ _ Hacc).
  - intros r t' a Hr Ha' Hta Hm. rewrite Ho, list_lookup_fmap in Hr.
    destruct (objects m !! r) as [t|] eqn:Ht; simplify_eq/=.
    assert (Hin : t ∈ objects m) by by eapply list_elem_of_lookup_2.
    rewrite Hw.
    destruct (Hg t Hin Ha') as [[Hat Htk]|[_ Htk]]; rewrite Htk in Hta.
    + by apply (acc_cancelled _ _ Hacc r t a).
    + injection Hta as <-. simpl in Hm. by destruct Hm.
  - intros r t' Hr Ha'. rewrite Ho, list_lookup_fmap in Hr.
    destruct (objects m !! r) as [t|] eqn:Ht; simplify_eq/=.
    assert (Hin : t ∈ objects m) by by eapply list_elem_of_lookup_2.
    rewrite Hid, Hty by done.
    destruct (Hg t Hin Ha') as [[Hat _]|[Hr _]]; [|done].
    apply Hsub. by apply (acc_active _ _ Hacc r t).
Qed.

Lemma acc_ext limits m m' :
  objects m' = objects m -> running_tasks m' = running_tasks m ->
  cancel_waiters m' = cancel_waiters m ->
  concurrency_limits m' = concurrency_limits m ->
  accounted limits m -> accounted limits m'.
Proof.
  intros Ho Hr Hw Hl [H1 H2 H3 H4 H5].
  split; unfold ids; rewrite ?Ho, ?Hr, ?Hw, ?Hl; done.
Qed.

Lemma acc_init limits retention : accounted limits (TaskManager_init limits retention).
Proof.
  split; try done.
  - intros tid ref Hin. by apply elem_of_nil in Hin.
  - intros ty. change (running_tasks _ ty) with (∅ : gset string).
    rewrite size_empty. lia.
Qed.

(** The drain step enters one id into the running set. *)
Lemma acc_process_queue_for_type limits m ty :
  wf m -> accounted limits m ->
  (task_queues m ty <> [] ->
   (Z.of_nat (size (running_tasks m ty)) < Z.max 0 (limits ty))%Z) ->
  accounted limits (_process_queue_for_type ty m).
Proof.
  intros Hwf Hacc Hfree.
  destruct (task_queues m ty) as [|h rest] eqn:Hq.
  { unfold _process_queue_for_type. by rewrite Hq. }
  destruct (_process_queue_for_type_spec m ty h rest Hwf Hq)
    as (ref & t & Hget & Hid & Hs & Hty & ->).
  apply tasks_get_Some in Hget as [Href Ht].
  assert (Htin : t ∈ objects m) by by eapply list_elem_of_lookup_2.
  apply (acc_map limits m _ (fun t => by_id h started (renum 0 rest t)));
    try done.
  - intros t' _. rewrite by_id_id; [apply renum_id|done].
  - intros t' _. rewrite by_id_type; [apply renum_type|done].
  - intros t' Hin Hact. unfold by_id in *. rewrite renum_id in *.
    case_decide as E.
    + right. assert (t' = t) as -> by (apply (wf_same_object m); congruence).
      split; [|done]. simpl. rewrite fn_insert_lookup, decide_True by done.
      apply elem_of_union_l, elem_of_singleton. done.
    + left. split; [|apply renum_task].
      apply is_active_spec. apply is_active_spec in Hact.
      by rewrite renum_status in Hact.
  - intros ty'. simpl. rewrite fn_insert_lookup. case_decide; [subst|done].
    apply union_subseteq_r.
  - intros ty'. simpl. rewrite fn_insert_lookup. case_decide as E.
    + subst ty'. pose proof (size_add_le h (running_tasks m ty)).
      assert (Hnil : h :: rest <> []) by done. specialize (Hfree Hnil). lia.
    + apply (acc_bound _ _ Hacc).
Qed.

Lemma acc_process_queues limits m :
  wf m -> accounted limits m -> accounted limits (_process_queues m).
Proof.
  unfold _process_queues. generalize TaskType_members.
  intros l. revert m. induction l as [|ty l IH]; intros m Hwf Hacc; simpl; [done|].
  case_decide as Hslot; [|by apply IH].
  apply IH; [by apply wf_process_queue_for_type|].
  apply acc_process_queue_for_type; [done..|].
  intros _. rewrite (acc_limits _ _ Hacc) in Hslot. lia.
Qed.

(** The done-callback: [_handle_task_completion] frees the slot of a task
    that is over, and the drain step takes it. *)
Lemma acc_handle_task_completion limits m ref t m' :
  wf m -> accounted limits m -> objects m !! ref = Some t ->
  is_active t = false ->
  _handle_task_completion ref m = Some m' -> accounted limits m'.
Proof.
  intros Hwf Hacc Ht Hina. unfold _handle_task_completion. rewrite Ht.
  case_decide as Hin; [|done]. intros [= <-].
  set (m1 := set_running _ _ m).
  assert (Hwf1 : wf m1) by (by eapply wf_ext; [..|exact Hwf]).
  assert (Hacc1 : accounted limits m1).
  { apply (acc_settle limits m m1 ref t id); try done.
    - simpl. by rewrite list_alter_id.
    - intros ty. simpl. rewrite fn_insert_lookup. case_decide; [subst|done].
      apply subseteq_difference_l. done.
    - intros ty x Hx Hne. simpl. rewrite fn_insert_lookup.
      case_decide; [subst|done]. apply elem_of_difference. split; [done|].
      by rewrite elem_of_singleton. }
  apply acc_process_queue_for_type; [done..|]. intros _.
  pose proof (acc_bound _ _ Hacc (task_type t)) as Hb.
  pose proof (size_remove _ _ Hin) as Hsz.
  subst m1. simpl. rewrite fn_insert_lookup, decide_True by done. lia.
Qed.

(** Admission. *)
Lemma acc_alloc limits m m' tnew :
  accounted limits m ->
  objects m' = objects m ++ [tnew] ->
  cancel_waiters m' = cancel_waiters m ->
  concurrency_limits m' = concurrency_limits m ->
  (forall ty, running_tasks m ty ⊆ running_tasks m' ty) ->
  (forall ty, (Z.of_nat (size (running_tasks m' ty)) <= Z.max 0 (limits ty))%Z) ->
  (is_active tnew = true ->
   task_id tnew ∈ running_tasks m' (task_type tnew)
   /\ task tnew = Some (mkAio AioScheduled false false)) ->
  accounted limits m'.
Proof.
  intros Hacc Ho Hw Hlim Hsub Hb Hnew.
  assert (Hids : ids m' = ids m ++ [task_id tnew]).
  { unfold ids. by rewrite Ho, fmap_app. }
  split; [| | | |done].
  - rewrite Hlim. apply (acc_limits _ _ Hacc).
  - intros tid r Hin. rewrite Hids. apply lookup_app_l_Some.
    apply (acc_waiters _ _ Hacc). by rewrite <- Hw.
  - intros r t' a Hr Ha' Hta Hm. rewrite Ho in Hr. rewrite Hw.
    apply lookup_app_Some in Hr as [Hr|[_ Hr]].
    + by apply (acc_cancelled _ _ Hacc r t' a).
    + destruct (r - _); simpl in Hr; [|done]. injection Hr as <-.
      destruct (Hnew Ha') as [_ Htk]. rewrite Htk in Hta. injection Hta as <-.
      simpl in Hm. by destruct Hm.
  - intros r t' Hr Ha'. rewrite Ho in Hr.
    apply lookup_app_Some in Hr as [Hr|[_ Hr]].
    + apply Hsub. by apply (acc_active _ _ Hacc r t').
    + destruct (r - _); simpl in Hr; [|done]. injection Hr as <-.
      by destruct (Hnew Ha').
Qed.

Lemma acc_add_task limits now uuid co ty tid m :
  accounted limits m -> accounted limits (add_task now uuid co ty tid m).2.
Proof.
  intros Hacc. unfold add_task. cbv zeta.
  set (id := task_id_or tid uuid).
  set (m1 := set_tasks _ _).
  assert (Hlook : objects m1 !! length (objects m) = Some (Task_init id co ty now)).
  { subst m1. simpl. rewrite lookup_app_r by lia. by rewrite Nat.sub_diag. }
  case_decide as Hslot.
  - rewrite (_start_task_eq m1 _ _ Hlook).
    apply (acc_alloc limits m _ (started (Task_init id co ty now))); try done.
    + simpl. rewrite alter_app_r_alt by lia. by rewrite Nat.sub_diag.
    + intros ty'. simpl. rewrite fn_insert_lookup. case_decide; [subst|done].
      apply union_subseteq_r.
    + intros ty'. simpl. rewrite fn_insert_lookup. case_decide as E.
      * subst ty'. pose proof (size_add_le id (running_tasks m ty)).
        simpl in Hslot. rewrite (acc_limits _ _ Hacc) in Hslot. lia.
      * apply (acc_bound _ _ Hacc).
    + intros _. simpl. split; [|done].
      rewrite fn_insert_lookup, decide_True by done.
      apply elem_of_union_l, elem_of_singleton. done.
  - apply (acc_alloc limits m _
             (set_queue_position (Some (length (task_queues m ty ++ [id])))
                (Task_init id co ty now))); try done.
    + simpl. rewrite alter_app_r_alt by lia. rewrite Nat.sub_diag. simpl.
      by rewrite fn_insert_lookup, decide_True.
    + apply (acc_bound _ _ Hacc).
Qed.

Lemma is_active_false t :
  status t <> PENDING -> status t <> RUNNING -> is_active t = false.
Proof.
  intros H1 H2. unfold is_active. apply bool_decide_eq_false. by intros [?|?].
Qed.

Lemma is_active_status t t' : status t' = status t -> is_active t' = is_active t.
Proof. unfold is_active. by intros ->. Qed.

(** A task whose [asyncio.Task] has finished holds no slot. *)
Lemma finished_inactive m ref t a :
  wf m -> objects m !! ref = Some t -> task t = Some a ->
  aio_state a = AioFinished -> is_active t = false.
Proof.
  intros Hwf Ht Ha Hst.
  pose proof (Forall_lookup_1 _ _ _ _ (wf_lifecycle m Hwf) Ht) as Hl.
  unfold lifecycle in Hl. rewrite Ha in Hl.
  apply is_active_false; intros Hs; rewrite Hs in Hl;
    destruct Hl as (_ & _ & a' & [= <-] & [?|?]); congruence.
Qed.

(** A task whose [asyncio.Task] is over, and for which no [cancel_task] is
    waiting, holds no slot. *)
Lemma done_inactive limits m ref t a :
  wf m -> accounted limits m -> objects m !! ref = Some t -> task t = Some a ->
  aio_done a = true ->
  Forall (fun w : string * nat => w.2 <> ref) (cancel_waiters m) ->
  is_active t = false.
Proof.
  intros Hwf Hacc Ht Ha Hd Hw.
  destruct (is_active t) eqn:Hact; [exfalso|done].
  unfold aio_done in Hd. destruct (aio_state a) eqn:Hst; try done.
  - by rewrite (finished_inactive m ref t a) in Hact.
  - destruct (acc_cancelled _ _ Hacc ref t a Ht Hact Ha) as [tid Hin]; [by right|].
    rewrite Forall_forall in Hw. by apply (Hw _ Hin).
Qed.

Lemma acc_run_start limits now ref m m' :
  wf m -> accounted limits m -> exec (EvRunStart now ref) m = Some m' ->
  accounted limits m'.
Proof.
  intros Hwf Hacc. simpl.
  destruct (objects m !! ref) as [t|] eqn:Ht; [|done].
  destruct (task t) as [a|] eqn:Ha; [|done].
  destruct (started_status m ref t a Hwf Ht Ha) as [Hs _].
  destruct (aio_state a) eqn:Hst; try done.
  assert (Hact : is_active t = true) by (apply is_active_spec; by left).
  destruct (must_cancel a) eqn:Hmc; intros [= <-].
  - apply (acc_runtime limits m _ ref t (set_aio_state AioCancelled)); try done;
      unfold set_aio_state; rewrite ?Ha; simpl; try done; auto.
    intros a' _ _ _. apply (acc_cancelled _ _ Hacc ref t a); auto.
  - apply (acc_runtime limits m _ ref t
             (fun t => set_aio_state AioSuspended (run_begin now t))); try done;
      unfold set_aio_state, run_begin; simpl; rewrite ?Ha; simpl; try done; auto.
    simpl. intros a' _ [= <-]. simpl. rewrite Hmc. by intros [?|?].
Qed.

Lemma acc_run_end limits now ref o m m' :
  wf m -> accounted limits m -> exec (EvRunEnd now ref o) m = Some m' ->
  accounted limits m'.
Proof.
  intros Hwf Hacc. simpl.
  destruct (objects m !! ref) as [t|] eqn:Ht; [|done].
  destruct (task t) as [a|] eqn:Ha; [|done].
  destruct (started_status m ref t a Hwf Ht Ha) as [Hs _].
  destruct (aio_state a) eqn:Hst; try by destruct o.
  assert (Hact : is_active t = true) by (apply is_active_spec; by right).
  destruct o as [v|msg|].
  - intros [= <-].
    apply (acc_runtime limits m _ ref t
             (fun t => set_aio_state AioFinished (run_finish now (Returned v) t)));
      try done; unfold set_aio_state, run_finish; simpl; rewrite ?Ha; simpl; try done; auto.
  - intros [= <-].
    apply (acc_runtime limits m _ ref t
             (fun t => set_aio_state AioFinished (run_finish now (Raised msg) t)));
      try done; unfold set_aio_state, run_finish; simpl; rewrite ?Ha; simpl; try done; auto.
  - destruct (must_cancel a) eqn:Hmc; [|done]. intros [= <-].
    apply (acc_runtime limits m _ ref t
             (fun t => set_aio_state AioCancelled (run_finish now Cancelled t)));
      try done; unfold set_aio_state, run_finish; simpl; rewrite ?Ha; simpl; try done; auto.
    intros a' _ _ _. apply (acc_cancelled _ _ Hacc ref t a); auto.
Qed.

Lemma acc_done limits ref m m' :
  wf m -> accounted limits m -> exec (EvDone ref) m = Some m' ->
  accounted limits m'.
Proof.
  intros Hwf Hacc. simpl.
  destruct (objects m !! ref) as [t|] eqn:Ht; [|done].
  destruct (task t) as [a|] eqn:Ha; [|done].
  destruct (_ && _) eqn:Hc; [|done].
  apply andb_prop in Hc as [[Hd Hcb]%andb_prop Hw].
  apply bool_decide_eq_true in Hw.
  pose proof (wf_callback_fired ref m t a Hwf Ht Ha) as Hwf1.
  pose proof (done_inactive limits m ref t a Hwf Hacc Ht Ha Hd Hw) as Hina.
  assert (Hacc1 : accounted limits (update_object ref set_callback_fired m)).
  { apply (acc_runtime limits m _ ref t set_callback_fired); try done;
      unfold set_callback_fired; rewrite ?Ha; simpl; try done; auto.
    intros a' Hact. change (is_active t = true) in Hact. congruence. }
  destruct (_handle_task_completion ref _) as [m2|] eqn:Hh; intros [= <-];
    [|done].
  eapply (acc_handle_task_completion limits _ ref (set_callback_fired t));
    [done|done| | |exact Hh].
  - simpl. by rewrite list_lookup_alter_eq, Ht.
  - rewrite <- Hina. apply is_active_status.
    unfold set_callback_fired. by rewrite Ha.
Qed.

Lemma acc_cancel_task limits now tid m :
  wf m -> accounted limits m -> accounted limits (cancel_task now tid m).2.
Proof.
  intros Hwf Hacc. destruct (tasks_get m tid) as [[ref t]|] eqn:Hget.
  2:{ unfold cancel_task. by rewrite Hget. }
  pose proof Hget as Hget'. apply tasks_get_Some in Hget' as [Href Ht].
  destruct (decide (status t = QUEUED)) as [Hs|Hs].
  - destruct (decide (tid ∈ task_queues m (task_type t))) as [Hin|Hnin].
    2:{ unfold cancel_task. rewrite Hget. by rewrite decide_True, decide_False. }
    rewrite (cancel_task_queued_spec m now tid ref t) by done. simpl.
    eapply (acc_map limits m _ _ Hacc); try done; cbv beta.
    + intros t' _. rewrite by_id_id; [apply renum_id|done].
    + intros t' _. rewrite by_id_type; [apply renum_type|done].
    + intros t' _ Hact. unfold by_id in *. case_decide; [done|].
      left. split; [|apply renum_task].
      rewrite <- Hact. symmetry. apply is_active_status, renum_status.
    + apply (acc_bound _ _ Hacc).
  - unfold cancel_task. rewrite Hget, decide_False by done.
    destruct (task t) as [a|] eqn:Ha; [|done].
    destruct (aio_done a) eqn:Hd; [done|]. simpl.
    apply (acc_runtime limits m _ ref t (set_task (Some (request_cancel a))));
      try done.
    + intros w Hw. simpl. apply elem_of_app. by left.
    + simpl. intros tid' r [Hw|Hw%list_elem_of_singleton]%elem_of_app;
        [by left|right].
      injection Hw as -> ->. by apply (wf_tasks m Hwf).
    + intros a' _ _ _. exists tid. simpl. apply elem_of_app. right.
      by apply list_elem_of_singleton.
Qed.

Lemma acc_cancel_task_resume limits now tid ref m b m1 :
  wf m -> accounted limits m -> (tid, ref) ∈ cancel_waiters m ->
  cancel_task_resume now tid ref m = Some (b, m1) ->
  accounted limits
    (set_cancel_waiters (list_remove_first (tid, ref) (cancel_waiters m1)) m1).
Proof.
  intros Hwf Hacc Hin. unfold cancel_task_resume.
  destruct (objects m !! ref) as [t|] eqn:Ht; [|done].
  destruct (task t) as [a|] eqn:Ha; [|done].
  assert (Hid : task_id t = tid).
  { pose proof (acc_waiters _ _ Hacc _ _ Hin) as Hi.
    apply ids_lookup in Hi as (t' & Ht' & Hi). congruence. }
  assert (Hw1 : forall w, w ∈ list_remove_first (tid, ref) (cancel_waiters m) ->
                          w ∈ cancel_waiters m).
  { intros w Hw. eapply elem_of_sublist; [exact Hw|].
    apply list_remove_first_sublist. }
  assert (Hw2 : forall w : string * nat, w ∈ cancel_waiters m -> w.2 <> ref ->
                          w ∈ list_remove_first (tid, ref) (cancel_waiters m)).
  { intros w Hw Hne. apply list_remove_first_other; [done|]. by intros ->. }
  destruct (aio_state a) eqn:Hst; try done.
  - intros [= <- <-].
    apply (acc_settle limits m _ ref t id); try done.
    + simpl. by rewrite list_alter_id.
    + by eapply finished_inactive.
  - cbv zeta. intros [= <- <-].
    apply (acc_settle limits m _ ref t (mark_failed now "Task was cancelled"));
      try done.
    + by case_decide.
    + by case_decide.
    + intros ty. case_decide; [|done]. simpl. rewrite fn_insert_lookup.
      case_decide; [subst|done]. by apply subseteq_difference_l.
    + intros ty x Hx Hne. case_decide; [|done]. simpl. rewrite fn_insert_lookup.
      case_decide; [subst ty|done]. apply elem_of_difference. split; [done|].
      rewrite elem_of_singleton. congruence.
    + by case_decide.
    + by case_decide.
Qed.

Lemma acc_cancel_queue limits now ty m :
  wf m -> accounted limits m ->
  accounted limits (set_queue ty [] (fail_queued now (task_queues m ty) m)).
Proof.
  intros Hwf Hacc.
  rewrite fail_queued_spec.
  2: apply (wf_unique m Hwf).
  2: apply (wf_tasks m Hwf).
  2:{ intros id Hin. destruct (wf_queue m Hwf ty id Hin) as (r & t & Hr & _). eauto. }
  eapply (acc_map limits m _ _ Hacc); try done; cbv beta.
  - intros t _. simpl. by case_decide.
  - intros t _. simpl. by case_decide.
  - intros t _. simpl. case_decide; [done|]. by left.
  - apply (acc_bound _ _ Hacc).
Qed.

Lemma acc_cancel_all_tasks_begin limits now m :
  wf m -> accounted limits m -> accounted limits (cancel_all_tasks_begin now m).
Proof.
  unfold cancel_all_tasks_begin. generalize TaskType_members.
  intros l. revert m. induction l as [|ty l IH]; intros m Hwf Hacc; simpl; [done|].
  apply IH; [by apply wf_cancel_queue|by apply acc_cancel_queue].
Qed.

(** Every step of the event loop that admits a new id keeps the accounts. *)
Lemma exec_acc limits ev m m' :
  wf m -> accounted limits m -> exec ev m = Some m' -> accounted limits m'.
Proof.
  intros Hwf Hacc Hex. destruct ev.
  - injection Hex as <-. by apply acc_add_task.
  - by eapply acc_run_start.
  - by eapply acc_run_end.
  - by eapply acc_done.
  - simpl in Hex. destruct (_queue_processor_task m); [|done].
    injection Hex as <-. by apply acc_process_queues.
  - simpl in Hex. destruct (_cleanup_task m); [|done].
    injection Hex as <-. by eapply acc_ext; [..|exact Hacc].
  - injection Hex as <-. by apply acc_cancel_task.
  - simpl in Hex. case_decide; [|done].
    destruct (cancel_task_resume now tid ref m) as [[b m1]|] eqn:Hr; [|done].
    injection Hex as <-. by eapply acc_cancel_task_resume.
  - injection Hex as <-. by apply acc_cancel_all_tasks_begin.
Qed.

Lemma run_wf_acc limits ok evs m m' :
  (forall m ev, ok m ev = true -> fresh_event m ev) ->
  wf m -> accounted limits m -> run ok evs m = Some m' ->
  wf m' /\ accounted limits m'.
Proof.
  intros Hok. revert m. induction evs as [|ev evs IH]; intros m Hwf Hacc; simpl.
  - by intros [= <-].
  - destruct (ok m ev) eqn:Hev; [|done].
    destruct (exec ev m) as [m1|] eqn:Hex; [|done].
    apply IH; [eapply exec_wf; eauto|eapply exec_acc; eauto].
Qed.

Lemma reachable_accounted limits retention m :
  reachable unique_ids limits retention m -> accounted limits m.
Proof.
  intros [evs Hrun].
  eapply run_wf_acc; [apply unique_ids_fresh|apply wf_init|apply acc_init|exact Hrun].
Qed.



(** ** The properties of the manager *)



Lemma add_task_spec now uuid co ty tid m :
  let id := task_id_or tid uuid in
  let m' := (add_task now uuid co ty tid m).2 in
  if decide (Z.of_nat (size (running_tasks m ty)) < concurrency_limits m ty)%Z
  then objects m' = objects m ++ [started (Task_init id co ty now)]
       /\ task_queues m' = task_queues m
       /\ running_tasks m' ty = {[ id ]} ∪ running_tasks m ty
  else objects m'
       = objects m ++ [set_queue_position (Some (length (task_queues m ty) + 1))
                         (Task_init id co ty now)]
       /\ task_queues m' ty = task_queues m ty ++ [id]
       /\ running_tasks m' = running_tasks m.
Proof.
  cbv zeta. unfold add_task. cbv zeta.
  set (id := task_id_or tid uuid).
  set (m1 := set_tasks _ _).
  assert (Hlook : objects m1 !! length (objects m) = Some (Task_init id co ty now)).
  { subst m1. simpl. rewrite lookup_app_r by lia. by rewrite Nat.sub_diag. }
  change (running_tasks m1 ty) with (running_tasks m ty).
  change (concurrency_limits m1 ty) with (concurrency_limits m ty).
  case_decide as Hslot.
  - rewrite (_start_task_eq m1 _ _ Hlook). simpl.
    rewrite alter_app_r_alt by lia. rewrite Nat.sub_diag. simpl.
    split; [done|]. split; [done|]. by rewrite fn_insert_lookup, decide_True.
  - simpl. rewrite alter_app_r_alt by lia. rewrite Nat.sub_diag. simpl.
    rewrite !fn_insert_lookup, !decide_True by done.
    rewrite length_app. done.
Qed.



Lemma position_defined_invariant limits retention m :
  reachable any_step limits retention m -> Forall position_defined (objects m).
Proof.
  intros [evs Hrun].
  eapply (run_local position_defined (fun _ => True)); [..|exact Hrun];
    try (by intros; split; [done|simpl; intros ? [= <-]; lia]);
    try (by intros t ? [H1 H2]; split; [done|exact H2]);
    try (by intros t ? ? [H1 H2]; split; [done|exact H2]).
  - intros t [H1 H2]. split; [done|exact H2].
  - intros t now o _ [H1 H2]. destruct o; (split; [done|exact H2]).
  - intros m0 ev _. by destruct ev.
  - by apply Forall_nil.
Qed.

(** C4, as far as it holds.  In every state the manager reaches, whatever
    the ids it admits: a stored task whose status is [queued] has a
    [queue_position], and it is at least 1. *)
Theorem queued_task_has_position limits retention m tid ref t :
  reachable any_step limits retention m ->
  tasks_get m tid = Some (ref, t) -> status t = QUEUED ->
  exists n, queue_position t = Some n /\ 1 <= n.
Proof.
  intros Hr Hget Hs.
  apply tasks_get_Some in Hget as [_ Ht].
  pose proof (position_defined_invariant _ _ _ Hr) as Hall.
  destruct (Forall_lookup_1 _ _ _ _ Hall Ht) as [H1 H2].
  destruct (H1 Hs) as [n Hn]. exists n. split; [done|by apply H2].
Qed.





(** ** The example runs *)

Lemma busy_reachable :
  reachable unique_ids TASK_CONCURRENCY_LIMITS TASK_RETENTION_MINUTES busy.
Proof. exists busy_trace. vm_compute. reflexivity. Defined.

Lemma drained_reachable :
  reachable unique_ids_values TASK_CONCURRENCY_LIMITS TASK_RETENTION_MINUTES drained.
Proof. exists drained_trace. vm_compute. reflexivity. Defined.

Lemma cancelling_reachable :
  reachable unique_ids TASK_CONCURRENCY_LIMITS TASK_RETENTION_MINUTES cancelling.
Proof. exists cancelling_trace. vm_compute. reflexivity. Defined.

(** An id used twice takes a third transcription past the limit of two:
    the first object's done-callback frees the slot that the second object,
    stored under the same id and still pending, holds. *)
Lemma reused_id_exceeds_limit :
  exists m,
    run any_step reused_id_trace
      (TaskManager_init TASK_CONCURRENCY_LIMITS TASK_RETENTION_MINUTES) = Some m
    /\ size (active_tasks TRANSCRIPTION m) = 3
    /\ size (running_tasks m TRANSCRIPTION) = 2
    /\ TASK_CONCURRENCY_LIMITS TRANSCRIPTION = 2%Z
    /\ run unique_ids reused_id_trace
         (TaskManager_init TASK_CONCURRENCY_LIMITS TASK_RETENTION_MINUTES) = None.
Proof. eexists. split; [by vm_compute|]. by vm_compute. Qed.



(** The task that waited first and was started by the drain step is
    [pending] and still has the position it last had in the queue: the
    equivalence of C4 fails from right to left. *)
Lemma started_task_keeps_position :
  ~ (forall m tid ref t,
       reachable unique_ids TASK_CONCURRENCY_LIMITS TASK_RETENTION_MINUTES m ->
       tasks_get m tid = Some (ref, t) ->
       (is_Some (queue_position t) <-> status t = QUEUED)).
Proof.
  intros H.
  assert (Hr : reachable unique_ids
                 TASK_CONCURRENCY_LIMITS TASK_RETENTION_MINUTES drained).
  { exists drained_trace. vm_compute. reflexivity. }
  destruct (tasks_get drained "t3") as [[ref t]|] eqn:E; [|by vm_compute in E].
  destruct (H drained "t3" ref t Hr E) as [H1 _].
  vm_compute in E. injection E as <- <-.
  assert (Hq : PENDING = QUEUED) by (apply H1; by eexists).
  discriminate Hq.
Qed.

Lemma queued_task_has_position_witness :
  exists t, tasks_get drained "u4" = Some (3, t)
            /\ exists n, queue_position t = Some n /\ 1 <= n.
Proof.
  destruct (tasks_get drained "u4") as [[ref t]|] eqn:E; [|by vm_compute in E].
  assert (Href : ref = 3) by (vm_compute in E; by injection E as <- <-).
  subst ref. exists t. split; [done|].
  apply (queued_task_has_position
           TASK_CONCURRENCY_LIMITS TASK_RETENTION_MINUTES drained "u4" 3 t).
  - exists drained_trace. vm_compute. reflexivity.
  - exact E.
  - vm_compute in E. by injection E as <-.
Defined.




(** ** The task endpoints *)

Lemma add_task_fst now uuid co ty tid m :
  (add_task now uuid co ty tid m).1 = task_id_or tid uuid.
Proof. done. Qed.

Lemma add_task_tasks now uuid co ty tid m :
  tasks (add_task now uuid co ty tid m).2
  = <[task_id_or tid uuid := length (objects m)]> (tasks m).
Proof.
  unfold add_task. cbv zeta.
  set (m1 := set_tasks _ _).
  assert (Hlook : objects m1 !! length (objects m)
                  = Some (Task_init (task_id_or tid uuid) co ty now)).
  { subst m1. simpl. rewrite lookup_app_r by lia. by rewrite Nat.sub_diag. }
  case_decide; [|done].
  by rewrite (_start_task_eq m1 _ _ Hlook).
Qed.

Lemma add_task_objects now uuid co ty tid m :
  objects (add_task now uuid co ty tid m).2
  = objects m ++ [admitted now (task_id_or tid uuid) co ty m].
Proof.
  pose proof (add_task_spec now uuid co ty tid m) as H. cbv zeta in H.
  unfold admitted. by case_decide; destruct H as (-> & _).
Qed.

Lemma add_task_get now uuid co ty tid m :
  tasks_get (add_task now uuid co ty tid m).2 (task_id_or tid uuid)
  = Some (length (objects m), admitted now (task_id_or tid uuid) co ty m).
Proof.
  apply tasks_get_Some. rewrite add_task_tasks, lookup_insert_eq.
  split; [done|]. rewrite add_task_objects.
  rewrite lookup_app_r by lia. by rewrite Nat.sub_diag.
Qed.

Lemma tasks_get_None m tid : wf m -> tasks_get m tid = None <-> tasks m !! tid = None.
Proof.
  intros Hwf. unfold tasks_get. destruct (tasks m !! tid) as [ref|] eqn:Href; [|done].
  pose proof (wf_tasks m Hwf _ _ Href) as Hi.
  apply ids_lookup in Hi as (t & -> & _). done.
Qed.

Lemma wf_status_found m ref t :
  wf m -> objects m !! ref = Some t -> status t <> NOT_FOUND.
Proof.
  intros Hwf Ht Hs.
  pose proof (Forall_lookup_1 _ _ _ _ (wf_lifecycle m Hwf) Ht) as Hl.
  unfold lifecycle in Hl. by rewrite Hs in Hl.
Qed.

(** X1.  [POST /transcribe] answers with the snapshot of the task it has
    just admitted, never with [null]: the id is the one of the request, or
    the generated one when the request has none or an empty one; the task
    is pending when the running set of transcriptions was below the limit,
    and otherwise queued with the length of the queue, itself included, as
    its position; it has no result and no error yet; and [GET /task] for
    that id answers with the same snapshot. *)
Theorem transcribe_audio_answers_snapshot now uuid co tid m :
  exists d m',
    transcribe_audio now uuid co tid m = (Some d, m')
    /\ snap_task_id d = task_id_or tid uuid
    /\ snap_task_type d = TRANSCRIPTION
    /\ snap_result d = None /\ snap_error d = None
    /\ (if decide (Z.of_nat (size (running_tasks m TRANSCRIPTION))
                   < concurrency_limits m TRANSCRIPTION)%Z
        then snap_status d = PENDING /\ snap_queue_position d = None
        else snap_status d = QUEUED
             /\ snap_queue_position d
                = Some (length (task_queues m TRANSCRIPTION) + 1))
    /\ get_task (task_id_or tid uuid) m' = Returns (Some d).
Proof.
  pose proof (add_task_get now uuid co TRANSCRIPTION tid m) as Hget.
  unfold transcribe_audio, get_task, get_task_status.
  destruct (add_task now uuid co TRANSCRIPTION tid m) as [id m'] eqn:E.
  assert (id = task_id_or tid uuid) as ->.
  { by rewrite <- (add_task_fst now uuid co TRANSCRIPTION tid m), E. }
  simpl in Hget. rewrite Hget.
  eexists _, m'. split; [reflexivity|]. simpl.
  do 4 (split; [by unfold admitted; case_decide|]).
  split.
  - unfold admitted. by case_decide.
  - rewrite Hget. rewrite decide_False; [done|]. unfold admitted. by case_decide.
Qed.

(** X2.  In a state the manager reaches when the ids it admits are new,
    [GET /task] answers 404 exactly for the ids that [tasks] does not hold,
    and for a stored id it answers with the snapshot of the task of that id;
    and admitting a task changes the answer for no other id. *)
Theorem get_task_not_found_iff_unknown limits retention m tid :
  reachable unique_ids limits retention m ->
  (get_task tid m = HTTPException 404 "Task not found" <-> tasks m !! tid = None)
  /\ (forall ref, tasks m !! tid = Some ref ->
        exists t, objects m !! ref = Some t /\ task_id t = tid
                  /\ get_task tid m = Returns (Some (to_dict t)))
  /\ (forall now uuid co ty tid',
        task_id_or tid' uuid <> tid ->
        get_task tid (add_task now uuid co ty tid' m).2 = get_task tid m).
Proof.
  intros Hr. pose proof (reachable_wf _ _ _ Hr) as Hwf.
  assert (Hsome : forall ref, tasks m !! tid = Some ref ->
            exists t, objects m !! ref = Some t /\ task_id t = tid
                      /\ get_task tid m = Returns (Some (to_dict t))).
  { intros ref Href. pose proof (wf_tasks m Hwf _ _ Href) as Hi.
    apply ids_lookup in Hi as (t & Ht & Hid). exists t. do 2 (split; [done|]).
    unfold get_task, get_task_status, tasks_get. rewrite Href, Ht.
    rewrite decide_False; [done|]. by eapply wf_status_found. }
  split; [|split; [done|]].
  - split.
    + intros H. destruct (tasks m !! tid) as [ref|] eqn:Href; [|done].
      destruct (Hsome ref eq_refl) as (t & _ & _ & E). congruence.
    + intros Hn. unfold get_task, get_task_status, tasks_get. by rewrite Hn.
  - intros now uuid co ty tid' Hne.
    unfold get_task, get_task_status, tasks_get.
    rewrite add_task_tasks, lookup_insert_ne by done.
    destruct (tasks m !! tid) as [ref|] eqn:Href; [|done].
    pose proof (wf_tasks m Hwf _ _ Href) as Hi.
    apply ids_lookup in Hi as (t & Ht & Hid).
    rewrite add_task_objects, (lookup_app_l_Some _ _ _ _ Ht). by rewrite Ht.
Qed.

Lemma get_task_not_found_iff_unknown_witness :
  get_task "t9" busy = HTTPException 404 "Task not found"
  /\ get_task "t3" (add_task 9 "u9" 9 REPORT None busy).2 = get_task "t3" busy.
Proof.
  destruct (get_task_not_found_iff_unknown
              TASK_CONCURRENCY_LIMITS TASK_RETENTION_MINUTES busy "t9")
    as (H404 & _).
  { exists busy_trace. vm_compute. reflexivity. }
  destruct (get_task_not_found_iff_unknown
              TASK_CONCURRENCY_LIMITS TASK_RETENTION_MINUTES busy "t3")
    as (_ & _ & Hadd).
  { exists busy_trace. vm_compute. reflexivity. }
  split.
  - apply H404. vm_compute. reflexivity.
  - apply Hadd. discriminate.
Defined.


(** ** Cleanup and cancellation *)

Lemma tasks_get_map m m' g id r t :
  tasks m' = tasks m -> objects m' = g <$> objects m ->
  tasks_get m id = Some (r, t) -> tasks_get m' id = Some (r, g t).
Proof.
  intros Hta Ho [Hr Ht]%tasks_get_Some. apply tasks_get_Some.
  rewrite Hta, Ho, list_lookup_fmap, Ht. done.
Qed.

Lemma renum_result i q t : result (renum i q t) = result t.
Proof. unfold renum. by destruct (index_of _ _). Qed.

Lemma renum_error i q t : error (renum i q t) = error t.
Proof. unfold renum. by destruct (index_of _ _). Qed.

(** X3.  One pass of [_cleanup_old_tasks] takes out of [tasks] exactly the
    ids of the tasks whose [completed_at] lies more than the retention
    before the time of the pass: a task without [completed_at] stays, an
    unknown id stays unknown, and a task that was taken out is answered
    with 404.  The pass leaves the [Task] objects, the wait queues and the
    running sets alone, and a second pass at the same time takes out
    nothing more. *)
Theorem cleanup_purges_expired_only now m tid :
  let m' := _cleanup_old_tasks now m in
  tasks_get m' tid
  = match tasks_get m tid with
    | Some (ref, t) =>
        if expired now (_retention_minutes m) t then None else Some (ref, t)
    | None => None
    end
  /\ (forall t,
        expired now (_retention_minutes m) t = true <->
        exists c, completed_at t = Some c
                  /\ (_retention_minutes m * 60000000 < now - c)%Z)
  /\ (forall ref t,
        tasks_get m tid = Some (ref, t) ->
        expired now (_retention_minutes m) t = true ->
        get_task tid m' = HTTPException 404 "Task not found")
  /\ objects m' = objects m
  /\ task_queues m' = task_queues m
  /\ running_tasks m' = running_tasks m
  /\ _cleanup_old_tasks now m' = m'.
Proof.
  cbv zeta.
  assert (Hget : tasks_get (_cleanup_old_tasks now m) tid
                 = match tasks_get m tid with
                   | Some (ref, t) =>
                       if expired now (_retention_minutes m) t
                       then None else Some (ref, t)
                   | None => None
                   end).
  { unfold tasks_get, _cleanup_old_tasks. simpl.
    destruct (tasks m !! tid) as [ref|] eqn:Href.
    - destruct (objects m !! ref) as [t|] eqn:Ht.
      + destruct (expired now (_retention_minutes m) t) eqn:He.
        * rewrite (proj2 (map_lookup_filter_None _ _ _)); [done|].
          right. intros x Hx. simpl. unfold retained.
          assert (x = ref) as -> by congruence. by rewrite Ht, He.
        * rewrite (map_lookup_filter_Some_2 _ _ _ ref); [by rewrite Ht|done|].
          simpl. unfold retained. by rewrite Ht, He.
      + destruct (filter _ (tasks m) !! tid) as [ref'|] eqn:E; [|done].
        apply map_lookup_filter_Some in E as [E _].
        assert (ref' = ref) as -> by congruence. by rewrite Ht.
    - rewrite (proj2 (map_lookup_filter_None _ _ _)); [done|by left]. }
  split; [done|]. split.
  { intros t. unfold expired. destruct (completed_at t) as [c|].
    - rewrite bool_decide_eq_true. split; [eauto|by intros (? & [= <-] & ?)].
    - split; [done|by intros (? & ? & _)]. }
  split.
  { intros ref t Hg He. unfold get_task, get_task_status.
    by rewrite Hget, Hg, He. }
  do 3 (split; [done|]).
  set (keep := filter (fun kv : string * nat => retained now m kv.2 = true)
                 (tasks m)).
  assert (Hk : filter (fun kv : string * nat => retained now m kv.2 = true) keep
               = keep).
  { apply map_eq. intros i. destruct (keep !! i) as [x|] eqn:E.
    - apply map_lookup_filter_Some. split; [done|].
      by apply map_lookup_filter_Some in E as [_ E].
    - apply map_lookup_filter_None. by left. }
  change (set_tasks
            (filter (fun kv : string * nat => retained now m kv.2 = true) keep)
            (set_tasks keep m)
          = set_tasks keep m).
  by rewrite Hk.
Qed.

Lemma cleanup_purges_expired_only_witness :
  get_task "t1" (_cleanup_old_tasks 400000000 drained)
  = HTTPException 404 "Task not found"
  /\ tasks_get (_cleanup_old_tasks 400000000 drained) "t3"
     = tasks_get drained "t3".
Proof.
  destruct (cleanup_purges_expired_only 400000000 drained "t1")
    as (_ & _ & H404 & _).
  destruct (cleanup_purges_expired_only 400000000 drained "t3")
    as (Hkeep & _).
  split.
  - apply (H404 0 (object_at drained 0)); vm_compute; reflexivity.
  - rewrite Hkeep. vm_compute. reflexivity.
Defined.

(** X4.  In a state the manager reaches when the ids it admits are new,
    [cancel_task] of a task that waits in the queue of its type returns
    [True]: the id is out of the queue, the task is failed with the error
    [Task was cancelled while in queue], the time as [completed_at] and no
    result; the running sets are as before and every other task keeps its
    status, result and error; and a second [cancel_task] of the same id
    returns [False]. *)
Theorem cancel_task_of_queued limits retention m now now' tid ref t :
  reachable unique_ids limits retention m ->
  tasks_get m tid = Some (ref, t) -> status t = QUEUED ->
  tid ∈ task_queues m (task_type t) ->
  exists m' t',
    cancel_task now tid m = (CancelReturned true, m')
    /\ (tid ∉ task_queues m' (task_type t))
    /\ tasks_get m' tid = Some (ref, t')
    /\ status t' = FAILED
    /\ error t' = Some "Task was cancelled while in queue"
    /\ completed_at t' = Some now
    /\ result t' = None
    /\ running_tasks m' = running_tasks m
    /\ (forall id r t1,
          id <> tid -> tasks_get m id = Some (r, t1) ->
          exists t1', tasks_get m' id = Some (r, t1')
                      /\ status t1' = status t1 /\ result t1' = result t1
                      /\ error t1' = error t1)
    /\ (cancel_task now' tid m').1 = CancelReturned false.
Proof.
  intros Hr Hget Hs Hin.
  pose proof (reachable_wf _ _ _ Hr) as Hwf.
  pose proof Hget as Hget'. apply tasks_get_Some in Hget' as [Href Ht].
  pose proof (Forall_lookup_1 _ _ _ _ (wf_lifecycle m Hwf) Ht) as Hl.
  unfold lifecycle in Hl. rewrite Hs in Hl.
  destruct Hl as (Htask & Hres & _).
  assert (Hid : forall id r t1, tasks_get m id = Some (r, t1) -> task_id t1 = id).
  { intros id r t1 [Hr1 Ht1]%tasks_get_Some.
    pose proof (wf_tasks m Hwf _ _ Hr1) as Hi.
    apply ids_lookup in Hi as (t'' & Ht'' & Hi). congruence. }
  rewrite (cancel_task_queued_spec m now tid ref t) by done.
  set (q' := list_remove_first tid (task_queues m (task_type t))).
  set (g := fun t' => by_id tid _ (renum 0 q' t')).
  set (m' := set_objects _ _).
  assert (Hmap : forall id r t1, tasks_get m id = Some (r, t1) ->
                                 tasks_get m' id = Some (r, g t1)).
  { intros id r t1. by apply tasks_get_map. }
  assert (Hgt : g t = mark_failed now "Task was cancelled while in queue"
                        (renum 0 q' t)).
  { subst g. unfold by_id. cbv beta.
    by rewrite renum_id, decide_True by by apply (Hid tid ref). }
  exists m', (g t). split; [done|].
  split.
  { subst m'. simpl. rewrite fn_insert_lookup, decide_True by done.
    apply list_remove_first_notin, (wf_nodup m Hwf). }
  split; [by apply Hmap|]. rewrite Hgt.
  do 3 (split; [done|]).
  split; [simpl; by rewrite renum_result|].
  split; [done|]. split.
  - intros id r t1 Hne Hg1. exists (g t1). split; [by apply Hmap|].
    subst g. unfold by_id. cbv beta.
    rewrite renum_id, decide_False by (rewrite (Hid id r t1 Hg1); done).
    by rewrite renum_status, renum_result, renum_error.
  - unfold cancel_task. rewrite (Hmap tid ref t Hget), Hgt.
    rewrite decide_False by done. simpl. by rewrite renum_task, Htask.
Qed.

Lemma cancel_task_of_queued_witness :
  (cancel_task 9 "t3" busy).1 = CancelReturned true
  /\ (cancel_task 10 "t3" (cancel_task 9 "t3" busy).2).1 = CancelReturned false.
Proof.
  destruct (cancel_task_of_queued
              TASK_CONCURRENCY_LIMITS TASK_RETENTION_MINUTES busy 9%Z 10%Z
              "t3" 2 (object_at busy 2))
    as (m' & t' & E & _ & _ & _ & _ & _ & _ & _ & _ & Hagain).
  - exists busy_trace. vm_compute. reflexivity.
  - vm_compute. reflexivity.
  - vm_compute. reflexivity.
  - apply (bool_decide_unpack _). vm_compute. exact I.
  - rewrite E. split; [reflexivity|exact Hagain].
Defined.


(** ** The life of a task *)

Lemma evolves_refl t : evolves t t.
Proof. unfold evolves. auto 10. Qed.

Lemma evolves_trans t1 t2 t3 : evolves t1 t2 -> evolves t2 t3 -> evolves t1 t3.
Proof.
  intros (Hi1 & Ht1 & Hs1 & Hc1 & Hf1) (Hi2 & Ht2 & Hs2 & Hc2 & Hf2).
  split; [congruence|]. split; [congruence|]. split; [|split].
  - destruct Hs1 as [E1|L1], Hs2 as [E2|L2].
    + left. congruence.
    + right. by rewrite <- E1.
    + right. by rewrite E2.
    + right. lia.
  - intros Hs. destruct (Hc1 Hs) as (Hs' & Hr & He).
    destruct (Hc2 Hs') as (? & ? & ?). split; [done|]. split; congruence.
  - intros Hs. destruct (Hf1 Hs) as (Hs' & Hr).
    destruct (Hf2 Hs') as (? & ?). split; [done|congruence].
Qed.

Lemma evolves_same t t' :
  task_id t' = task_id t -> task_type t' = task_type t ->
  status t' = status t -> result t' = result t -> error t' = error t ->
  evolves t t'.
Proof.
  intros Hi Hty Hs Hr He. unfold evolves. do 2 (split; [done|]).
  split; [by left|]. split; intros Hst; repeat split; congruence.
Qed.

Lemma evolves_renum i q t : evolves t (renum i q t).
Proof.
  apply evolves_same;
    auto using renum_id, renum_type, renum_status, renum_result, renum_error.
Qed.

Lemma evolves_forward t t' :
  task_id t' = task_id t -> task_type t' = task_type t ->
  status_rank (status t) < status_rank (status t') ->
  evolves t t'.
Proof.
  intros Hi Hty Hlt. unfold evolves. do 2 (split; [done|]).
  split; [by right|].
  split; intros Hs; rewrite Hs in Hlt; simpl in Hlt;
    destruct (status t'); simpl in Hlt; lia.
Qed.

Lemma evolves_mark_failed now msg t :
  status t <> COMPLETED -> status t <> NOT_FOUND ->
  evolves t (mark_failed now msg t).
Proof.
  intros Hc Hn. unfold evolves. do 2 (split; [done|]). simpl.
  split; [|split; [done|by intros _]].
  destruct (status t) eqn:Hs; simpl; try (right; lia); try done.
  by left.
Qed.

Lemma objects_evolve_refl m m' : objects m' = objects m -> objects_evolve m m'.
Proof. intros E ref t Ht. exists t. rewrite E. split; [done|apply evolves_refl]. Qed.

Lemma objects_evolve_trans m1 m2 m3 :
  objects_evolve m1 m2 -> objects_evolve m2 m3 -> objects_evolve m1 m3.
Proof.
  intros H1 H2 ref t Ht. destruct (H1 ref t Ht) as (t' & Ht' & E1).
  destruct (H2 ref t' Ht') as (t'' & Ht'' & E2).
  exists t''. split; [done|by eapply evolves_trans].
Qed.

Lemma objects_evolve_map m m' g :
  objects m' = g <$> objects m ->
  (forall t, t ∈ objects m -> evolves t (g t)) -> objects_evolve m m'.
Proof.
  intros Ho Hg ref t Ht. exists (g t). rewrite Ho, list_lookup_fmap, Ht.
  split; [done|]. apply Hg. by eapply list_elem_of_lookup_2.
Qed.

Lemma objects_evolve_alter m m' r f t0 :
  objects m' = objects (update_object r f m) -> objects m !! r = Some t0 ->
  evolves t0 (f t0) -> objects_evolve m m'.
Proof.
  intros Ho Hr Hf ref t Ht. rewrite Ho. simpl.
  destruct (decide (ref = r)) as [->|Hne].
  - rewrite list_lookup_alter_eq, Hr. simpl. exists (f t0).
    split; [done|]. congruence.
  - rewrite list_lookup_alter_ne by done. exists t.
    split; [done|apply evolves_refl].
Qed.

Lemma objects_evolve_app m m' x :
  objects m' = objects m ++ [x] -> objects_evolve m m'.
Proof.
  intros Ho ref t Ht. exists t. rewrite Ho.
  split; [by apply lookup_app_l_Some|apply evolves_refl].
Qed.

Lemma evolves_process_queue_for_type m ty :
  wf m -> objects_evolve m (_process_queue_for_type ty m).
Proof.
  intros Hwf. destruct (task_queues m ty) as [|h rest] eqn:Hq.
  { apply objects_evolve_refl. unfold _process_queue_for_type. by rewrite Hq. }
  destruct (_process_queue_for_type_spec m ty h rest Hwf Hq)
    as (ref & t & Hget & Hid & Hs & Hty & ->).
  apply tasks_get_Some in Hget as [Href Ht].
  eapply objects_evolve_map; [done|]. intros t' Hin. cbv beta.
  unfold by_id. rewrite renum_id. case_decide as E; [|apply evolves_renum].
  assert (t' = t) as ->.
  { apply (wf_same_object m); [done..|by eapply list_elem_of_lookup_2|congruence]. }
  apply evolves_forward; simpl; rewrite ?renum_id, ?renum_type, ?renum_status;
    try done. rewrite Hs. simpl. lia.
Qed.

Lemma evolves_process_queues m : wf m -> objects_evolve m (_process_queues m).
Proof.
  unfold _process_queues. generalize TaskType_members.
  intros l. revert m. induction l as [|ty l IH]; intros m Hwf; simpl.
  { by apply objects_evolve_refl. }
  case_decide; [|by apply IH].
  eapply objects_evolve_trans; [by apply evolves_process_queue_for_type|].
  by apply IH, wf_process_queue_for_type.
Qed.

Lemma evolves_cancel_task now tid m :
  wf m -> objects_evolve m (cancel_task now tid m).2.
Proof.
  intros Hwf. destruct (tasks_get m tid) as [[ref t]|] eqn:Hget.
  2:{ apply objects_evolve_refl. unfold cancel_task. by rewrite Hget. }
  pose proof Hget as Hget'. apply tasks_get_Some in Hget' as [Href Ht].
  destruct (decide (status t = QUEUED)) as [Hs|Hs].
  - destruct (decide (tid ∈ task_queues m (task_type t))) as [Hin|Hnin].
    2:{ apply objects_evolve_refl. unfold cancel_task. rewrite Hget.
        by rewrite decide_True, decide_False. }
    rewrite (cancel_task_queued_spec m now tid ref t) by done. simpl.
    eapply objects_evolve_map; [done|]. intros t' Hin'. cbv beta.
    unfold by_id. rewrite renum_id. case_decide as E; [|apply evolves_renum].
    assert (t' = t) as ->.
    { apply (wf_same_object m); [done..|by eapply list_elem_of_lookup_2|].
      pose proof (wf_tasks m Hwf _ _ Href) as Hi.
      apply ids_lookup in Hi as (t'' & Ht'' & Hi). congruence. }
    eapply evolves_trans; [apply (evolves_renum 0)|].
    apply evolves_mark_failed; rewrite renum_status, Hs; done.
  - unfold cancel_task. rewrite Hget, decide_False by done.
    destruct (task t) as [a|] eqn:Ha; [|by apply objects_evolve_refl].
    destruct (aio_done a) eqn:Hd; [by apply objects_evolve_refl|]. simpl.
    eapply (objects_evolve_alter m _ ref _ t); [done..|].
    by apply evolves_same.
Qed.

Lemma evolves_cancel_task_resume now tid ref m b m1 :
  wf m -> cancel_task_resume now tid ref m = Some (b, m1) -> objects_evolve m m1.
Proof.
  intros Hwf. unfold cancel_task_resume.
  destruct (objects m !! ref) as [t|] eqn:Ht; [|done].
  destruct (task t) as [a|] eqn:Ha; [|done].
  pose proof (Forall_lookup_1 _ _ _ _ (wf_lifecycle m Hwf) Ht) as Hl.
  destruct (aio_state a) eqn:Hst; try done.
  - intros [= <- <-]. by apply objects_evolve_refl.
  - cbv zeta. intros [= <- <-].
    eapply (objects_evolve_alter m _ ref _ t); [by case_decide|done|].
    apply evolves_mark_failed; [|by eapply wf_status_found].
    intros Hs. unfold lifecycle in Hl. rewrite Hs in Hl.
    destruct Hl as (_ & _ & a' & ? & ?). congruence.
Qed.

Lemma evolves_cancel_all_tasks_begin now m :
  wf m -> objects_evolve m (cancel_all_tasks_begin now m).
Proof.
  unfold cancel_all_tasks_begin. generalize TaskType_members.
  intros l. revert m. induction l as [|ty l IH]; intros m Hwf; simpl.
  { by apply objects_evolve_refl. }
  eapply objects_evolve_trans; [|by apply IH, wf_cancel_queue].
  rewrite fail_queued_spec.
  2: apply (wf_unique m Hwf).
  2: apply (wf_tasks m Hwf).
  2:{ intros id Hin. destruct (wf_queue m Hwf ty id Hin) as (r & t & Hr & _). eauto. }
  eapply objects_evolve_map; [done|]. intros t Hin. cbv beta.
  case_decide as E; [|apply evolves_refl].
  destruct (wf_queued m ty (task_id t) t Hwf E Hin eq_refl) as (Hs & _).
  apply evolves_mark_failed; by rewrite Hs.
Qed.

Lemma exec_evolves ev m m' : wf m -> exec ev m = Some m' -> objects_evolve m m'.
Proof.
  intros Hwf Hex. destruct ev; simpl in Hex.
  - injection Hex as <-. eapply objects_evolve_app, add_task_objects.
  - destruct (objects m !! ref) as [t|] eqn:Ht; [|done].
    destruct (task t) as [a|] eqn:Ha; [|done].
    destruct (started_status m ref t a Hwf Ht Ha) as [Hs _].
    destruct (aio_state a) eqn:Hst; try done.
    destruct (must_cancel a); injection Hex as <-;
      eapply (objects_evolve_alter m _ ref _ t); try done;
      unfold set_aio_state, run_begin; simpl; rewrite Ha.
    + by apply evolves_same.
    + apply evolves_forward; try done. simpl. rewrite Hs. simpl. lia.
  - destruct (objects m !! ref) as [t|] eqn:Ht; [|done].
    destruct (task t) as [a|] eqn:Ha; [|done].
    destruct (started_status m ref t a Hwf Ht Ha) as [Hs _].
    destruct (aio_state a) eqn:Hst; try by destruct o.
    destruct o as [v|msg|]; [| |destruct (must_cancel a); [|done]];
      injection Hex as <-;
      eapply (objects_evolve_alter m _ ref _ t); try done;
      unfold set_aio_state, run_finish; simpl; rewrite Ha.
    + apply evolves_forward; try done. simpl. rewrite Hs. simpl. lia.
    + apply evolves_forward; try done. simpl. rewrite Hs. simpl. lia.
    + by apply evolves_same.
  - destruct (objects m !! ref) as [t|] eqn:Ht; [|done].
    destruct (task t) as [a|] eqn:Ha; [|done].
    destruct (_ && _); [|done].
    pose proof (wf_callback_fired ref m t a Hwf Ht Ha) as Hwf1.
    assert (H1 : objects_evolve m (update_object ref set_callback_fired m)).
    { eapply (objects_evolve_alter m _ ref _ t); try done.
      unfold set_callback_fired. rewrite Ha. by apply evolves_same. }
    unfold _handle_task_completion in Hex.
    destruct (objects (update_object ref set_callback_fired m) !! ref) as [t1|];
      [|by injection Hex as <-].
    case_decide; injection Hex as <-; [|done].
    eapply objects_evolve_trans; [exact H1|].
    eapply objects_evolve_trans;
      [|apply evolves_process_queue_for_type; by eapply wf_ext; [..|exact Hwf1]].
    by apply objects_evolve_refl.
  - destruct (_queue_processor_task m); [|done]. injection Hex as <-.
    by apply evolves_process_queues.
  - destruct (_cleanup_task m); [|done]. injection Hex as <-.
    by apply objects_evolve_refl.
  - injection Hex as <-. by apply evolves_cancel_task.
  - case_decide; [|done].
    destruct (cancel_task_resume now tid ref m) as [[b m1]|] eqn:Hr; [|done].
    injection Hex as <-.
    eapply objects_evolve_trans; [by eapply evolves_cancel_task_resume|].
    by apply objects_evolve_refl.
  - injection Hex as <-. by apply evolves_cancel_all_tasks_begin.
Qed.

Lemma run_evolves ok evs m m' :
  (forall m ev, ok m ev = true -> fresh_event m ev) ->
  wf m -> run ok evs m = Some m' -> objects_evolve m m'.
Proof.
  intros Hok. revert m. induction evs as [|ev evs IH]; intros m Hwf; simpl.
  - intros [= <-]. by apply objects_evolve_refl.
  - destruct (ok m ev) eqn:Hev; [|done].
    destruct (exec ev m) as [m1|] eqn:Hex; [|done]. intros Hrun.
    eapply objects_evolve_trans; [by eapply exec_evolves|].
    apply IH; [|done]. eapply exec_wf; eauto.
Qed.

(** X5.  From a state the manager reaches when the ids it admits are new,
    along every further run of that kind: every [Task] object is still
    there, with the same id and type and a status that is the same or
    further on in [queued], [pending], [running], [completed]/[failed]; a
    task that was completed is completed, with the result it had, and a
    task that was failed is failed; and whatever [tasks] then holds for the
    id of a task is that task in its later state. *)
Theorem status_never_goes_back limits retention m evs m' tid ref t :
  reachable unique_ids limits retention m ->
  run unique_ids evs m = Some m' ->
  tasks_get m tid = Some (ref, t) ->
  (exists t', objects m' !! ref = Some t' /\ evolves t t')
  /\ (forall r' t'', tasks_get m' tid = Some (r', t'') ->
        r' = ref /\ evolves t t'').
Proof.
  intros Hr Hrun Hget.
  pose proof (reachable_wf _ _ _ Hr) as Hwf.
  assert (Hwf' : wf m').
  { eapply run_wf; [apply unique_ids_fresh|exact Hwf|exact Hrun]. }
  pose proof (run_evolves _ _ _ _ unique_ids_fresh Hwf Hrun) as Hev.
  apply tasks_get_Some in Hget as [Href Ht].
  destruct (Hev ref t Ht) as (t' & Ht' & E).
  split; [eauto|]. intros r' t'' [Hr' Ht'']%tasks_get_Some.
  assert (Hid : task_id t = tid).
  { pose proof (wf_tasks m Hwf _ _ Href) as Hi.
    apply ids_lookup in Hi as (x & Hx & Hi). congruence. }
  assert (Hid'' : task_id t'' = tid).
  { pose proof (wf_tasks m' Hwf' _ _ Hr') as Hi.
    apply ids_lookup in Hi as (x & Hx & Hi). congruence. }
  assert (r' = ref) as ->.
  { eapply (object_ref_unique m'); [apply (wf_unique m' Hwf')|done..|].
    destruct E as (E & _). congruence. }
  split; [done|]. congruence.
Qed.

Lemma status_never_goes_back_witness :
  exists t', objects drained !! 2 = Some t' /\ evolves (object_at busy 2) t'.
Proof.
  destruct (status_never_goes_back
              TASK_CONCURRENCY_LIMITS TASK_RETENTION_MINUTES busy
              [EvRunEnd 5 0 (Returned (Some "{}")); EvDone 0] drained "t3" 2
              (object_at busy 2)) as [H _].
  - exists busy_trace. vm_compute. reflexivity.
  - vm_compute. reflexivity.
  - vm_compute. reflexivity.
  - exact H.
Defined.


(** ** Shutdown, and the slot of a cancelled task *)

Lemma cancel_queue_spec now ty m :
  wf m ->
  set_queue ty [] (fail_queued now (task_queues m ty) m)
  = set_queue ty []
      (set_objects
         ((fun t => if decide (task_id t ∈ task_queues m ty)
                    then mark_failed now "Task was cancelled during shutdown" t
                    else t) <$> objects m) m).
Proof.
  intros Hwf. rewrite fail_queued_spec; [done|apply (wf_unique m Hwf)
                                         |apply (wf_tasks m Hwf)|].
  intros id Hin. destruct (wf_queue m Hwf ty id Hin) as (r & t & Hr & _). eauto.
Qed.

Lemma cancel_queues_spec now l m :
  wf m ->
  let m' := foldl (fun m ty => set_queue ty [] (fail_queued now (task_queues m ty) m))
              m l in
  (forall ty, task_queues m' ty = if decide (ty ∈ l) then [] else task_queues m ty)
  /\ running_tasks m' = running_tasks m /\ tasks m' = tasks m
  /\ objects m'
     = (fun t => if decide (task_type t ∈ l /\ task_id t ∈ task_queues m (task_type t))
                 then mark_failed now "Task was cancelled during shutdown" t
                 else t) <$> objects m.
Proof.
  revert m. induction l as [|ty l IH]; intros m Hwf; cbv zeta.
  { simpl. split; [done|]. do 2 (split; [done|]). by rewrite list_fmap_id. }
  simpl. pose proof (wf_cancel_queue now ty m Hwf) as Hwf1.
  destruct (IH _ Hwf1) as (Hq & Hrun & Hta & Ho). clear IH.
  rewrite (cancel_queue_spec now ty m Hwf) in Hq, Hrun, Hta, Ho.
  rewrite (cancel_queue_spec now ty m Hwf).
  split; [|split; [done|split; [done|]]].
  - intros ty'. rewrite Hq. simpl. rewrite fn_insert_lookup.
    destruct (decide (ty' = ty)) as [->|Hne].
    + destruct (decide (ty ∈ ty :: l)) as [_|H]; [|by destruct H; left].
      repeat case_decide; done.
    + destruct (decide (ty = ty')) as [?|_]; [done|].
      destruct (decide (ty' ∈ l)) as [E|E].
      * rewrite decide_True; [done|by right].
      * rewrite decide_False; [done|]. rewrite not_elem_of_cons. done.
  - rewrite Ho. simpl. rewrite <- list_fmap_compose. apply list_fmap_ext.
    intros i t Ht. simpl.
    assert (Hin : t ∈ objects m) by by eapply list_elem_of_lookup_2.
    destruct (decide (task_id t ∈ task_queues m ty)) as [Hq1|Hq1].
    + destruct (wf_queued m ty (task_id t) t Hwf Hq1 Hin eq_refl) as (_ & Hty & _).
      simpl. rewrite fn_insert_lookup.
      destruct (decide (ty = task_type t)) as [_|E]; [|by destruct E].
      rewrite decide_False by (intros [_ H]; by apply elem_of_nil in H).
      rewrite decide_True; [done|]. rewrite Hty. split; [by left|done].
    + rewrite fn_insert_lookup.
      destruct (decide (ty = task_type t)) as [E|E].
      * rewrite decide_False by (intros [_ H]; by apply elem_of_nil in H).
        rewrite decide_False; [done|]. intros [_ H]. by rewrite <- E in H.
      * apply decide_ext. rewrite elem_of_cons.
        split; [intros [? ?]; auto|intros [[?|?] ?]; [congruence|auto]].
Qed.

(** X6.  In a state the manager reaches when the ids it admits are new,
    [cancel_all_tasks], up to the calls of [cancel_task] for the running
    ids, leaves every wait queue empty and every task that was waiting
    failed, with the error [Task was cancelled during shutdown] and the
    time as [completed_at]; every other task, the running sets and [tasks]
    are as they were, so the ids it goes on to cancel are those that were
    running. *)
Theorem cancel_all_tasks_fails_queued limits retention m now :
  reachable unique_ids limits retention m ->
  (forall ty, task_queues (cancel_all_tasks_begin now m) ty = [])
  /\ running_tasks (cancel_all_tasks_begin now m) = running_tasks m
  /\ cancel_all_tasks_running (cancel_all_tasks_begin now m)
     = cancel_all_tasks_running m
  /\ (forall tid ref t,
        tasks_get m tid = Some (ref, t) ->
        tasks_get (cancel_all_tasks_begin now m) tid
        = Some (ref,
                if decide (tid ∈ task_queues m (task_type t))
                then mark_failed now "Task was cancelled during shutdown" t
                else t)).
Proof.
  intros Hr. pose proof (reachable_wf _ _ _ Hr) as Hwf.
  destruct (cancel_queues_spec now TaskType_members m Hwf) as (Hq & Hrun & Hta & Ho).
  fold (cancel_all_tasks_begin now m) in Hq, Hrun, Hta, Ho.
  split; [|split; [done|split]].
  - intros ty. rewrite Hq, decide_True; [done|].
    destruct ty; unfold TaskType_members; rewrite !elem_of_cons; auto.
  - unfold cancel_all_tasks_running. by rewrite Hrun.
  - intros tid ref t Hget.
    rewrite (tasks_get_map m _ _ tid ref t Hta Ho Hget). do 2 f_equal.
    assert (Hid : task_id t = tid).
    { apply tasks_get_Some in Hget as [Href Ht].
      pose proof (wf_tasks m Hwf _ _ Href) as Hi.
      apply ids_lookup in Hi as (x & Hx & Hi). congruence. }
    rewrite Hid. apply decide_ext. split; [by intros [_ ?]|].
    intros H. split; [|done].
    destruct (task_type t); unfold TaskType_members; rewrite !elem_of_cons; auto.
Qed.

Lemma cancel_all_tasks_fails_queued_witness :
  task_queues (cancel_all_tasks_begin 9 busy) TRANSCRIPTION = []
  /\ cancel_all_tasks_running (cancel_all_tasks_begin 9 busy)
     = cancel_all_tasks_running busy.
Proof.
  destruct (cancel_all_tasks_fails_queued
              TASK_CONCURRENCY_LIMITS TASK_RETENTION_MINUTES busy 9%Z)
    as (Hq & _ & Hrun & _).
  - exists busy_trace. vm_compute. reflexivity.
  - split; [apply Hq|exact Hrun].
Defined.

(** X7.  In a state the manager reaches when the ids it admits are new: a
    [cancel_task] waits for a running-set member whose [asyncio.Task] has
    ended cancelled, and it is the only one waiting for it.  When it goes
    on, and the done-callback of the task after it, the id has left the
    running set, and nothing else has happened: [_handle_task_completion]
    finds the id gone and raises [KeyError] before it looks at the queue, so
    the wait queues are as they were and no waiting task was started. *)
Theorem cancelled_slot_is_not_refilled limits retention m now tid ref t a :
  reachable unique_ids limits retention m ->
  (tid, ref) ∈ cancel_waiters m ->
  Forall (fun w : string * nat => w.2 <> ref)
    (list_remove_first (tid, ref) (cancel_waiters m)) ->
  objects m !! ref = Some t -> task t = Some a ->
  aio_state a = AioCancelled -> callback_fired a = false ->
  tid ∈ running_tasks m (task_type t) ->
  exists m1 m2,
    exec (EvCancelResume now tid ref) m = Some m1
    /\ exec (EvDone ref) m1 = Some m2
    /\ _handle_task_completion ref
         (update_object ref set_callback_fired m1) = None
    /\ task_queues m2 = task_queues m
    /\ running_tasks m2 (task_type t) = running_tasks m (task_type t) ∖ {[ tid ]}
    /\ (forall r, r <> ref -> objects m2 !! r = objects m !! r).
Proof.
  intros Hr Hw Honly Ht Ha Hst Hcb Hin.
  pose proof (reachable_accounted _ _ _ Hr) as Hacc.
  assert (Hid : task_id t = tid).
  { pose proof (acc_waiters _ _ Hacc _ _ Hw) as Hi.
    apply ids_lookup in Hi as (x & Hx & Hi). congruence. }
  set (t1 := mark_failed now "Task was cancelled" t).
  set (m1 := set_cancel_waiters
               (list_remove_first (tid, ref) (cancel_waiters m))
               (set_running (task_type t)
                  (running_tasks m (task_type t) ∖ {[ tid ]})
                  (update_object ref (mark_failed now "Task was cancelled") m))).
  assert (E1 : exec (EvCancelResume now tid ref) m = Some m1).
  { simpl. rewrite decide_True by done.
    unfold cancel_task_resume. rewrite Ht, Ha, Hst. cbv zeta.
    by rewrite decide_True by done. }
  assert (Ht1 : objects m1 !! ref = Some t1).
  { subst m1. simpl. by rewrite list_lookup_alter_eq, Ht. }
  assert (Hcf : forall x, task_id (set_callback_fired x) = task_id x
                          /\ task_type (set_callback_fired x) = task_type x).
  { intros x. unfold set_callback_fired. by destruct (task x). }
  assert (Hrun1 : running_tasks m1 (task_type t)
                  = running_tasks m (task_type t) ∖ {[ tid ]}).
  { subst m1. simpl. by rewrite fn_insert_lookup, decide_True. }
  assert (Hnone : _handle_task_completion ref
                    (update_object ref set_callback_fired m1) = None).
  { unfold _handle_task_completion, update_object.
    change (objects (set_objects ?l _)) with l.
    change (running_tasks (set_objects _ ?x)) with (running_tasks x).
    rewrite list_lookup_alter_eq, Ht1. cbn [fmap option_fmap option_map].
    destruct (Hcf t1) as [-> ->].
    change (task_id t1) with (task_id t). change (task_type t1) with (task_type t).
    rewrite Hrun1, Hid. rewrite decide_False; [done|].
    rewrite elem_of_difference, elem_of_singleton. intros [_ H]. by apply H. }
  assert (Hdone : exec (EvDone ref) m1
                  = Some (update_object ref set_callback_fired m1)).
  { cbn [exec]. rewrite Ht1.
    change (task t1) with (task t). rewrite Ha. unfold aio_done.
    rewrite Hst, Hcb. cbn [andb negb].
    change (cancel_waiters m1)
      with (list_remove_first (tid, ref) (cancel_waiters m)).
    rewrite bool_decide_eq_true_2 by done. cbv zeta. by rewrite Hnone. }
  exists m1, (update_object ref set_callback_fired m1).
  do 3 (split; [done|]). split; [done|]. split; [done|].
  intros r Hne. simpl. by rewrite !list_lookup_alter_ne.
Qed.

Lemma cancelled_slot_is_not_refilled_witness :
  exists m1 m2,
    exec (EvCancelResume 7 "t1" 0) cancelling = Some m1
    /\ exec (EvDone 0) m1 = Some m2
    /\ task_queues m2 = task_queues cancelling.
Proof.
  destruct (cancelled_slot_is_not_refilled
              TASK_CONCURRENCY_LIMITS TASK_RETENTION_MINUTES cancelling 7%Z
              "t1" 0 (object_at cancelling 0) (mkAio AioCancelled true false))
    as (m1 & m2 & E1 & E2 & _ & Hq & _).
  - exists cancelling_trace. vm_compute. reflexivity.
  - apply (bool_decide_unpack _). vm_compute. exact I.
  - apply (bool_decide_unpack _). vm_compute. exact I.
  - vm_compute. reflexivity.
  - vm_compute. reflexivity.
  - reflexivity.
  - reflexivity.
  - apply (bool_decide_unpack _). vm_compute. exact I.
  - exists m1, m2. split; [exact E1|split; [exact E2|exact Hq]].
Defined.

(** ** One iteration of the queue processor *)

Lemma process_queue_for_type_shape m ty :
  wf m ->
  concurrency_limits (_process_queue_for_type ty m) = concurrency_limits m
  /\ (forall ty', task_queues (_process_queue_for_type ty m) ty'
                  = if decide (ty = ty') then tail (task_queues m ty)
                    else task_queues m ty')
  /\ (forall ty', running_tasks (_process_queue_for_type ty m) ty'
                  = if decide (ty = ty')
                    then match task_queues m ty with
                         | [] => running_tasks m ty
                         | h :: _ => {[ h ]} ∪ running_tasks m ty
                         end
                    else running_tasks m ty').
Proof.
  intros Hwf. destruct (task_queues m ty) as [|h rest] eqn:Hq.
  - unfold _process_queue_for_type. rewrite Hq. split; [done|].
    split; intros ty'; case_decide; subst; done.
  - destruct (_process_queue_for_type_spec m ty h rest Hwf Hq)
      as (ref & t & _ & _ & _ & _ & ->).
    split; [done|]. split; intros ty'; simpl; by rewrite fn_insert_lookup.
Qed.

Lemma process_queues_shape l m :
  wf m -> NoDup l ->
  let step := fun m ty =>
    if decide (Z.of_nat (size (running_tasks m ty)) < concurrency_limits m ty)%Z
    then _process_queue_for_type ty m else m in
  concurrency_limits (foldl step m l) = concurrency_limits m
  /\ forall ty,
       task_queues (foldl step m l) ty
       = (if decide (ty ∈ l) then task_queues (step m ty) ty else task_queues m ty)
       /\ running_tasks (foldl step m l) ty
          = (if decide (ty ∈ l) then running_tasks (step m ty) ty
             else running_tasks m ty).
Proof.
  intros Hwf Hnd. cbv zeta. revert m Hwf.
  induction l as [|a l IH]; intros m Hwf.
  { simpl. split; [done|]. intros ty.
    destruct (decide (ty ∈ [])) as [H|_]; [by apply elem_of_nil in H|done]. }
  apply NoDup_cons in Hnd as [Ha Hnd]. specialize (IH Hnd).
  cbn [foldl].
  set (m1 := if decide (Z.of_nat (size (running_tasks m a)) < concurrency_limits m a)%Z
             then _process_queue_for_type a m else m).
  assert (Hwf1 : wf m1).
  { subst m1. case_decide; [by apply wf_process_queue_for_type|done]. }
  assert (H1 : concurrency_limits m1 = concurrency_limits m
               /\ forall ty, ty <> a ->
                    task_queues m1 ty = task_queues m ty
                    /\ running_tasks m1 ty = running_tasks m ty).
  { subst m1. case_decide; [|done].
    destruct (process_queue_for_type_shape m a Hwf) as (Hl & Hq & Hr).
    split; [done|]. intros ty Hne.
    by rewrite Hq, Hr, !decide_False by done. }
  destruct H1 as [Hl1 H1].
  destruct (IH m1 Hwf1) as [Hl IHq]. split; [congruence|].
  intros ty. destruct (IHq ty) as [-> ->].
  destruct (decide (ty ∈ a :: l)) as [Hin'|Hin'];
    destruct (decide (ty ∈ l)) as [Hin|Hin].
  - assert (Hne : ty <> a) by (by intros ->).
    destruct (H1 ty Hne) as [Hq1 Hr1]. rewrite Hl1, Hr1.
    case_decide; [|done].
    destruct (process_queue_for_type_shape m1 ty Hwf1) as (_ & Hq & Hr).
    destruct (process_queue_for_type_shape m ty Hwf) as (_ & Hq' & Hr').
    rewrite Hq, Hr, Hq', Hr'.
    destruct (decide (ty = ty)) as [_|?]; [|done]. by rewrite Hq1, Hr1.
  - apply elem_of_cons in Hin' as [->|?]; done.
  - destruct Hin'. by right.
  - apply not_elem_of_cons in Hin' as [Hne _]. by apply H1.
Qed.

(** X8.  In a state the manager reaches when the ids it admits are new, one
    iteration of [_process_queues] takes at most one id from the wait queue
    of each type: the head, when fewer tasks of the type run than its limit
    allows, and that id joins the running set of the type; the queue and the
    running set of a type that is at its limit are as they were, whatever
    the iteration did for the other types. *)
Theorem process_queues_starts_one_per_type limits retention m ty :
  reachable unique_ids limits retention m ->
  task_queues (_process_queues m) ty
  = (if decide (Z.of_nat (size (running_tasks m ty)) < limits ty)%Z
     then tail (task_queues m ty) else task_queues m ty)
  /\ running_tasks (_process_queues m) ty
     = (if decide (Z.of_nat (size (running_tasks m ty)) < limits ty)%Z
        then match task_queues m ty with
             | [] => running_tasks m ty
             | h :: _ => {[ h ]} ∪ running_tasks m ty
             end
        else running_tasks m ty).
Proof.
  intros Hr. pose proof (reachable_wf _ _ _ Hr) as Hwf.
  pose proof (acc_limits _ _ (reachable_accounted _ _ _ Hr)) as Hl.
  assert (Hnd : NoDup TaskType_members)
    by (apply (bool_decide_unpack _); vm_compute; exact I).
  destruct (process_queues_shape TaskType_members m Hwf Hnd) as [_ H].
  destruct (H ty) as [Hq Hrun]. unfold _process_queues. rewrite Hq, Hrun.
  destruct (decide (ty ∈ TaskType_members)) as [_|Hin].
  2:{ destruct Hin. destruct ty; unfold TaskType_members; rewrite !elem_of_cons; auto. }
  rewrite Hl.
  destruct (decide (Z.of_nat (size (running_tasks m ty)) < limits ty)%Z); [|done].
  destruct (process_queue_for_type_shape m ty Hwf) as (_ & Hq' & Hr').
  rewrite Hq', Hr'. by destruct (decide (ty = ty)).
Qed.

Lemma process_queues_starts_one_per_type_witness :
  task_queues (_process_queues busy) TRANSCRIPTION
  = task_queues busy TRANSCRIPTION
  /\ task_queues (_process_queues cancelled) TRANSCRIPTION
     = tail (task_queues cancelled TRANSCRIPTION).
Proof.
  destruct (process_queues_starts_one_per_type
              TASK_CONCURRENCY_LIMITS TASK_RETENTION_MINUTES busy TRANSCRIPTION)
    as [Hb _].
  - exists busy_trace. vm_compute. reflexivity.
  - destruct (process_queues_starts_one_per_type
                TASK_CONCURRENCY_LIMITS TASK_RETENTION_MINUTES cancelled
                TRANSCRIPTION) as [Hd _].
    + exists cancelled_trace. vm_compute. reflexivity.
    + split.
      * rewrite Hb. vm_compute. reflexivity.
      * rewrite Hd. vm_compute. reflexivity.
Defined.

(** ** The API key of the task endpoints *)

(** X9.  [verify_api_key] lets a request in exactly when
    [OUR_SECRET_TOKEN] is set to a non-empty key and the [X-API-Key] header
    carries that key: with the variable unset or empty no header is
    accepted, and an absent or empty header is never accepted. *)
Theorem verify_api_key_lets_in_iff env api_key_header :
  verify_api_key env api_key_header = Returns tt
  <-> exists key, key <> "" /\ env = Some key /\ api_key_header = Some key.
Proof.
  unfold verify_api_key. split.
  - destruct api_key_header as [[|c s]|]; [done| |done].
    destruct env as [[|c' s']|]; [done| |done].
    case_decide as E; [|done]. intros _. exists (String c s).
    split; [done|]. by rewrite E.
  - intros (key & Hne & -> & ->). destruct key as [|c s]; [done|].
    by rewrite decide_True.
Qed.

(** ** No queued task is lost *)

Lemma qw_ext m m' :
  objects m' = objects m -> task_queues m' = task_queues m ->
  queued_waits m -> queued_waits m'.
Proof. unfold queued_waits. intros -> ->. done. Qed.

Lemma qw_map m m' g :
  objects m' = g <$> objects m ->
  (forall t, t ∈ objects m -> status (g t) = QUEUED ->
             task_id (g t) ∈ task_queues m' (task_type (g t))) ->
  queued_waits m'.
Proof.
  intros Ho Hg ref t'. rewrite Ho, list_lookup_fmap.
  destruct (objects m !! ref) as [t|] eqn:Ht; [|done]. intros [= <-].
  apply Hg. by eapply list_elem_of_lookup_2.
Qed.

(** An update of one object that keeps its id and type and does not make
    it [queued]. *)
Lemma qw_alter m m' r f t0 :
  objects m' = objects (update_object r f m) -> task_queues m' = task_queues m ->
  objects m !! r = Some t0 ->
  task_id (f t0) = task_id t0 -> task_type (f t0) = task_type t0 ->
  (status (f t0) = QUEUED -> status t0 = QUEUED) ->
  queued_waits m -> queued_waits m'.
Proof.
  intros Ho Hq Hr Hi Hty Hs Hqw ref t'. rewrite Ho, Hq. simpl.
  destruct (decide (ref = r)) as [->|Hne].
  - rewrite list_lookup_alter_eq, Hr. simpl. intros [= <-] Hst.
    rewrite Hi, Hty. apply (Hqw r t0 Hr). by apply Hs.
  - rewrite list_lookup_alter_ne by done. apply Hqw.
Qed.

Lemma qw_process_queue_for_type m ty :
  wf m -> queued_waits m -> queued_waits (_process_queue_for_type ty m).
Proof.
  intros Hwf Hqw. destruct (task_queues m ty) as [|h rest] eqn:Hq.
  { unfold _process_queue_for_type. by rewrite Hq. }
  destruct (_process_queue_for_type_spec m ty h rest Hwf Hq)
    as (ref & t & Hget & Hid & Hs & Hty & ->).
  eapply qw_map; [done|]. intros t' Hin. cbv beta.
  unfold by_id. rewrite renum_id.
  case_decide as E; [done|]. rewrite renum_status, renum_id, renum_type.
  intros Hst. apply list_elem_of_lookup_1 in Hin as [r Hr].
  pose proof (Hqw r t' Hr Hst) as Hw. simpl. rewrite fn_insert_lookup.
  case_decide as Ety; [|done]. rewrite <- Ety, Hq in Hw.
  by apply elem_of_cons in Hw as [?|?].
Qed.

Lemma qw_process_queues m : wf m -> queued_waits m -> queued_waits (_process_queues m).
Proof.
  unfold _process_queues. generalize TaskType_members.
  intros l. revert m. induction l as [|ty l IH]; intros m Hwf Hqw; simpl; [done|].
  case_decide; [|by apply IH].
  apply IH; [by apply wf_process_queue_for_type|by apply qw_process_queue_for_type].
Qed.

Lemma qw_cancel_task now tid m :
  wf m -> queued_waits m -> queued_waits (cancel_task now tid m).2.
Proof.
  intros Hwf Hqw. destruct (tasks_get m tid) as [[ref t]|] eqn:Hget.
  2:{ unfold cancel_task. by rewrite Hget. }
  pose proof Hget as Hget'. apply tasks_get_Some in Hget' as [Href Ht].
  destruct (decide (status t = QUEUED)) as [Hs|Hs].
  - destruct (decide (tid ∈ task_queues m (task_type t))) as [Hin|Hnin].
    2:{ unfold cancel_task. rewrite Hget. by rewrite decide_True, decide_False. }
    rewrite (cancel_task_queued_spec m now tid ref t) by done. simpl.
    eapply qw_map; [done|]. intros t' Hin'. cbv beta.
    unfold by_id. rewrite renum_id.
    case_decide as E; [done|]. rewrite renum_status, renum_id, renum_type.
    intros Hst. apply list_elem_of_lookup_1 in Hin' as [r Hr].
    pose proof (Hqw r t' Hr Hst) as Hw. simpl. rewrite fn_insert_lookup.
    case_decide as Ety; [|done]. rewrite Ety.
    by apply list_remove_first_other.
  - unfold cancel_task. rewrite Hget, decide_False by done.
    destruct (task t) as [a|] eqn:Ha; [|done].
    destruct (aio_done a) eqn:Hd; [done|]. simpl.
    by eapply (qw_alter m _ ref _ t).
Qed.

Lemma qw_cancel_task_resume now tid ref m b m1 :
  queued_waits m -> cancel_task_resume now tid ref m = Some (b, m1) ->
  queued_waits m1.
Proof.
  intros Hqw. unfold cancel_task_resume.
  destruct (objects m !! ref) as [t|] eqn:Ht; [|done].
  destruct (task t) as [a|] eqn:Ha; [|done].
  destruct (aio_state a) eqn:Hst; try done.
  - by intros [= <- <-].
  - cbv zeta. intros [= <- <-].
    eapply (qw_alter m _ ref _ t); first [done | by case_decide | by simpl].
Qed.

Lemma qw_cancel_all_tasks_begin now m :
  wf m -> queued_waits m -> queued_waits (cancel_all_tasks_begin now m).
Proof.
  intros Hwf Hqw.
  destruct (cancel_queues_spec now TaskType_members m Hwf) as (_ & _ & _ & Ho).
  fold (cancel_all_tasks_begin now m) in Ho.
  eapply qw_map; [exact Ho|]. intros t Hin. cbv beta.
  case_decide as E; [done|]. intros Hst.
  apply list_elem_of_lookup_1 in Hin as [r Hr].
  destruct E. split; [|by apply (Hqw r t)].
  destruct (task_type t); unfold TaskType_members; rewrite !elem_of_cons; auto.
Qed.

Lemma add_task_queues now uuid co ty tid m ty' :
  task_queues (add_task now uuid co ty tid m).2 ty'
  = if decide (Z.of_nat (size (running_tasks m ty)) < concurrency_limits m ty)%Z
    then task_queues m ty'
    else if decide (ty = ty') then task_queues m ty ++ [task_id_or tid uuid]
         else task_queues m ty'.
Proof.
  unfold add_task. cbv zeta.
  set (id := task_id_or tid uuid).
  set (m1 := set_tasks _ _).
  assert (Hlook : objects m1 !! length (objects m) = Some (Task_init id co ty now)).
  { subst m1. simpl. rewrite lookup_app_r by lia. by rewrite Nat.sub_diag. }
  change (running_tasks m1 ty) with (running_tasks m ty).
  change (concurrency_limits m1 ty) with (concurrency_limits m ty).
  case_decide as Hslot.
  - by rewrite (_start_task_eq m1 _ _ Hlook).
  - simpl. by rewrite fn_insert_lookup.
Qed.

Lemma qw_add_task now uuid co ty tid m :
  queued_waits m -> queued_waits (add_task now uuid co ty tid m).2.
Proof.
  intros Hqw ref t. rewrite add_task_objects, add_task_queues.
  unfold admitted. intros Hl Hst.
  apply lookup_app_Some in Hl as [Hl|[Hge Hl]].
  - pose proof (Hqw ref t Hl Hst) as Hw.
    case_decide; [done|]. case_decide as Ety; [|done].
    rewrite <- Ety in Hw. apply elem_of_app. by left.
  - destruct (ref - length (objects m)) as [|n]; [|done].
    case_decide; injection Hl as <-; [done|]. simpl.
    rewrite decide_True by done. apply elem_of_app. right. by left.
Qed.

Lemma exec_queued_waits ev m m' :
  wf m -> queued_waits m -> exec ev m = Some m' -> queued_waits m'.
Proof.
  intros Hwf Hqw Hex. destruct ev; simpl in Hex.
  - injection Hex as <-. by apply qw_add_task.
  - destruct (objects m !! ref) as [t|] eqn:Ht; [|done].
    destruct (task t) as [a|] eqn:Ha; [|done].
    destruct (started_status m ref t a Hwf Ht Ha) as [_ Hs].
    destruct (aio_state a) eqn:Hst; try done.
    destruct (must_cancel a); injection Hex as <-;
      eapply (qw_alter m _ ref _ t); try done;
      unfold set_aio_state, run_begin; simpl; by rewrite ?Ha.
  - destruct (objects m !! ref) as [t|] eqn:Ht; [|done].
    destruct (task t) as [a|] eqn:Ha; [|done].
    destruct (started_status m ref t a Hwf Ht Ha) as [_ Hs].
    destruct (aio_state a) eqn:Hst; try by destruct o.
    destruct o as [v|msg|]; [| |destruct (must_cancel a); [|done]];
      injection Hex as <-;
      eapply (qw_alter m _ ref _ t); try done;
      unfold set_aio_state, run_finish; simpl; by rewrite ?Ha.
  - destruct (objects m !! ref) as [t|] eqn:Ht; [|done].
    destruct (task t) as [a|] eqn:Ha; [|done].
    destruct (_ && _); [|done].
    pose proof (wf_callback_fired ref m t a Hwf Ht Ha) as Hwf1.
    assert (H1 : queued_waits (update_object ref set_callback_fired m)).
    { eapply (qw_alter m _ ref _ t); try done;
        unfold set_callback_fired; by rewrite Ha. }
    unfold _handle_task_completion in Hex.
    destruct (objects (update_object ref set_callback_fired m) !! ref) as [t1|];
      [|by injection Hex as <-].
    case_decide; injection Hex as <-; [|done].
    apply qw_process_queue_for_type; [by eapply wf_ext; [..|exact Hwf1]|].
    by apply (qw_ext (update_object ref set_callback_fired m)).
  - destruct (_queue_processor_task m); [|done]. injection Hex as <-.
    by apply qw_process_queues.
  - destruct (_cleanup_task m); [|done]. by injection Hex as <-.
  - injection Hex as <-. by apply qw_cancel_task.
  - case_decide; [|done].
    destruct (cancel_task_resume now tid ref m) as [[b m1]|] eqn:Hr; [|done].
    injection Hex as <-.
    apply (qw_ext m1); [done|done|]. by eapply qw_cancel_task_resume.
  - injection Hex as <-. by apply qw_cancel_all_tasks_begin.
Qed.

Lemma run_queued_waits ok evs m m' :
  (forall m ev, ok m ev = true -> fresh_event m ev) ->
  wf m -> queued_waits m -> run ok evs m = Some m' -> queued_waits m'.
Proof.
  intros Hok. revert m. induction evs as [|ev evs IH]; intros m Hwf Hqw; simpl.
  - by intros [= <-].
  - destruct (ok m ev) eqn:Hev; [|done].
    destruct (exec ev m) as [m1|] eqn:Hex; [|done].
    apply IH; [eapply exec_wf; eauto|by eapply exec_queued_waits].
Qed.

(** X17.  In a state the manager reaches when the ids it admits are new, a
    stored task is [queued] exactly when its id waits in the queue of its
    type: no queued task is ever left outside the queue that the queue
    processor and the done-callbacks drain, and nothing in a queue has
    started, ended or been cancelled. *)
Theorem queued_task_waits_in_its_queue limits retention m tid ref t :
  reachable unique_ids limits retention m ->
  tasks_get m tid = Some (ref, t) ->
  status t = QUEUED <-> tid ∈ task_queues m (task_type t).
Proof.
  intros Hr Hget. pose proof (reachable_wf _ _ _ Hr) as Hwf.
  destruct Hr as [evs Hrun].
  assert (Hqw : queued_waits m).
  { eapply run_queued_waits; [apply unique_ids_fresh|apply wf_init| |exact Hrun].
    intros r x Hx. apply lookup_lt_Some in Hx. simpl in Hx. lia. }
  apply tasks_get_Some in Hget as [Href Ht].
  assert (Hid : task_id t = tid).
  { pose proof (wf_tasks m Hwf _ _ Href) as Hi.
    apply ids_lookup in Hi as (x & Hx & Hi). congruence. }
  split.
  - intros Hs. rewrite <- Hid. by apply (Hqw ref t).
  - intros Hin.
    destruct (wf_queued m (task_type t) tid t Hwf Hin) as (Hs & _);
      [by eapply list_elem_of_lookup_2|done|done].
Qed.

Lemma queued_task_waits_in_its_queue_witness :
  status (object_at busy 2) = QUEUED
  <-> "t3" ∈ task_queues busy (task_type (object_at busy 2)).
Proof.
  apply (queued_task_waits_in_its_queue
           TASK_CONCURRENCY_LIMITS TASK_RETENTION_MINUTES busy "t3" 2).
  - exists busy_trace. vm_compute. reflexivity.
  - vm_compute. reflexivity.
Defined.

End BackendFacts.

(* ===================================================================== *)
(** * Facts about the Per-User Single-Flight Task Manager                  *)
(* ===================================================================== *)

Module BotFacts.
Import Bot.



Lemma set_aio_queues ref f m : user_task_queues (set_aio ref f m) = user_task_queues m.
Proof. unfold set_aio. by destruct (aio_tasks m !! ref). Qed.

Lemma set_aio_length ref f m : length (aio_tasks (set_aio ref f m)) = length (aio_tasks m).
Proof.
  unfold set_aio. destruct (aio_tasks m !! ref); [|done].
  simpl. by rewrite length_insert.
Qed.


Lemma queue_of_ext u m m' :
  user_task_queues m' = user_task_queues m -> queue_of u m' = queue_of u m.
Proof. unfold queue_of. by intros ->. Qed.


Lemma cancel_all_tasks_begin_queues m :
  user_task_queues (cancel_all_tasks_begin m) = ∅.
Proof.
  unfold cancel_all_tasks_begin.
  induction (map_to_list (user_running_tasks m)) as [|x l IH]; simpl; [done|].
  destruct (done _ _); [done|]. by rewrite set_aio_queues.
Qed.








(** ** One task at a time per user *)

Lemma set_aio_running ref f m :
  user_running_tasks (set_aio ref f m) = user_running_tasks m.
Proof. unfold set_aio. by destruct (aio_tasks m !! ref). Qed.

Lemma set_aio_waiters ref f m :
  cancel_waiters (set_aio ref f m) = cancel_waiters m.
Proof. unfold set_aio. by destruct (aio_tasks m !! ref). Qed.

Lemma set_aio_lookup ref f m r :
  aio_tasks (set_aio ref f m) !! r
  = if decide (r = ref) then f <$> aio_tasks m !! ref else aio_tasks m !! r.
Proof.
  unfold set_aio. destruct (aio_tasks m !! ref) as [a|] eqn:Ha; simpl.
  - case_decide as E.
    + subst r. apply list_lookup_insert_eq. by eapply lookup_lt_Some.
    + by apply list_lookup_insert_ne.
  - case_decide; by subst.
Qed.











(** ** Cancelling a task while another one waits *)

Lemma wrapped_begin_fields w m :
  aio_tasks (wrapped_begin w m) = aio_tasks m
  /\ user_task_queues (wrapped_begin w m) = user_task_queues m
  /\ user_running_tasks (wrapped_begin w m) = user_running_tasks m
  /\ cancel_waiters (wrapped_begin w m) = cancel_waiters m.
Proof. unfold wrapped_begin. by destruct (w_mode w). Qed.

(** X11.  A user's task is in progress and another closure of that user
    waits in the queue.  [cancel_user_task] cancels the task and waits for
    it; the [finally] clause of the cancelled task starts the waiting
    closure and records its [asyncio.Task], which takes its first step;
    [cancel_user_task] then goes on and pops the user's entry, which by now
    is the new task.  The new task is left in progress and unrecorded:
    [is_task_running] answers [False], and the next request of the user is
    started at once, in either mode, beside it. *)
Theorem cancel_user_task_forgets_next_task q u ref a next rest m f mid :
  aio_tasks m !! ref = Some a -> aio_state a = AioSuspended ->
  w_mode (coro a) = QueueMode -> w_user (coro a) = u ->
  user_running_tasks m !! u = Some ref ->
  queue_of u m = next :: rest ->
  exists m3 obs,
    run q [EvCancelUserTask u; EvEnd ref; EvStart (length (aio_tasks m));
           EvCancelResume u ref] m = Some (m3, obs)
    /\ aio_tasks m3 !! length (aio_tasks m) = Some (mkAio next AioSuspended false)
    /\ queue_of u m3 = rest
    /\ user_running_tasks m3 !! u = None
    /\ is_task_running u m3 = false
    /\ (queue_task q u f mid m3).1 = 0%Z
    /\ aio_tasks (queue_task q u f mid m3).2 !! length (aio_tasks m)
       = Some (mkAio next AioSuspended false)
    /\ exists w, aio_tasks (queue_task q u f mid m3).2 !! S (length (aio_tasks m))
                 = Some (mkAio w AioScheduled false) /\ w_func w = f.
Proof.
  intros Ha Hs Hmode Hu Hrun Hq.
  assert (Hlt : ref < length (aio_tasks m)) by by eapply lookup_lt_Some.
  (* cancel_user_task, up to its await *)
  set (m1 := set_cancel_waiters (cancel_waiters m ++ [(u, ref)])
               (set_aio ref request_cancel m)).
  assert (E1 : exec q (EvCancelUserTask u) m = Some m1).
  { simpl. unfold cancel_user_task, is_task_running, done.
    rewrite Hrun, Ha, Hs. by rewrite bool_decide_eq_false_2. }
  assert (Ha1 : aio_tasks m1 !! ref = Some (request_cancel a)).
  { subst m1. simpl. by rewrite set_aio_lookup, decide_True, Ha. }
  assert (Hl1 : length (aio_tasks m1) = length (aio_tasks m))
    by apply set_aio_length.
  (* the end of the cancelled task *)
  set (m1' := create_running_task u next
                (set_queues (<[u := rest]> (user_task_queues m1))
                   (set_running (delete u (user_running_tasks m1)) m1))).
  assert (Hfin : wrapped_finally (coro a) m1 = m1').
  { unfold wrapped_finally. cbv zeta. rewrite Hmode, Hu.
    change (queue_of u (set_running (delete u (user_running_tasks m1)) m1))
      with (queue_of u m1).
    assert (Hq1 : queue_of u m1 = next :: rest).
    { rewrite <- Hq. apply queue_of_ext. subst m1. simpl. apply set_aio_queues. }
    by rewrite Hq1. }
  set (m2 := set_aio ref (with_state AioDone) m1').
  assert (E2 : exec q (EvEnd ref) m1 = Some m2).
  { cbn [exec]. rewrite Ha1.
    change (aio_state (request_cancel a)) with (aio_state a). rewrite Hs.
    change (coro (request_cancel a)) with (coro a). by rewrite Hfin. }
  assert (Htasks1' : aio_tasks m1' = aio_tasks m1 ++ [mkAio next AioScheduled false])
    by done.
  assert (Hnew2 : aio_tasks m2 !! length (aio_tasks m)
                  = Some (mkAio next AioScheduled false)).
  { subst m2. rewrite set_aio_lookup, decide_False by lia.
    rewrite Htasks1', lookup_app_r by lia. by rewrite Hl1, Nat.sub_diag. }
  (* the first step of the task that [finally] created *)
  set (m2' := set_aio (length (aio_tasks m)) (with_state AioSuspended) m2).
  set (m2s := wrapped_begin next m2').
  assert (E2s : exec q (EvStart (length (aio_tasks m))) m2 = Some m2s).
  { cbn [exec]. by rewrite Hnew2. }
  destruct (wrapped_begin_fields next m2') as (Hf1 & Hf2 & Hf3 & Hf4).
  fold m2s in Hf1, Hf2, Hf3, Hf4.
  assert (Hnew : aio_tasks m2s !! length (aio_tasks m)
                 = Some (mkAio next AioSuspended false)).
  { rewrite Hf1. subst m2'. by rewrite set_aio_lookup, decide_True, Hnew2. }
  assert (Hdone : done m2s ref = true).
  { unfold done. rewrite Hf1. subst m2' m2.
    rewrite set_aio_lookup, decide_False by lia.
    rewrite set_aio_lookup, decide_True by done.
    rewrite Htasks1', lookup_app_l by lia. by rewrite Ha1. }
  assert (Hw : cancel_waiters m2s = cancel_waiters m ++ [(u, ref)]).
  { rewrite Hf4. subst m2' m2. by rewrite !set_aio_waiters. }
  assert (Hqs : queue_of u m2s = rest).
  { rewrite (queue_of_ext u m2' _ Hf2). subst m2'.
    rewrite (queue_of_ext u m2 _ (set_aio_queues _ _ _)). subst m2.
    rewrite (queue_of_ext u m1' _ (set_aio_queues _ _ _)).
    unfold queue_of. subst m1'. simpl. by rewrite lookup_insert_eq. }
  assert (Hls : length (aio_tasks m2s) = S (length (aio_tasks m))).
  { rewrite Hf1. subst m2' m2.
    rewrite !set_aio_length, Htasks1', length_app, Hl1. simpl. lia. }
  (* cancel_user_task, after its await *)
  set (m3 := set_cancel_waiters
               (Backend.list_remove_first (u, ref) (cancel_waiters m2s))
               (set_running (delete u (user_running_tasks m2s)) m2s)).
  assert (E3 : exec q (EvCancelResume u ref) m2s = Some m3).
  { cbn [exec].
    rewrite decide_True by (rewrite Hw, elem_of_app, list_elem_of_singleton; auto).
    by rewrite Hdone. }
  assert (Hnone : user_running_tasks m3 !! u = None).
  { subst m3. simpl. by rewrite lookup_delete_eq. }
  assert (Hir : is_task_running u m3 = false).
  { unfold is_task_running. by rewrite Hnone. }
  exists m3, (observe q (EvCancelUserTask u) m m1 ++
              observe q (EvEnd ref) m1 m2 ++
              observe q (EvStart (length (aio_tasks m))) m2 m2s ++
              observe q (EvCancelResume u ref) m2s m3 ++ []).
  split.
  { cbn [run]. rewrite E1, E2, E2s, E3. done. }
  split; [done|]. split; [done|]. split; [done|]. split; [done|].
  assert (Hqt : queue_task q u f mid m3
                = (0%Z, create_running_task u
                          (mkWrapped (if q then QueueMode else SingleMode) u f) m3)).
  { unfold queue_task, queue_task_with_queueing, queue_task_single_mode.
    cbv zeta. rewrite Hir. by destruct q. }
  rewrite Hqt. split; [done|]. split.
  - unfold create_running_task. simpl.
    rewrite lookup_app_l by (change (aio_tasks m3) with (aio_tasks m2s); lia).
    exact Hnew.
  - exists (mkWrapped (if q then QueueMode else SingleMode) u f).
    split; [|done]. unfold create_running_task. simpl.
    rewrite lookup_app_r by (change (aio_tasks m3) with (aio_tasks m2s); lia).
    change (aio_tasks m3) with (aio_tasks m2s). by rewrite Hls, Nat.sub_diag.
Qed.

Lemma cancel_user_task_forgets_next_task_witness :
  exists m3 obs,
    run true [EvCancelUserTask "alice"; EvEnd 0; EvStart 1;
              EvCancelResume "alice" 0] two_requests = Some (m3, obs)
    /\ is_task_running "alice" m3 = false
    /\ (queue_task true "alice" 3 None m3).1 = 0%Z.
Proof.
  destruct (cancel_user_task_forgets_next_task true "alice" 0
              (mkAio (mkWrapped QueueMode "alice" 1) AioSuspended false)
              (mkWrapped QueueMode "alice" 2) [] two_requests 3 None)
    as (m3 & obs & Hrun & _ & _ & _ & Hir & Hz & _).
  - vm_compute. reflexivity.
  - reflexivity.
  - reflexivity.
  - reflexivity.
  - vm_compute. reflexivity.
  - vm_compute. reflexivity.
  - exists m3, obs. split; [exact Hrun|split; [exact Hir|exact Hz]].
Defined.

(** ** Shutdown *)

Lemma cancel_all_tasks_fold l m0 :
  let m' := foldr (fun (item : string * nat) m =>
                     if done m item.2 then m else set_aio item.2 request_cancel m)
              m0 l in
  user_running_tasks m' = user_running_tasks m0
  /\ forall ref,
       aio_tasks m' !! ref
       = (fun a => if decide (aio_state a <> AioDone /\ ref ∈ l.*2)
                   then request_cancel a else a) <$> aio_tasks m0 !! ref.
Proof.
  cbv zeta. induction l as [|[u r] l [IHr IHa]]; simpl.
  { split; [done|]. intros ref. destruct (aio_tasks m0 !! ref) as [a|]; [|done].
    simpl. rewrite decide_False; [done|]. intros [_ H]. by apply elem_of_nil in H. }
  set (m1 := foldr _ m0 l) in *.
  assert (Hdone : done m1 r = done m0 r).
  { unfold done. rewrite IHa. destruct (aio_tasks m0 !! r) as [a|]; [|done].
    simpl. by case_decide. }
  rewrite Hdone. unfold done.
  destruct (aio_tasks m0 !! r) as [a|] eqn:Ha.
  - destruct (bool_decide (aio_state a = AioDone)) eqn:Hd.
    + apply bool_decide_eq_true_1 in Hd. split; [done|]. intros ref.
      rewrite IHa. destruct (aio_tasks m0 !! ref) as [b|] eqn:Hb; [|done].
      simpl. f_equal. apply decide_ext. rewrite elem_of_cons.
      split; [intros [? ?]; auto|]. intros [Hnd [->|?]]; [|done].
      rewrite Ha in Hb. injection Hb as <-. done.
    + apply bool_decide_eq_false_1 in Hd. rewrite set_aio_running.
      split; [done|]. intros ref. rewrite set_aio_lookup, !IHa.
      case_decide as E.
      * subst ref. rewrite Ha. simpl. f_equal.
        destruct (decide (aio_state a <> AioDone /\ r ∈ l.*2));
          case_decide as H; try done; destruct H; (split; [done|by left]).
      * destruct (aio_tasks m0 !! ref) as [b|]; [|done]. simpl. f_equal.
        apply decide_ext. rewrite elem_of_cons.
        split; [intros [? ?]; auto|]. by intros [Hnd [->|?]].
  - rewrite set_aio_running. split; [done|]. intros ref.
    rewrite set_aio_lookup, !IHa, Ha.
    case_decide as E; [subst ref; by rewrite Ha|].
    destruct (aio_tasks m0 !! ref) as [b|] eqn:Hb; [|done].
    simpl. f_equal. apply decide_ext. rewrite elem_of_cons.
    split; [intros [? ?]; auto|]. by intros [Hnd [->|?]].
Qed.

(** X12.  [cancel_all_tasks], up to its first [await]: every wait queue is
    gone, so no closure that was waiting is ever started by it; each
    [asyncio.Task] that [user_running_tasks] holds for some user and that
    has not ended is asked to cancel; a task that has ended, or that no
    user's entry holds, is left as it is; and [user_running_tasks] itself is
    not touched yet. *)
Theorem bot_cancel_all_tasks_cancels_recorded m ref a :
  aio_tasks m !! ref = Some a ->
  user_task_queues (cancel_all_tasks_begin m) = ∅
  /\ user_running_tasks (cancel_all_tasks_begin m) = user_running_tasks m
  /\ (aio_state a <> AioDone ->
      (exists u, user_running_tasks m !! u = Some ref) ->
      aio_tasks (cancel_all_tasks_begin m) !! ref = Some (request_cancel a))
  /\ (aio_state a = AioDone \/ (forall u, user_running_tasks m !! u <> Some ref) ->
      aio_tasks (cancel_all_tasks_begin m) !! ref = Some a).
Proof.
  intros Ha. split; [apply cancel_all_tasks_begin_queues|].
  destruct (cancel_all_tasks_fold (map_to_list (user_running_tasks m))
              (set_queues ∅ m)) as [Hr Hl].
  fold (cancel_all_tasks_begin m) in Hr, Hl.
  split; [done|].
  assert (Hin : ref ∈ (map_to_list (user_running_tasks m)).*2
                <-> exists u, user_running_tasks m !! u = Some ref).
  { rewrite list_elem_of_fmap. split.
    - intros ([u r] & -> & H%elem_of_map_to_list). by exists u.
    - intros [u H]. exists (u, ref). by rewrite elem_of_map_to_list. }
  specialize (Hl ref). simpl in Hl. rewrite Ha in Hl. simpl in Hl. split.
  - intros Hnd Hu. rewrite Hl, decide_True; [done|]. by rewrite Hin.
  - intros H. rewrite Hl, decide_False; [done|]. rewrite Hin.
    intros [Hnd [u Hu]]. destruct H as [H|H]; [done|]. by apply (H u).
Qed.

Lemma bot_cancel_all_tasks_cancels_recorded_witness :
  aio_tasks (cancel_all_tasks_begin after_three_requests.1) !! 1
  = Some (mkAio (mkWrapped QueueMode "alice" 2) AioScheduled true).
Proof.
  destruct (bot_cancel_all_tasks_cancels_recorded after_three_requests.1 1
              (mkAio (mkWrapped QueueMode "alice" 2) AioScheduled false))
    as (_ & _ & H & _).
  - vm_compute. reflexivity.
  - apply H; [discriminate|]. exists "alice". vm_compute. reflexivity.
Defined.




End BotFacts.

(* ===================================================================== *)
(** * The order in which waiting tasks start                               *)
(* ===================================================================== *)

Module Ordering.



End Ordering.


(* ===================================================================== *)
(** * Properties of the webhook rendezvous                                 *)
(* ===================================================================== *)

Module WebhookFacts.
Import Webhook.

#[local] Instance extends_preorder : PreOrder extends.
Proof.
  split.
  - intros w. exists []. by rewrite app_nil_r.
  - intros w1 w2 w3 [l1 E1] [l2 E2]. exists (l1 ++ l2).
    by rewrite E2, E1, app_assoc.
Qed.

#[local] Instance keeps_preorder : PreOrder keeps.
Proof.
  split.
  - intros w. split; [done | reflexivity].
  - intros w1 w2 w3 [H1 E1] [H2 E2]. split; [|by etrans].
    intros r. by rewrite H2, H1.
Qed.

Section Rel.

Context (R : World -> World -> Prop) `{!PreOrder R}.

Lemma Rel_ret {A} (a : A) : Rel R (ret a).
Proof. intros w. simpl. reflexivity. Qed.

Lemma Rel_raise {A} e : Rel R (@raise A e).
Proof. intros w. simpl. reflexivity. Qed.

Lemma Rel_fail_if e : Rel R (fail_if e).
Proof. destruct e; [apply Rel_raise | apply Rel_ret]. Qed.

Lemma Rel_read_table : Rel R read_table.
Proof. intros w. simpl. reflexivity. Qed.

(** Sequencing, when the first computation only returns values in [P]. *)
Lemma Rel_bind_gen {A B} (P : A -> Prop) (c : M A) (k : A -> M B) :
  Rel R c -> (forall w a, (c w).1 = inl a -> P a) ->
  (forall a, P a -> Rel R (k a)) -> Rel R (bind c k).
Proof.
  intros Hc HP Hk w. unfold bind. specialize (Hc w). specialize (HP w).
  destruct (c w) as [[a|e] w1]; simpl in *; [|done].
  etrans; [exact Hc|]. apply Hk. by apply HP.
Qed.

Lemma Rel_bind {A B} (c : M A) (k : A -> M B) :
  Rel R c -> (forall a, Rel R (k a)) -> Rel R (bind c k).
Proof. intros. apply (Rel_bind_gen (fun _ => True)); auto. Qed.

Lemma Rel_try {A} (c : M A) h :
  Rel R c -> (forall e, Rel R (h e)) -> Rel R (try_except c h).
Proof.
  intros Hc Hh w. unfold try_except. specialize (Hc w).
  destruct (c w) as [[a|e] w1]; simpl in *; [done|].
  etrans; [exact Hc|]. apply Hh.
Qed.

End Rel.

Lemma keeps_extends {A} (c : M A) : Rel keeps c -> Rel extends c.
Proof. intros H w. apply H. Qed.

Lemma extends_call c : Rel extends (call c).
Proof. intros w. by exists [c]. Qed.

Lemma keeps_call c : Rel keeps (call c).
Proof. intros w. split; [done | apply extends_call]. Qed.

Lemma extends_table_update r upd : Rel extends (table_update r upd).
Proof.
  intros w. unfold table_update, bind, read_table, write_table, ret. simpl.
  destruct (stt_files w !! r); simpl; exists []; by rewrite app_nil_r.
Qed.

(** An update that does not name the column leaves it as it was. *)
Lemma keeps_table_update r upd :
  upd !! "delivered_to_user" = None -> Rel keeps (table_update r upd).
Proof.
  intros Hu w. split; [|apply extends_table_update].
  unfold table_update, bind, read_table, write_table, ret. simpl.
  destruct (stt_files w !! r) as [row|] eqn:E; simpl; [|done].
  intros r'. unfold delivered_to_user. simpl.
  destruct (decide (r = r')) as [->|Hne].
  - rewrite lookup_insert_eq, E. simpl. by rewrite lookup_union_r.
  - by rewrite lookup_insert_ne.
Qed.

(** Descends through a computation, leaving the steps that are not plain
    sequencing. *)
Ltac rel :=
  lazymatch goal with
  | |- Rel _ (ret _) => apply Rel_ret; apply _
  | |- Rel _ (raise _) => apply Rel_raise; apply _
  | |- Rel extends (call _) => apply extends_call
  | |- Rel keeps (call _) => apply keeps_call
  | |- Rel extends (table_update _ _) => apply extends_table_update
  | |- Rel _ (fail_if _) => apply Rel_fail_if; apply _
  | |- Rel _ read_table => apply Rel_read_table; apply _
  | |- Rel _ (bind _ _) => apply Rel_bind; [apply _ | rel | intros ?; rel]
  | |- Rel _ (try_except _ _) => apply Rel_try; [apply _ | rel | intros ?; rel]
  | |- Rel _ (match _ with _ => _ end) => case_match; rel
  | |- _ => idtac
  end.

Lemma extends_update_stt_record o r upd : Rel extends (update_stt_record o r upd).
Proof. unfold update_stt_record. rel. Qed.

Lemma keeps_update_stt_record o r upd :
  upd !! "delivered_to_user" = None -> Rel keeps (update_stt_record o r upd).
Proof.
  intros Hu. unfold update_stt_record.
  apply Rel_try; [apply _| |intros; rel].
  set (upd1 := match upd !! "status" with Some (VStr s) => _ | _ => _ end).
  assert (H1 : upd1 !! "delivered_to_user" = None).
  { subst upd1. repeat case_match; try done; by rewrite lookup_insert_ne. }
  clearbody upd1.
  apply (Rel_bind_gen _ (fun u => u !! "delivered_to_user" = None)).
  - rel.
  - intros w a. unfold bind, call, fail_if, read_table, try_except, ret, raise.
    repeat (case_match; simpl in *; simplify_eq; try done);
      intros; simpl in *; simplify_eq;
      rewrite ?lookup_insert_ne, ?lookup_delete_ne by done; done.
  - intros a Ha. rel. by apply keeps_table_update.
Qed.

(** When nothing raises, an update without a document returns. *)
Lemma update_stt_record_returns o r upd w :
  upd !! "transcription_docx" = None ->
  update_error o = None ->
  exists rows, (update_stt_record o r upd w).1 = inl rows.
Proof.
  intros Hd He. unfold update_stt_record.
  set (upd1 := match upd !! "status" with Some (VStr s) => _ | _ => _ end).
  assert (H1 : upd1 !! "transcription_docx" = None).
  { subst upd1. repeat case_match; try done; by rewrite lookup_insert_ne. }
  clearbody upd1.
  unfold table_update.
  unfold try_except, bind, call, fail_if, read_table, write_table, ret, raise.
  rewrite H1, He. simpl. rewrite H1. simpl.
  destruct (stt_files w !! r); simpl; eauto.
Qed.

Section Handlers.

Variable py_int coerce_int : string -> option Z.
Variable cfg : Config.

Abbreviation webhook := (assemblyai_webhook py_int coerce_int cfg).

Lemma extends_bot_update_stt_record o r upd :
  Rel extends (bot_update_stt_record o r upd).
Proof. unfold bot_update_stt_record. rel. Qed.

Lemma extends_send_message_to_user o data :
  Rel extends (send_message_to_user cfg o data).
Proof. unfold send_message_to_user. rel. apply extends_bot_update_stt_record. Qed.

(** The delivery endpoint touches the column only for a message whose
    metadata names an [stt_record_id]. *)
Lemma keeps_send_message_to_user o data :
  (forall md, metadata data = Some md -> md !! "stt_record_id" = None) ->
  Rel keeps (send_message_to_user cfg o data).
Proof.
  intros Hmd. unfold send_message_to_user. rel.
  exfalso.
  match goal with
  | H0 : _ && bool_decide (is_Some (?g !! _)) = true |- _ =>
      apply andb_prop in H0 as [_ H0]; apply bool_decide_eq_true in H0;
      rewrite (Hmd g) in H0 by done; by destruct H0
  end.
Qed.

Lemma validate_failure_notice chat :
  validate coerce_int (failure_notice chat) =
  Some (mkSendMessage chat None None
          "Sorry, there was an error processing your audio transcription."
          None None None None None).
Proof. reflexivity. Qed.

Lemma extends_post_send_message_to_user o p :
  Rel extends (post_send_message_to_user coerce_int cfg o p).
Proof.
  unfold post_send_message_to_user. rel. apply extends_send_message_to_user.
Qed.

(** The post itself is the first call of a post. *)
Lemma post_send_message_to_user_calls o p w :
  exists l, calls (post_send_message_to_user coerce_int cfg o p w).2
            = calls w ++ PostSendMessage p :: l.
Proof.
  unfold post_send_message_to_user.
  set (k := fun _ : unit => _).
  assert (Hk : Rel extends (k tt)).
  { subst k. simpl. rel. apply extends_send_message_to_user. }
  unfold bind at 1, call. simpl.
  destruct (Hk (mkWorld (stt_files w) (calls w ++ [PostSendMessage p]))) as [l Hl].
  exists l. rewrite Hl. simpl. by rewrite <- app_assoc.
Qed.

Lemma keeps_post_failure_notice o chat :
  Rel keeps (post_send_message_to_user coerce_int cfg o (failure_notice chat)).
Proof.
  unfold post_send_message_to_user. rewrite validate_failure_notice.
  rel. by apply keeps_send_message_to_user.
Qed.

Lemma keeps_webhook_error o t_id chat :
  Rel keeps (webhook_error coerce_int cfg o t_id chat).
Proof.
  unfold webhook_error. rel.
  - by apply keeps_update_stt_record.
  - apply keeps_post_failure_notice.
Qed.

Lemma extends_webhook_completed o req t_id chat thread tr :
  Rel extends (webhook_completed coerce_int cfg o req t_id chat thread tr).
Proof.
  unfold webhook_completed, post_process_message. rel;
    first [apply extends_update_stt_record | apply extends_post_send_message_to_user].
Qed.

Lemma keeps_check_stt_record_delivery o r :
  Rel keeps (check_stt_record_delivery o r).
Proof. unfold check_stt_record_delivery. rel. Qed.

Lemma extends_webhook_accepted o req chat :
  Rel extends (webhook_accepted coerce_int cfg o req chat).
Proof.
  unfold webhook_accepted. rel.
  - apply keeps_extends, keeps_check_stt_record_delivery.
  - apply extends_webhook_completed.
  - apply keeps_extends, keeps_webhook_error.
Qed.

Lemma extends_webhook o req : Rel extends (webhook o req).
Proof. unfold assemblyai_webhook. rel. apply extends_webhook_accepted. Qed.

(** Whatever else happens to it, a request whose body does not say
    [completed] leaves every [delivered_to_user] column as it was. *)
Lemma keeps_webhook_not_completed o req :
  (forall b, body req = Some b -> status b <> Some "completed") ->
  Rel keeps (webhook o req).
Proof.
  intros Hb. unfold assemblyai_webhook.
  apply Rel_try; [apply _| |intros; rel].
  do 4 (case_match; [rel|]).
  case_match; [|rel].
  unfold webhook_accepted.
  apply Rel_bind; [apply _|apply keeps_check_stt_record_delivery|].
  intros delivered.
  case_match; [rel|].
  apply (Rel_bind_gen _ (fun b => status b <> Some "completed")).
  - rel.
  - intros w b. destruct (body req) as [b'|] eqn:E; simpl; [|done].
    intros [= <-]. by apply Hb.
  - intros b Hne. case_match; [rel|].
    rewrite bool_decide_eq_false_2 by done.
    rel. apply keeps_webhook_error.
Qed.

(** The world is untouched by a request that is turned away at the door. *)
Lemma webhook_unauthorized o req w :
  str_truthy (webhook_secret cfg) = true ->
  secret_matches cfg req = false ->
  webhook o req w =
    (inl (JSONResponse 401 "Unauthorized: Invalid webhook secret"), w).
Proof.
  intros Hs Hm. unfold assemblyai_webhook, secret_matches in *.
  rewrite Hs. simpl.
  destruct (str_truthy (x_webhook_secret req)); simpl in *; [|done].
  by rewrite Hm.
Qed.

Lemma secret_check_passes req :
  str_truthy (webhook_secret cfg) = false \/ secret_matches cfg req = true ->
  str_truthy (webhook_secret cfg)
  && (negb (str_truthy (x_webhook_secret req))
      || negb (bool_decide (x_webhook_secret req = webhook_secret cfg))) = false.
Proof.
  intros [->|Hm]; [done|]. unfold secret_matches in Hm.
  apply andb_prop in Hm as [-> ->]. simpl. apply andb_false_r.
Qed.

Lemma webhook_bad_request o req w :
  (str_truthy (webhook_secret cfg) = false \/ secret_matches cfg req = true) ->
  identifiers_valid py_int req = false ->
  exists msg, webhook o req w = (inl (JSONResponse 400 msg), w).
Proof.
  intros Ha Hv. unfold assemblyai_webhook, try_except, identifiers_valid in *.
  rewrite (secret_check_passes _ Ha).
  destruct (str_truthy (q_t_id req)); simpl in *; [|by eexists].
  destruct (str_truthy (q_chat_id req)); simpl in *; [|by eexists].
  destruct (str_truthy (q_db_thread_id req)); simpl in *; [|by eexists].
  destruct (py_int (default "" (q_chat_id req))) as [chat|]; simpl in *;
    [|by eexists].
  done.
Qed.

Lemma identifiers_valid_inv req :
  identifiers_valid py_int req = true ->
  str_truthy (q_t_id req) = true /\ str_truthy (q_chat_id req) = true
  /\ str_truthy (q_db_thread_id req) = true
  /\ exists chat, py_int (default "" (q_chat_id req)) = Some chat.
Proof.
  unfold identifiers_valid. intros H.
  apply andb_prop in H as [H H4]. apply andb_prop in H as [H H3].
  apply andb_prop in H as [H1 H2]. apply bool_decide_eq_true in H4 as [chat H4].
  eauto 10.
Qed.

(** Past the door, the handler starts with the delivery check. *)
Lemma webhook_admitted o req w chat :
  (str_truthy (webhook_secret cfg) = false \/ secret_matches cfg req = true) ->
  identifiers_valid py_int req = true ->
  py_int (default "" (q_chat_id req)) = Some chat ->
  webhook o req w =
    try_except (webhook_accepted coerce_int cfg o req chat)
      (fun e => ret (JSONResponse 500 ("Internal server error: " +:+ e))) w.
Proof.
  intros Ha Hv H4. apply identifiers_valid_inv in Hv as (H1 & H2 & H3 & _).
  unfold assemblyai_webhook.
  by rewrite (secret_check_passes _ Ha), H1, H2, H3, H4.
Qed.

Lemma check_stt_record_delivery_run o r w :
  check_error o = None ->
  check_stt_record_delivery o r w =
    (inl (default (VBool false) (delivered_to_user w r)),
     mkWorld (stt_files w) (calls w ++ [CheckDelivery r])).
Proof.
  intros He. unfold check_stt_record_delivery, try_except, bind, call, fail_if,
    read_table, delivered_to_user. rewrite He. simpl.
  by destruct (stt_files w !! r).
Qed.

Lemma check_stt_record_delivery_effect o r w :
  (check_stt_record_delivery o r w).2 =
    mkWorld (stt_files w) (calls w ++ [CheckDelivery r]).
Proof.
  unfold check_stt_record_delivery, try_except, bind, call, fail_if, read_table.
  simpl. destruct (check_error o); simpl; [done|].
  by destruct (stt_files w !! r).
Qed.


(** An error-status request that is let in, for a record not yet
    delivered: the failure notice is posted and the request acknowledged. *)
Lemma webhook_error_run o req chat b w :
  (str_truthy (webhook_secret cfg) = false \/ secret_matches cfg req = true) ->
  identifiers_valid py_int req = true ->
  py_int (default "" (q_chat_id req)) = Some chat ->
  body req = Some b -> status b = Some "error" ->
  str_truthy (transcript_id b) = true ->
  str_truthy (TAGENT_LOCAL_URL cfg) = true ->
  str_truthy (OUR_SECRET_TOKEN cfg) = true ->
  is_delivered w (default "" (q_t_id req)) = false ->
  check_error o = None -> update_error o = None ->
  exists w' l,
    webhook o req w = (inl (Processed (now o)), w')
    /\ calls w' = calls w ++ l
    /\ PostSendMessage (failure_notice chat) ∈ l.
Proof.
  intros Ha Hv Hc Hb Hs Ht Hu Hk Hd He1 He2.
  rewrite (webhook_admitted o req w chat) by done.
  unfold webhook_accepted, try_except at 1, bind at 1.
  rewrite check_stt_record_delivery_run by done.
  unfold is_delivered in Hd. rewrite Hd, Hb. unfold bind at 1, ret at 1.
  rewrite Hs, Ht. simpl.
  unfold bind at 1, webhook_error, bind at 1.
  set (w1 := mkWorld _ _).
  destruct (update_stt_record_returns o (default "" (q_t_id req))
              {[ "status" := VStr "error";
                 "error" := VStr "Transcription failed at AssemblyAI";
                 "processed_at" := VInt (now o) ]} w1) as [rows Hrows];
    [done|done|].
  pose proof (extends_update_stt_record o (default "" (q_t_id req))
              {[ "status" := VStr "error";
                 "error" := VStr "Transcription failed at AssemblyAI";
                 "processed_at" := VInt (now o) ]} w1) as [l1 Hl1].
  destruct (update_stt_record _ _ _ w1) as [[rows'|e] w2]; simpl in *; [|done].
  rewrite Hu, Hk. simpl.
  unfold try_except, bind at 1.
  destruct (post_send_message_to_user_calls o (failure_notice chat) w2) as [l2 Hl2].
  destruct (post_send_message_to_user coerce_int cfg o (failure_notice chat) w2)
    as [[code|e] w3]; simpl in *.
  - eexists _, _. split; [done|]. split.
    + rewrite Hl2, Hl1. rewrite <- !app_assoc. reflexivity.
    + rewrite !elem_of_app. right. right. apply list_elem_of_here.
  - eexists _, _. split; [done|]. split.
    + rewrite Hl2, Hl1. rewrite <- !app_assoc. reflexivity.
    + rewrite !elem_of_app. right. right. apply list_elem_of_here.
Qed.


(** ** The delivered flag makes a repeated webhook a no-op *)

(** C2.  For a request whose record already has a true [delivered_to_user],
    the handler changes no record and makes no call besides the delivery
    check: no transcript is fetched, no record updated, nothing posted to
    the user.  When the request carries the configured secret and valid
    identifiers, and the check itself does not raise, the answer is the
    success acknowledgement and the check is the only call made. *)
Theorem delivered_webhook_is_noop o req w t_id :
  q_t_id req = Some t_id ->
  is_delivered w t_id = true ->
  exists r w',
    webhook o req w = (inl r, w')
    /\ stt_files w' = stt_files w
    /\ (calls w' = calls w \/ calls w' = calls w ++ [CheckDelivery t_id])
    /\ ((str_truthy (webhook_secret cfg) = false \/ secret_matches cfg req = true) ->
        identifiers_valid py_int req = true ->
        check_error o = None ->
        r = AlreadyDelivered /\ status_code_of r = 200%Z
        /\ calls w' = calls w ++ [CheckDelivery t_id]).
Proof.
  intros Ht Hd.
  destruct (str_truthy (webhook_secret cfg)) eqn:Hs;
    [destruct (secret_matches cfg req) eqn:Hm|].
  2: { rewrite webhook_unauthorized by done. eexists _, _.
       split; [done|]. split; [done|]. split; [by left|].
       by intros [|]. }
  all: assert (Ha : str_truthy (webhook_secret cfg) = false
                    \/ secret_matches cfg req = true) by (rewrite ?Hs; auto).
  all: destruct (identifiers_valid py_int req) eqn:Hv.
  all: try (destruct (webhook_bad_request o req w Ha Hv) as [msg ->];
            eexists _, _; split; [done|]; split; [done|]; split; [by left|];
            by intros).
  all: destruct (identifiers_valid_inv _ Hv) as (_ & _ & _ & chat & Hc).
  all: rewrite (webhook_admitted o req w chat) by done.
  all: unfold webhook_accepted, try_except at 1, bind at 1; rewrite Ht; simpl.
  all: destruct (check_error o) as [e|] eqn:He.
  all: try (rewrite check_stt_record_delivery_run by done;
            unfold is_delivered in Hd; rewrite Hd; simpl;
            eexists _, _; split; [done|]; simpl; split; [done|];
            split; [by right|]; by intros).
  all: unfold check_stt_record_delivery, try_except, bind, call, fail_if;
       rewrite He; simpl;
       eexists _, _; split; [done|]; simpl; split; [done|];
       split; [by right|]; by intros.
Qed.

(** ** Rejections *)


(** ** The error branch and the delivered flag *)

(** C10.  The delivery endpoint leaves every [delivered_to_user] column as
    it was unless the message carries an [stt_record_id] in its metadata;
    the failure notice carries no metadata; so an error-status webhook never
    changes a [delivered_to_user] column, and when it is sent again for a
    record that was not delivered, it is processed again: the failure notice
    is posted a second time and the answer is not the already-delivered
    one. *)
Theorem error_webhook_never_marks_delivered :
  (forall o data w r,
     (forall md, metadata data = Some md -> md !! "stt_record_id" = None) ->
     delivered_to_user (send_message_to_user cfg o data w).2 r
     = delivered_to_user w r)
  /\ (forall chat, p_metadata (failure_notice chat) = None)
  /\ (forall o req w b r,
        body req = Some b -> status b = Some "error" ->
        delivered_to_user (webhook o req w).2 r = delivered_to_user w r)
  /\ (forall o1 o2 req w b chat,
        (str_truthy (webhook_secret cfg) = false \/ secret_matches cfg req = true) ->
        identifiers_valid py_int req = true ->
        py_int (default "" (q_chat_id req)) = Some chat ->
        body req = Some b -> status b = Some "error" ->
        str_truthy (transcript_id b) = true ->
        str_truthy (TAGENT_LOCAL_URL cfg) = true ->
        str_truthy (OUR_SECRET_TOKEN cfg) = true ->
        is_delivered w (default "" (q_t_id req)) = false ->
        check_error o1 = None -> update_error o1 = None ->
        check_error o2 = None -> update_error o2 = None ->
        exists w1 w2 l1 l2,
          webhook o1 req w = (inl (Processed (now o1)), w1)
          /\ webhook o2 req w1 = (inl (Processed (now o2)), w2)
          /\ calls w1 = calls w ++ l1 /\ calls w2 = calls w1 ++ l2
          /\ PostSendMessage (failure_notice chat) ∈ l1
          /\ PostSendMessage (failure_notice chat) ∈ l2).
Proof.
  split; [|split; [done|split]].
  - intros o data w r Hmd. by apply (keeps_send_message_to_user o data Hmd w).
  - intros o req w b r Hb Hs.
    assert (Hne : forall b', body req = Some b' -> status b' <> Some "completed").
    { intros b' Hb'. rewrite Hb in Hb'. injection Hb' as <-. by rewrite Hs. }
    apply (proj1 (keeps_webhook_not_completed o req Hne w)).
  - intros o1 o2 req w b chat Ha Hv Hc Hb Hs Ht Hu Hk Hd Hc1 Hu1 Hc2 Hu2.
    destruct (webhook_error_run o1 req chat b w) as (w1 & l1 & E1 & Hl1 & Hp1);
      try done.
    assert (Hne : forall b', body req = Some b' -> status b' <> Some "completed").
    { intros b' Hb'. rewrite Hb in Hb'. injection Hb' as <-. by rewrite Hs. }
    assert (Hd1 : is_delivered w1 (default "" (q_t_id req)) = false).
    { unfold is_delivered. replace w1 with (webhook o1 req w).2 by by rewrite E1.
      by rewrite (proj1 (keeps_webhook_not_completed o1 req Hne w)). }
    destruct (webhook_error_run o2 req chat b w1) as (w2 & l2 & E2 & Hl2 & Hp2);
      try done.
    by exists w1, w2, l1, l2.
Qed.

End Handlers.


Lemma delivered_webhook_is_noop_witness :
  let '(r, w') :=
    assemblyai_webhook decimal_int decimal_int cfg_secret quiet
      (request (Some "token") (Some "42") "completed") (world true) in
  r = inl AlreadyDelivered
  /\ stt_files w' = stt_files (world true)
  /\ calls w' = [CheckDelivery "rec-1"].
Proof.
  destruct (delivered_webhook_is_noop decimal_int decimal_int cfg_secret quiet
              (request (Some "token") (Some "42") "completed") (world true)
              "rec-1")
    as (r & w' & E & Hs & _ & Hok); [reflexivity | by vm_compute |].
  rewrite E.
  destruct Hok as (-> & _ & ->);
    [right; by vm_compute | by vm_compute | reflexivity |].
  done.
Defined.


Lemma error_webhook_never_marks_delivered_witness :
  exists w1 w2 l1 l2,
    assemblyai_webhook decimal_int decimal_int cfg_secret quiet
      (request (Some "token") (Some "42") "error") (world false)
    = (inl (Processed (now quiet)), w1)
    /\ assemblyai_webhook decimal_int decimal_int cfg_secret quiet
         (request (Some "token") (Some "42") "error") w1
       = (inl (Processed (now quiet)), w2)
    /\ calls w1 = calls (world false) ++ l1 /\ calls w2 = calls w1 ++ l2
    /\ PostSendMessage (failure_notice 42) ∈ l1
    /\ PostSendMessage (failure_notice 42) ∈ l2.
Proof.
  apply (proj2 (proj2 (proj2
           (error_webhook_never_marks_delivered decimal_int decimal_int cfg_secret)))
         quiet quiet (request (Some "token") (Some "42") "error") (world false)
         (mkBody (Some "tr-1") (Some "error")) 42%Z);
    first [right; by vm_compute | by vm_compute].
Defined.


(** ** What the delivery endpoint answers *)

Lemma bind_run {A B} (c : M A) (k : A -> M B) w :
  bind c k w = match c w with
               | (inl a, w') => k a w'
               | (inr e, w') => (inr e, w')
               end.
Proof. reflexivity. Qed.

Lemma try_except_run {A} (c : M A) h w :
  try_except c h w = match c w with
                     | (inl a, w') => (inl a, w')
                     | (inr e, w') => h e w'
                     end.
Proof. reflexivity. Qed.

Section Delivery.

Variable py_int coerce_int : string -> option Z.
Variable cfg : Config.

(** The Telegram send of [send_message_to_user]: one of the three calls,
    which raises when Telegram does. *)
Lemma telegram_send_run o data msg w :
  exists c,
    (if str_truthy (file_url data) && str_truthy (file_type data) then
       call (TgSendFile (chat_id data) (default "" (file_url data))
               (default "" (file_type data))
               (if str_truthy (caption data) then default "" (caption data) else msg)
               (file_name data)
               (if int_truthy (message_id data) then message_id data else None)) ;;;
       fail_if (tg_send_error o)
     else if int_truthy (message_id data) then
       call (TgSendReply (chat_id data) msg (default 0%Z (message_id data))) ;;;
       fail_if (tg_send_error o)
     else
       call (TgSendMessage (chat_id data) msg) ;;;
       fail_if (tg_send_error o)) w
    = (match tg_send_error o with Some e => inr e | None => inl tt end,
       mkWorld (stt_files w) (calls w ++ [c])).
Proof.
  unfold bind, call, fail_if, ret, raise.
  destruct (str_truthy (file_url data) && str_truthy (file_type data));
    [|destruct (int_truthy (message_id data))];
    eexists; destruct (tg_send_error o); reflexivity.
Qed.

(** The deletion of the temporary message never raises and changes no
    record. *)
Lemma delete_temp_run o data w :
  exists l,
    (if int_truthy (temp_msg_id data) then
       try_except
         (call (TgDeleteMessage (chat_id data) (default 0%Z (temp_msg_id data))) ;;;
          fail_if (tg_delete_error o))
         (fun _ => ret tt)
     else ret tt) w
    = (inl tt, mkWorld (stt_files w) (calls w ++ l)).
Proof.
  unfold try_except, bind, call, fail_if, ret, raise.
  destruct (int_truthy (temp_msg_id data)).
  - exists [TgDeleteMessage (chat_id data) (default 0%Z (temp_msg_id data))].
    by destruct (tg_delete_error o).
  - exists []. rewrite app_nil_r. by destruct w.
Qed.

(** The update of the flag never raises. *)
Lemma mark_delivered_run o data w :
  exists w',
    (match metadata data with
     | Some md =>
         if negb (bool_decide (md = ∅)) && bool_decide (is_Some (md !! "stt_record_id"))
         then
           try_except
             (bot_update_stt_record o (default "" (md !! "stt_record_id"))
                {[ "delivered_to_user" := VBool true ]} ;;;
              ret tt)
             (fun _ => ret tt)
         else ret tt
     | None => ret tt
     end) w
    = (inl tt, w').
Proof.
  destruct (metadata data) as [md|]; [|by eexists].
  case_match; [|by eexists].
  unfold try_except, bind.
  destruct (bot_update_stt_record _ _ _ w) as [[rows|e] w']; by eexists.
Qed.

Lemma send_message_to_user_unfold o data w :
  chat_id data <> 0%Z -> message data <> "" ->
  exists c l,
    let w1 := mkWorld (stt_files w) (calls w ++ [c]) in
    let w2 := mkWorld (stt_files w) ((calls w ++ [c]) ++ l) in
    send_message_to_user cfg o data w
    = match tg_send_error o with
      | Some e => (inl false, w1)
      | None =>
          (inl true,
           ((match metadata data with
             | Some md =>
                 if negb (bool_decide (md = ∅))
                    && bool_decide (is_Some (md !! "stt_record_id"))
                 then
                   try_except
                     (bot_update_stt_record o (default "" (md !! "stt_record_id"))
                        {[ "delivered_to_user" := VBool true ]} ;;;
                      ret tt)
                     (fun _ => ret tt)
                 else ret tt
             | None => ret tt
             end) w2).2)
      end.
Proof.
  intros Hc Hm. unfold send_message_to_user.
  set (msg := if is_essentially_empty (message data) then _ else _).
  destruct (telegram_send_run o data msg w) as [c Hsend].
  destruct (delete_temp_run o data (mkWorld (stt_files w) (calls w ++ [c])))
    as [l Hdel].
  exists c, l. cbv zeta.
  rewrite try_except_run, bind_run.
  rewrite (proj2 (Z.eqb_neq _ _) Hc). unfold ret at 1.
  rewrite bind_run, bool_decide_eq_false_2 by done. unfold ret at 1.
  rewrite bind_run. fold msg. rewrite Hsend.
  destruct (tg_send_error o) as [e|]; [done|].
  rewrite bind_run, Hdel, bind_run. cbn [stt_files calls].
  destruct (mark_delivered_run o data
              (mkWorld (stt_files w) ((calls w ++ [c]) ++ l))) as [w' ->].
  done.
Qed.

(** A message without a chat id or without text is turned away before
    anything is sent. *)
Lemma send_message_to_user_invalid o data w :
  chat_id data = 0%Z \/ message data = "" ->
  send_message_to_user cfg o data w = (inl false, w).
Proof.
  intros Hbad. unfold send_message_to_user. rewrite try_except_run, bind_run.
  destruct (decide (chat_id data = 0%Z)) as [Hc|Hc]; [by rewrite Hc|].
  destruct Hbad as [?|Hm]; [done|].
  rewrite (proj2 (Z.eqb_neq _ _) Hc). unfold ret at 1.
  by rewrite bind_run, Hm.
Qed.

(** The endpoint answers, and an answer after a failed send comes with an
    unchanged table. *)
Lemma send_message_to_user_answers o data w :
  exists b w',
    send_message_to_user cfg o data w = (inl b, w')
    /\ (tg_send_error o <> None -> stt_files w' = stt_files w).
Proof.
  destruct (decide (chat_id data = 0%Z)) as [Hc|Hc].
  { rewrite send_message_to_user_invalid by auto. by eexists _, _. }
  destruct (decide (message data = "")) as [Hm|Hm].
  { rewrite send_message_to_user_invalid by auto. by eexists _, _. }
  destruct (send_message_to_user_unfold o data w Hc Hm) as (c & l & ->).
  destruct (tg_send_error o) as [e|]; eexists _, _; (split; [done|]); done.
Qed.

(** X13.  [send_message_to_user] never raises: it answers with a success
    flag.  The flag is [True] exactly when the chat id is not zero, the
    message is not empty and the Telegram send did not raise; whether the
    temporary message could be deleted and whether the record could be
    marked do not change it.  When the flag is [False], the table
    [stt_files] is as it was, so nothing was marked delivered. *)
Theorem send_message_to_user_outcome o data w :
  exists b w',
    send_message_to_user cfg o data w = (inl b, w')
    /\ (b = true <->
        chat_id data <> 0%Z /\ message data <> "" /\ tg_send_error o = None)
    /\ (b = false -> stt_files w' = stt_files w).
Proof.
  destruct (decide (chat_id data = 0%Z)) as [Hc|Hc].
  { exists false, w. rewrite send_message_to_user_invalid by auto.
    split; [done|]. split; [|done]. split; [done|]. by intros [? _]. }
  destruct (decide (message data = "")) as [Hm|Hm].
  { exists false, w. rewrite send_message_to_user_invalid by auto.
    split; [done|]. split; [|done]. split; [done|]. by intros (_ & ? & _). }
  destruct (send_message_to_user_unfold o data w Hc Hm) as (c & l & ->).
  destruct (tg_send_error o) as [e|].
  - eexists _, _. split; [done|]. split; [|done]. split; [done|].
    by intros (_ & _ & ?).
  - eexists _, _. split; [done|]. split; [done|]. done.
Qed.


(** ** A delivery that fails marks nothing *)

Lemma keeps_send_message_to_user_failed o data :
  tg_send_error o <> None -> Rel keeps (send_message_to_user cfg o data).
Proof.
  intros He w. split; [|apply extends_send_message_to_user].
  destruct (send_message_to_user_answers o data w) as (b & w' & E & Hf).
  rewrite E. simpl. intros r. unfold delivered_to_user. by rewrite Hf.
Qed.

Lemma keeps_post_send_message_to_user_failed o p :
  tg_send_error o <> None \/ send_rate_limited o = true ->
  Rel keeps (post_send_message_to_user coerce_int cfg o p).
Proof.
  intros Hf. unfold post_send_message_to_user. rel.
  destruct Hf as [Hf|Hf]; [|congruence].
  by apply keeps_send_message_to_user_failed.
Qed.

Lemma keeps_webhook_completed_failed o req t_id chat thread tr :
  tg_send_error o <> None \/ send_rate_limited o = true ->
  Rel keeps (webhook_completed coerce_int cfg o req t_id chat thread tr).
Proof.
  intros Hf. unfold webhook_completed, post_process_message. rel;
    first [ by apply keeps_post_send_message_to_user_failed
          | apply keeps_update_stt_record; repeat case_match; done ].
Qed.

(** X14.  When Telegram refuses the message, or the delivery endpoint is
    rate limited, no request to the webhook, whatever it carries, changes a
    [delivered_to_user] column: a record is only ever marked delivered after
    a send that went through. *)
Theorem undelivered_message_is_not_marked o req w r :
  tg_send_error o <> None \/ send_rate_limited o = true ->
  delivered_to_user (assemblyai_webhook py_int coerce_int cfg o req w).2 r
  = delivered_to_user w r.
Proof.
  intros Hf.
  cut (Rel keeps (assemblyai_webhook py_int coerce_int cfg o req)).
  { intros H. apply (proj1 (H w)). }
  unfold assemblyai_webhook. rel. unfold webhook_accepted. rel.
  - apply keeps_check_stt_record_delivery.
  - by apply keeps_webhook_completed_failed.
  - apply keeps_webhook_error.
Qed.


(** ** A delivery that goes through marks the record *)

#[local] Instance rows_kept_preorder : PreOrder rows_kept.
Proof.
  split.
  - by intros w r.
  - intros w1 w2 w3 H12 H23 r Hr. by apply H23, H12.
Qed.

Lemma rows_kept_call c : Rel rows_kept (call c).
Proof. by intros w r. Qed.

Lemma rows_kept_table_update r upd : Rel rows_kept (table_update r upd).
Proof.
  intros w r'. unfold table_update, bind, read_table, write_table, ret. simpl.
  destruct (stt_files w !! r) as [row|] eqn:E; simpl; [|done].
  destruct (decide (r = r')) as [->|Hne].
  - by rewrite lookup_insert_eq.
  - by rewrite lookup_insert_ne.
Qed.

Lemma rows_kept_update_stt_record o r upd : Rel rows_kept (update_stt_record o r upd).
Proof.
  unfold update_stt_record.
  rel; first [apply rows_kept_call | apply rows_kept_table_update].
Qed.

Lemma bind_call {B} c (k : unit -> M B) w :
  bind (call c) k w = k tt (mkWorld (stt_files w) (calls w ++ [c])).
Proof. reflexivity. Qed.

Lemma bind_ret {A B} (a : A) (k : A -> M B) w : bind (ret a) k w = k a w.
Proof. reflexivity. Qed.

Lemma bot_update_stt_record_run o r upd w row :
  bot_update_error o = None -> stt_files w !! r = Some row ->
  bot_update_stt_record o r upd w
  = (inl [upd ∪ row],
     mkWorld (<[r := upd ∪ row]> (stt_files w)) (calls w ++ [UpdateRecord r upd])).
Proof.
  intros He Hrow.
  unfold bot_update_stt_record. rewrite try_except_run, bind_call, He.
  unfold fail_if. rewrite bind_ret. unfold table_update, read_table.
  rewrite bind_run. cbn [stt_files]. by rewrite Hrow.
Qed.

Lemma send_message_to_user_delivers o data w md r row :
  chat_id data <> 0%Z -> message data <> "" -> tg_send_error o = None ->
  metadata data = Some md -> md !! "stt_record_id" = Some r ->
  stt_files w !! r = Some row -> bot_update_error o = None ->
  exists w',
    send_message_to_user cfg o data w = (inl true, w')
    /\ delivered_to_user w' r = Some (VBool true).
Proof.
  intros Hc Hm Hsend Hmd Hr Hrow Hupd.
  destruct (send_message_to_user_unfold o data w Hc Hm) as (c & l & E).
  cbv zeta in E. rewrite Hsend, Hmd in E. rewrite E. eexists. split; [done|].
  assert (Hne : md <> ∅) by (intros ->; by rewrite lookup_empty in Hr).
  rewrite bool_decide_eq_false_2 by done.
  rewrite bool_decide_eq_true_2 by (by rewrite Hr).
  cbn [negb andb]. rewrite Hr. cbn [default].
  rewrite try_except_run, bind_run.
  rewrite (bot_update_stt_record_run o r _ _ row) by done.
  unfold delivered_to_user. cbn [snd stt_files ret].
  rewrite lookup_insert_eq. cbn [mbind option_bind].
  apply lookup_union_Some_l. apply lookup_singleton_eq.
Qed.

Lemma post_send_message_to_user_run o p data w :
  send_transport_error o = None ->
  str_truthy (bot_secret_token cfg) = true ->
  OUR_SECRET_TOKEN cfg = bot_secret_token cfg ->
  send_rate_limited o = false ->
  validate coerce_int p = Some data ->
  post_send_message_to_user coerce_int cfg o p w
  = (inl 200%Z,
     (send_message_to_user cfg o data
        (mkWorld (stt_files w) (calls w ++ [PostSendMessage p]))).2).
Proof.
  intros Ht Hs Htok Hrl Hv. unfold post_send_message_to_user.
  rewrite bind_call, Ht. unfold fail_if. rewrite bind_ret.
  rewrite Hs, Hrl, Hv. rewrite bool_decide_eq_true_2 by done. cbn [negb].
  rewrite bind_run.
  destruct (send_message_to_user_answers o data
              (mkWorld (stt_files w) (calls w ++ [PostSendMessage p])))
    as (b & w' & -> & _).
  done.
Qed.

Lemma post_process_message_run o chat thread text w :
  try_except (post_process_message o chat thread text ;;; ret tt)
    (fun _ => ret tt) w
  = (inl tt, mkWorld (stt_files w) (calls w ++ [PostProcessMessage chat thread text])).
Proof.
  unfold post_process_message. rewrite try_except_run, bind_run, bind_call.
  by destruct (process_message o).
Qed.


Lemma bind_raise {A B} e (k : A -> M B) w : bind (raise e) k w = (inr e, w).
Proof. reflexivity. Qed.

(** The [completed] branch, when it ran to its end and the delivery side
    worked. *)
Lemma webhook_completed_delivers o req t_id chat thread tr w w' row :
  webhook_completed coerce_int cfg o req t_id chat thread tr w = (inl (Some tt), w') ->
  stt_files w !! t_id = Some row ->
  chat <> 0%Z ->
  send_transport_error o = None ->
  OUR_SECRET_TOKEN cfg = bot_secret_token cfg ->
  send_rate_limited o = false ->
  is_Some (coerce_opt coerce_int (q_message_id req)) ->
  is_Some (coerce_opt coerce_int (q_temp_msg_id req)) ->
  tg_send_error o = None -> bot_update_error o = None ->
  delivered_to_user w' t_id = Some (VBool true).
Proof.
  intros H Hrow Hchat Htr Htok Hrl [mid Hmid] [tmid Htmid] Hsend Hupd.
  unfold webhook_completed in H. rewrite bind_call in H.
  destruct (provider o) as [e|result]; [by rewrite bind_raise in H|].
  rewrite bind_ret in H. cbv zeta in H. rewrite bind_run in H.
  match type of H with
  | context [update_stt_record o t_id ?u ?w0] =>
      pose proof (rows_kept_update_stt_record o t_id u w0 t_id) as Hk;
      destruct (update_stt_record o t_id u w0) as [[resp|e] w3]
  end; [|done].
  destruct Hk as [row3 Hrow3]; [by exists row|]. cbn [snd] in Hrow3.
  destruct (negb (str_truthy (TAGENT_LOCAL_URL cfg))
            || negb (str_truthy (OUR_SECRET_TOKEN cfg))) eqn:Hcfg; [done|].
  apply orb_false_elim in Hcfg as [_ Hsec]. apply negb_false_iff in Hsec.
  rewrite bind_run, try_except_run, bind_run in H.
  match type of H with
  | context [post_send_message_to_user coerce_int cfg o ?p w3] =>
      set (payload := p) in H
  end.
  assert (Hval : exists data,
            validate coerce_int payload = Some data
            /\ chat_id data = chat /\ message data <> ""
            /\ metadata data
               = Some {[ "stt_record_id" := t_id; "stt_transcript_id" := tr ]}).
  { subst payload. unfold validate.
    match goal with
    | |- context [if ?c then mkPayload _ _ _ _ _ _ _ _ _ else _] => destruct c
    end;
      cbn [p_message_id p_temp_msg_id p_file_type p_chat_id
           p_message p_metadata p_file_url p_file_name];
      rewrite Hmid, Htmid; eexists;
      (split; [reflexivity|]); cbn [chat_id message metadata];
      (split; [done|]); (split; [|done]).
    all: destruct (str_truthy (summary result)); simpl; discriminate. }
  destruct Hval as (data & Hval & Hc & Hm & Hmd).
  rewrite (post_send_message_to_user_run o payload data w3) in H;
    [|done|by rewrite <- Htok|done|done|done].
  destruct (send_message_to_user_delivers o data
              (mkWorld (stt_files w3) (calls w3 ++ [PostSendMessage payload]))
              {[ "stt_record_id" := t_id; "stt_transcript_id" := tr ]} t_id row3)
    as (w5 & E5 & Hd5); try done; [by rewrite Hc|].
  rewrite E5 in H. cbn [snd] in H. unfold ret at 1 in H.
  change ((200 =? 200)%Z) with true in H. cbv beta iota in H.
  rewrite bind_run, post_process_message_run in H.
  unfold ret in H. injection H as <-. done.
Qed.

(** X15.  A [completed] webhook for a record of the table was processed to
    its end, and the delivery side worked: the post reached the bot with the
    right token and was not rate limited, the message and temporary-message
    ids read as integers, the chat id is not zero, Telegram took the message
    and the bot could update the record.  Then the record is marked
    delivered, and the same webhook sent again is answered with the
    already-delivered acknowledgement after the delivery check alone:
    nothing is transcribed, stored or sent twice. *)
Theorem completed_webhook_marks_delivered o req w w' b chat t_id row processed_at :
  (str_truthy (webhook_secret cfg) = false \/ secret_matches cfg req = true) ->
  identifiers_valid py_int req = true ->
  py_int (default "" (q_chat_id req)) = Some chat ->
  q_t_id req = Some t_id ->
  body req = Some b -> status b = Some "completed" ->
  stt_files w !! t_id = Some row ->
  assemblyai_webhook py_int coerce_int cfg o req w = (inl (Processed processed_at), w') ->
  chat <> 0%Z ->
  send_transport_error o = None ->
  OUR_SECRET_TOKEN cfg = bot_secret_token cfg ->
  send_rate_limited o = false ->
  is_Some (coerce_opt coerce_int (q_message_id req)) ->
  is_Some (coerce_opt coerce_int (q_temp_msg_id req)) ->
  tg_send_error o = None -> bot_update_error o = None ->
  is_delivered w' t_id = true
  /\ forall o2,
       check_error o2 = None ->
       assemblyai_webhook py_int coerce_int cfg o2 req w'
       = (inl AlreadyDelivered,
          mkWorld (stt_files w') (calls w' ++ [CheckDelivery t_id])).
Proof.
  intros Ha Hv Hc Ht Hb Hs Hrow H Hchat Htr Htok Hrl Hmid Htmid Hsend Hupd.
  assert (Hd : delivered_to_user w' t_id = Some (VBool true)).
  { rewrite (webhook_admitted py_int coerce_int cfg o req w chat) in H by done.
    rewrite try_except_run in H. unfold webhook_accepted in H.
    rewrite Ht in H. change (default "" (Some t_id)) with t_id in H.
    rewrite bind_run in H.
    pose proof (check_stt_record_delivery_effect o t_id w) as Hw1.
    destruct (check_stt_record_delivery o t_id w) as [[v|e] w1];
      [|discriminate H].
    cbn [snd] in Hw1. subst w1.
    destruct (truthy v); [done|].
    rewrite Hb, bind_ret, Hs in H.
    destruct (negb (str_truthy (transcript_id b)) || negb (str_truthy (Some "completed")));
      [done|].
    rewrite bool_decide_eq_true_2 in H by done. rewrite bind_run in H.
    match type of H with
    | context [webhook_completed coerce_int cfg o req t_id chat ?th ?tr ?w0] =>
        destruct (webhook_completed coerce_int cfg o req t_id chat th tr w0)
          as [[[[]|]|e] w2] eqn:Hcomp
    end; [|done|done].
    unfold ret in H. injection H as _ <-.
    by eapply (webhook_completed_delivers o req t_id chat _ _ _ w2 row). }
  assert (Hdel : is_delivered w' t_id = true) by (unfold is_delivered; by rewrite Hd).
  split; [done|]. intros o2 Hc2.
  rewrite (webhook_admitted py_int coerce_int cfg o2 req w' chat) by done.
  rewrite try_except_run. unfold webhook_accepted.
  rewrite Ht. change (default "" (Some t_id)) with t_id. rewrite bind_run.
  rewrite check_stt_record_delivery_run by done.
  rewrite Hd. cbn [default truthy]. done.
Qed.


End Delivery.


Lemma undelivered_message_is_not_marked_witness :
  delivered_to_user
    (assemblyai_webhook decimal_int decimal_int cfg_secret telegram_down
       (request (Some "token") (Some "42") "completed") (world false)).2 "rec-1"
  = Some (VBool false).
Proof.
  rewrite (undelivered_message_is_not_marked decimal_int decimal_int cfg_secret
             telegram_down (request (Some "token") (Some "42") "completed")
             (world false) "rec-1").
  - vm_compute. reflexivity.
  - left. discriminate.
Defined.

Lemma completed_webhook_marks_delivered_witness :
  exists w',
    assemblyai_webhook decimal_int decimal_int cfg_secret quiet
      (request (Some "token") (Some "42") "completed") (world false)
    = (inl (Processed (now quiet)), w')
    /\ is_delivered w' "rec-1" = true.
Proof.
  set (w' := (assemblyai_webhook decimal_int decimal_int cfg_secret quiet
                (request (Some "token") (Some "42") "completed") (world false)).2).
  assert (E : assemblyai_webhook decimal_int decimal_int cfg_secret quiet
                (request (Some "token") (Some "42") "completed") (world false)
              = (inl (Processed (now quiet)), w')).
  { vm_compute. reflexivity. }
  exists w'. split; [exact E|].
  destruct (completed_webhook_marks_delivered decimal_int decimal_int cfg_secret
              quiet (request (Some "token") (Some "42") "completed")
              (world false) w' (mkBody (Some "tr-1") (Some "completed")) 42%Z
              "rec-1"
              {[ "delivered_to_user" := VBool false;
                 "status" := VStr "processing" ]}
              (now quiet)) as [Hd _].
  - right. vm_compute. reflexivity.
  - vm_compute. reflexivity.
  - vm_compute. reflexivity.
  - reflexivity.
  - reflexivity.
  - reflexivity.
  - vm_compute. reflexivity.
  - exact E.
  - discriminate.
  - reflexivity.
  - reflexivity.
  - reflexivity.
  - exists None. reflexivity.
  - exists None. reflexivity.
  - reflexivity.
  - reflexivity.
  - exact Hd.
Defined.

(** ** Messages without visible text *)

Lemma remove_tags_no_tag fuel l :
  length l <= fuel -> "<"%char ∉ l -> remove_tags fuel l = l.
Proof.
  revert l. induction fuel as [|fuel IH]; intros [|c l] Hlen Hno; simpl in *;
    try done; try lia.
  apply not_elem_of_cons in Hno as [Hc Hno].
  rewrite bool_decide_eq_false_2 by done. f_equal. apply IH; [lia|done].
Qed.

Lemma forallb_is_space_filter l :
  forallb is_space (filter (fun c => is_markdown c = false) l) = true
  <-> Forall (fun c => is_markdown c = true \/ is_space c = true) l.
Proof.
  induction l as [|c l IH]; [by split|].
  rewrite Forall_cons, <- IH. destruct (is_markdown c) eqn:Hm.
  - rewrite filter_cons_False by (by rewrite Hm).
    split; [intros ?; split; [by left|done]|by intros [_ ?]].
  - rewrite filter_cons_True by done. simpl. rewrite andb_true_iff.
    split; [intros [? ?]; split; [by right|done]|by intros [[?|?] ?]].
Qed.

(** X16.  [is_essentially_empty] on an ASCII text that holds no ["<"], hence
    no tag: the text counts as empty exactly when each of its characters is
    one of the four markdown markers or white space; so the empty text and a
    text of markers and blanks are replaced by the default message, and one
    visible character is enough to keep the text. *)
Theorem is_essentially_empty_without_tags text :
  Forall (fun c => Ascii.nat_of_ascii c < 128) (list_ascii_of_string text) ->
  "<"%char ∉ list_ascii_of_string text ->
  is_essentially_empty text = true
  <-> Forall (fun c => is_markdown c = true \/ is_space c = true)
        (list_ascii_of_string text).
Proof.
  intros _ Hno. unfold is_essentially_empty. case_bool_decide as He.
  { subst text. by split. }
  cbv zeta. rewrite remove_tags_no_tag; [apply forallb_is_space_filter|done|].
  intros Hin. apply list_elem_of_filter in Hin as [_ Hin]. by apply Hno.
Qed.

Lemma is_essentially_empty_without_tags_witness :
  is_essentially_empty "_ *~ _" = true /\ is_essentially_empty "_a_" = false.
Proof.
  split.
  - apply (is_essentially_empty_without_tags "_ *~ _").
    + apply (bool_decide_unpack _). vm_compute. exact I.
    + apply (bool_decide_unpack _). vm_compute. exact I.
    + repeat constructor; (by left) || (by right).
  - apply not_true_is_false. intros H.
    apply (is_essentially_empty_without_tags "_a_") in H.
    + apply Forall_cons in H as [_ H]. apply Forall_cons in H as [[H|H] _];
        discriminate H.
    + apply (bool_decide_unpack _). vm_compute. exact I.
    + apply (bool_decide_unpack _). vm_compute. exact I.
Defined.

End WebhookFacts.
